(** * Authentication and token-lifecycle subsystem of the zeabur-server-demo API

    A shallow embedding of [utils/security.js], [utils/jwt.js],
    [utils/errors.js], [models/User.js], [middleware/auth.js] and the
    handlers of [routes/auth.js], the properties of the specification that
    were checked against it, and further properties of the code.

    Conventions.
    - A JavaScript string is the list of its UTF-16 code units ([jsstr]).
    - [Date.now()] and the database are explicit arguments: every function
      that reads the clock takes the reading, every function that touches a
      store takes the store and returns the new one.
    - A JavaScript [throw] is the [Err] branch of [result].
    - The [jsonwebtoken] package is not part of the repository; its three
      entry points are the fields of the class [JsonWebToken], and what the
      package documents about them is the class [JsonWebTokenSpec]. *)

From Stdlib Require Import ZArith NArith List String Ascii Bool Lia.
From stdpp Require Import base option list gmap.

Local Open Scope Z_scope.

(* ===================================================================== *)
(** ** JavaScript strings *)
(* ===================================================================== *)

Module JS.

(** A string value: its UTF-16 code units, in order. *)
Definition jsstr : Type := list N.

(** The code units of an ASCII literal of the source. *)
Fixpoint lit (s : string) : jsstr :=
  match s with
  | EmptyString => []
  | String a s' => N_of_ascii a :: lit s'
  end.

(** [s.length] *)
Definition len (s : jsstr) : Z := Z.of_nat (length s).

(** ECMAScript WhiteSpace and LineTerminator code units: the class [\s] of
    a regular expression, and what [String.prototype.trim] removes. *)
Definition isWhiteSpace (c : N) : bool :=
  ((9 <=? c) && (c <=? 13) || (c =? 32) || (c =? 160) || (c =? 5760)
   || (8192 <=? c) && (c <=? 8202) || (c =? 8232) || (c =? 8233)
   || (c =? 8239) || (c =? 8287) || (c =? 12288) || (c =? 65279))%N.

(** ECMAScript LineTerminator: what [.] does not match (no [s] flag). *)
Definition isLineTerminator (c : N) : bool :=
  ((c =? 10) || (c =? 13) || (c =? 8232) || (c =? 8233))%N.

Definition isLower (c : N) : bool := ((97 <=? c) && (c <=? 122))%N.
Definition isUpper (c : N) : bool := ((65 <=? c) && (c <=? 90))%N.
Definition isDigit (c : N) : bool := ((48 <=? c) && (c <=? 57))%N.

(** Equality of strings, as [===] on two string values. *)
Fixpoint streq (a b : jsstr) : bool :=
  match a, b with
  | [], [] => true
  | x :: a', y :: b' => (x =? y)%N && streq a' b'
  | _, _ => false
  end.

(** [p] matches at the start of [s], code units compared with [eqc]. *)
Fixpoint prefixBy (eqc : N -> N -> bool) (p s : jsstr) : bool :=
  match p, s with
  | [], _ => true
  | x :: p', y :: s' => eqc y x && prefixBy eqc p' s'
  | _ :: _, [] => false
  end.

(** [p] matches somewhere in [s]. *)
Fixpoint searchBy (eqc : N -> N -> bool) (p s : jsstr) : bool :=
  prefixBy eqc p s ||
  match s with
  | [] => false
  | _ :: s' => searchBy eqc p s'
  end.

(** [s.startsWith(p)] and [s.includes(p)] *)
Definition startsWith (s p : jsstr) : bool := prefixBy N.eqb p s.
Definition includes (s p : jsstr) : bool := searchBy N.eqb p s.

(** [s.slice(n)] for [n >= 0] *)
Definition slice (n : nat) (s : jsstr) : jsstr := drop n s.

(** The simple case folding of a regular expression with the [i] flag and
    without the [u] flag (Canonicalize), on the code units that can equal
    the image of an ASCII letter or digit: the letters [a]..[z] go to
    [A]..[Z]; no code unit from 128 up is ever sent below 128. *)
Definition canonicalize (c : N) : N := if isLower c then (c - 32)%N else c.
Definition eqIgnoreCase (c p : N) : bool := (canonicalize c =? canonicalize p)%N.

(** [some_char f s]: a character class [f] matches somewhere in [s]. *)
Definition some_char (f : N -> bool) (s : jsstr) : bool := existsb f s.

(** [Math.ceil(x / 1000)] on an integer [x]; the floating-point quotient
    has the exact ceiling for every [x] below 2^53 in size. *)
Definition ceil_div_1000 (x : Z) : Z := - ((- x) / 1000).

(** [s.split('.').length]: one more than the number of dots. *)
Definition dot : N := 46%N.
Fixpoint countDots (s : jsstr) : Z :=
  match s with
  | [] => 0
  | c :: s' => (if (c =? dot)%N then 1 else 0) + countDots s'
  end.
Definition split_dot_length (s : jsstr) : Z := countDots s + 1.

(** [String.prototype.toLowerCase] restricted to what the properties below
    use it on, strings of ASCII code units: [A]..[Z] go to [a]..[z]. *)
Definition lowerChar (c : N) : N := if isUpper c then (c + 32)%N else c.
Definition toLowerCase (s : jsstr) : jsstr := map lowerChar s.

(** [String.prototype.trim] *)
Fixpoint trimStart (s : jsstr) : jsstr :=
  match s with
  | c :: s' => if isWhiteSpace c then trimStart s' else s
  | [] => []
  end.
Definition trim (s : jsstr) : jsstr := rev (trimStart (rev (trimStart s))).

(** [s.substring(a, b)]: both indices are clamped to [0 .. s.length], and
    swapped when the first is the larger. *)
Definition substring (a b : Z) (s : jsstr) : jsstr :=
  let a := Z.min (Z.max a 0) (len s) in
  let b := Z.min (Z.max b 0) (len s) in
  take (Z.to_nat (Z.max a b - Z.min a b)) (drop (Z.to_nat (Z.min a b)) s).

(** The class [\w] of a regular expression without the [u] flag; the [i]
    flag adds nothing to it. *)
Definition isWordChar (c : N) : bool :=
  isLower c || isUpper c || isDigit c || (c =? 95)%N.

(** [s.replace(re, '')] for a global [re]: the matches are looked for from
    left to right, each search starting where the last match ended.
    [matchAt s] is the length of the match of [re] at the start of [s], 0
    when there is none; [skip] code units of the match found last are
    still to be dropped. *)
Fixpoint removeMatches (matchAt : jsstr -> nat) (skip : nat) (s : jsstr)
    : jsstr :=
  match s with
  | [] => []
  | c :: s' =>
      match skip with
      | S k => removeMatches matchAt k s'
      | O =>
          match matchAt s with
          | S k => removeMatches matchAt k s'
          | O => c :: removeMatches matchAt 0 s'
          end
      end
  end.

(** A field of a parsed JSON body, as far as a handler can tell: a string,
    or a value that is not one ([undefined] for a field the body does not
    have, [null], a boolean, a number, an array, an object) with its
    truthiness. *)
Inductive value : Type :=
| Str (s : jsstr)
| NonString (isTruthy : bool).

(** [!!v]: of the strings only the empty one is falsy. *)
Definition truthy (v : value) : bool :=
  match v with
  | Str [] => false
  | Str _ => true
  | NonString b => b
  end.

(** [v] when [typeof v === 'string']. *)
Definition asString (v : value) : option jsstr :=
  match v with
  | Str s => Some s
  | NonString _ => None
  end.

End JS.
Import JS.

(** Thrown values carry a message; a call either returns or throws. *)
Inductive result (E A : Type) : Type :=
| Ok (a : A)
| Err (e : E).
Arguments Ok {E A} a.
Arguments Err {E A} e.

(* ===================================================================== *)
(** ** utils/constants.js *)
(* ===================================================================== *)

Module HTTP_STATUS.
Definition OK : Z := 200.
Definition CREATED : Z := 201.
Definition BAD_REQUEST : Z := 400.
Definition UNAUTHORIZED : Z := 401.
Definition FORBIDDEN : Z := 403.
Definition NOT_FOUND : Z := 404.
Definition CONFLICT : Z := 409.
Definition INTERNAL_SERVER_ERROR : Z := 500.
End HTTP_STATUS.

(** [ERROR_CODES]: each key is bound to the string of its own name. *)
Inductive ERROR_CODES : Type :=
| AUTH_TOKEN_MISSING
| AUTH_TOKEN_INVALID
| AUTH_TOKEN_EXPIRED
| AUTH_CREDENTIALS_INVALID
| USER_NOT_FOUND
| USER_ALREADY_EXISTS
| USER_INVALID_EMAIL
| USER_INVALID_PASSWORD
| DATABASE_CONNECTION_ERROR
| DATABASE_QUERY_ERROR
| VALIDATION_ERROR
| MISSING_REQUIRED_FIELDS
| INTERNAL_ERROR
| NOT_FOUND
| BAD_REQUEST.

(* ===================================================================== *)
(** ** utils/security.js: the rate limiter *)
(* ===================================================================== *)

Module SecurityUtils.

(** A value of [rateLimitStore]. *)
Record RateRecord : Type := mkRate { attempts : Z; resetTime : Z }.

(** What [checkRateLimit] returns. *)
Record RateLimitResult : Type := mkRateResult {
  allowed : bool;
  remaining : Z;
  resultResetTime : Z;
  retryAfter : Z
}.

(** [static rateLimitStore = new Map()]: keys are strings. *)
Abbreviation RateLimitStore := (gmap (list N) RateRecord).

(** [checkRateLimit(key, maxAttempts, windowMs)] at clock reading [now]
    (milliseconds).  The record read from the map is the map's own object:
    the window reset writes through to the store even on the denied path,
    where the source does not call [set]; a record made for an absent key
    is stored only by the [set] of the allowed path. *)
Definition checkRateLimit (key : jsstr) (maxAttempts windowMs now : Z)
    (store : RateLimitStore) : RateLimitResult * RateLimitStore :=
  let existing := store !! key in
  let record := default (mkRate 0 (now + windowMs)) existing in
  let record :=
    if now >? resetTime record then mkRate 0 (now + windowMs) else record in
  if attempts record >=? maxAttempts then
    (mkRateResult false 0 (resetTime record)
       (ceil_div_1000 (resetTime record - now)),
     match existing with
     | Some _ => <[key := record]> store
     | None => store
     end)
  else
    let record := mkRate (attempts record + 1) (resetTime record) in
    (mkRateResult true (maxAttempts - attempts record) (resetTime record) 0,
     <[key := record]> store).

(** [resetRateLimit(key)] *)
Definition resetRateLimit (key : jsstr) (store : RateLimitStore)
    : RateLimitStore :=
  delete key store.

(** [cleanupRateLimit()] at clock reading [now]. *)
Definition cleanupRateLimit (now : Z) (store : RateLimitStore)
    : RateLimitStore :=
  filter (fun kv => (now >? resetTime (snd kv)) = false) store.

(* --------------------------------------------------------------------- *)
(** ** utils/security.js: sanitizing and masking *)
(* --------------------------------------------------------------------- *)

(** [/[<>]/] at the start of [s]; 60 and 62 are the angle brackets. *)
Definition matchAngleBracket (s : jsstr) : nat :=
  match s with
  | c :: _ => if ((c =? 60) || (c =? 62))%N then 1%nat else 0%nat
  | [] => 0%nat
  end.

(** [/javascript:/i] at the start of [s]. *)
Definition matchJavascript (s : jsstr) : nat :=
  if prefixBy eqIgnoreCase (lit "javascript:") s then 11%nat else 0%nat.

(** The length of the longest run of word characters [s] starts with. *)
Fixpoint wordRun (s : jsstr) : nat :=
  match s with
  | c :: s' => if isWordChar c then S (wordRun s') else 0%nat
  | [] => 0%nat
  end.

(** [/on\w+=/i] at the start of [s]: the greedy [\w+] takes the whole run
    of word characters, and giving some of them back cannot help, the
    equals sign (61) not being one. *)
Definition matchEventHandler (s : jsstr) : nat :=
  if prefixBy eqIgnoreCase (lit "on") s then
    let rest := drop 2 s in
    let n := wordRun rest in
    match n, drop n rest with
    | S _, c :: _ => if (c =? 61)%N then (2 + n + 1)%nat else 0%nat
    | _, _ => 0%nat
    end
  else 0%nat.

(** [sanitizeInput(input)] on a string; any other value is returned as it
    is. *)
Definition sanitizeInput (input : jsstr) : jsstr :=
  trim
    (removeMatches matchEventHandler 0
       (removeMatches matchJavascript 0
          (removeMatches matchAngleBracket 0 input))).

(** [maskSensitiveData(data, visibleChars)] for an integer [visibleChars];
    [None] is a [data] that is not a string; 42 is the asterisk. *)
Definition maskSensitiveData (data : option jsstr) (visibleChars : Z) : jsstr :=
  match data with
  | Some ((_ :: _) as d) =>
      if len d <=? visibleChars * 2 then lit "***"
      else
        let start := substring 0 visibleChars d in
        let end_ := substring (len d - visibleChars) (len d) d in
        let middle :=
          repeat 42%N (Z.to_nat (Z.max 3 (len d - visibleChars * 2))) in
        start ++ middle ++ end_
  | _ => lit "***"
  end.

(* --------------------------------------------------------------------- *)
(** ** utils/security.js: password strength *)
(* --------------------------------------------------------------------- *)

Inductive Strength : Type :=
| very_weak | weak | medium | strong | very_strong.

Record StrengthResult : Type := mkStrength {
  score : Z;
  strength : Strength;
  feedback : list jsstr
}.

(** The punctuation class of the special-character test; code unit 34 is
    the double quote. *)
Definition specialChars : jsstr :=
  lit "!@#$%^&*(),.?" ++ [34%N] ++ lit ":{}|<>".
Definition isSpecial (c : N) : bool := existsb (N.eqb c) specialChars.

(** [/(.)\1{2,}/.test(s)]: a code unit that [.] matches, followed by two
    more copies of itself. *)
Fixpoint hasRepeatedChars (s : jsstr) : bool :=
  match s with
  | a :: t =>
      match t with
      | b :: c :: _ =>
          (negb (isLineTerminator a) && (a =? b)%N && (a =? c)%N)
          || hasRepeatedChars t
      | _ => false
      end
  | [] => false
  end.

(** [/123|abc|qwe/i.test(s)] *)
Definition hasCommonSequence (s : jsstr) : bool :=
  searchBy eqIgnoreCase (lit "123") s
  || searchBy eqIgnoreCase (lit "abc") s
  || searchBy eqIgnoreCase (lit "qwe") s.

(** One [if (test) score += 1; else feedback.push(msg)] statement. *)
Definition check (test : bool) (msg : string) (st : Z * list jsstr)
    : Z * list jsstr :=
  if test then (fst st + 1, snd st) else (fst st, snd st ++ [lit msg]).

(** One [if (test) { score -= 1; feedback.push(msg) }] statement. *)
Definition penalty (test : bool) (msg : string) (st : Z * list jsstr)
    : Z * list jsstr :=
  if test then (fst st - 1, snd st ++ [lit msg]) else st.

(** The strength ladder at the end of [validatePasswordStrength]. *)
Definition bucket (score : Z) : Strength :=
  if score <=? 2 then weak
  else if score <=? 4 then medium
  else if score <=? 5 then strong
  else very_strong.

(** The body of [validatePasswordStrength] between its guard and its
    [return]: [score] and [feedback] after the eight tests. *)
Definition tally (p : jsstr) : Z * list jsstr :=
  let st := (0, []) in
  let st := check (8 <=? len p) "Use at least 8 characters" st in
  let st := if 12 <=? len p then (fst st + 1, snd st) else st in
  let st := check (some_char isLower p) "Include lowercase letters" st in
  let st := check (some_char isUpper p) "Include uppercase letters" st in
  let st := check (some_char isDigit p) "Include numbers" st in
  let st := check (some_char isSpecial p) "Include special characters" st in
  let st := penalty (hasRepeatedChars p) "Avoid repeated characters" st in
  penalty (hasCommonSequence p) "Avoid common sequences" st.

(** [validatePasswordStrength(password)].  [None] stands for an argument
    that is not a string ([null], [undefined], a number). *)
Definition validatePasswordStrength (password : option jsstr)
    : StrengthResult :=
  match password with
  | None | Some [] =>
      mkStrength 0 very_weak [lit "Password is required"]
  | Some p =>
      let st := tally p in
      mkStrength (Z.max 0 (fst st)) (bucket (fst st))
        (match snd st with
         | [] => [lit "Password strength is good"]
         | fb => fb
         end)
  end.

End SecurityUtils.

(* ===================================================================== *)
(** ** The jsonwebtoken package, as the repository uses it *)
(* ===================================================================== *)

(** The payload object the repository signs: [{ userId, email, type }].
    A field that is absent holds the falsy value of its type ([0], the
    empty string); the source only tests these fields for truthiness or
    compares them with a literal. *)
Record Claims : Type := mkClaims {
  userId : Z;
  email : jsstr;
  type : jsstr
}.

(** A decoded payload: the signed claims and the registered claims the
    package adds.  Times are integer Unix seconds; an absent [exp] is [0]. *)
Record Decoded : Type := mkDecoded {
  claims :> Claims;
  iat : Z;
  exp : Z;
  iss : jsstr;
  aud : jsstr
}.

(** [jwt.decode(token, { complete: true })]: header omitted, it is never
    read. *)
Record Complete : Type := mkComplete {
  payload : Decoded;
  signature : jsstr
}.

(** The [name] of an error thrown by the package, as [verifyToken] reads
    it, and its [message]. *)
Inductive JwtErrorName : Type :=
| TokenExpiredError
| JsonWebTokenError
| NotBeforeError
| OtherError.

Record JwtError : Type := mkJwtError {
  name : JwtErrorName;
  message : jsstr
}.

(** Options after the spread [{ ...defaultOptions, ...options }];
    [expiresIn] is a time span in seconds. *)
Record SignOptions : Type := mkSignOptions {
  expiresIn : Z;
  issuer : jsstr;
  audience : jsstr
}.

Record VerifyOptions : Type := mkVerifyOptions {
  verifyIssuer : jsstr;
  verifyAudience : jsstr
}.

(** The three entry points.  [jwt_sign] and [jwt_verify] take the clock
    reading [Math.floor(Date.now() / 1000)] as their last argument. *)
Class JsonWebToken : Type := {
  jwt_sign : Claims -> jsstr -> SignOptions -> Z -> result JwtError jsstr;
  jwt_verify : jsstr -> jsstr -> VerifyOptions -> Z -> result JwtError Decoded;
  jwt_decode : jsstr -> result JwtError (option Complete)
}.

(** What [sign] puts in the payload. *)
Definition signedPayload (c : Claims) (o : SignOptions) (now : Z) : Decoded :=
  mkDecoded c now (now + expiresIn o) (issuer o) (audience o).

(** The package's contract, as far as the repository relies on it.
    - A token is three base64url segments joined by two dots.
    - Signing with a secret that has a value succeeds.
    - Verifying a token it signed, with the same secret, issuer and
      audience: [TokenExpiredError] from the second [exp] on
      ([clockTimestamp >= payload.exp]), the signed payload before.
    - [verify] and [decode] return a payload only for a three-segment token.
    - [decode] of a token it signed returns the signed payload, whatever
      the secret and the time.
    - The payload [verify] returns is the one [decode] reads. *)
Class JsonWebTokenSpec (lib : JsonWebToken) : Prop := {
  sign_returns : forall c secret o now,
    secret <> [] -> exists tok, jwt_sign c secret o now = Ok tok;
  sign_compact : forall c secret o now tok,
    jwt_sign c secret o now = Ok tok ->
    countDots tok = 2 /\ existsb isWhiteSpace tok = false;
  verify_sign : forall c secret o now tok now',
    jwt_sign c secret o now = Ok tok ->
    jwt_verify tok secret (mkVerifyOptions (issuer o) (audience o)) now' =
      if now + expiresIn o <=? now'
      then Err (mkJwtError TokenExpiredError (lit "jwt expired"))
      else Ok (signedPayload c o now);
  verify_compact : forall tok secret vo now d,
    jwt_verify tok secret vo now = Ok d -> countDots tok = 2;
  decode_sign : forall c secret o now tok,
    jwt_sign c secret o now = Ok tok ->
    exists sg, jwt_decode tok = Ok (Some (mkComplete (signedPayload c o now) sg));
  decode_compact : forall tok c,
    jwt_decode tok = Ok (Some c) -> countDots tok = 2;
  verify_decode : forall tok secret vo now d,
    jwt_verify tok secret vo now = Ok d ->
    exists sg, jwt_decode tok = Ok (Some (mkComplete d sg))
}.

(* ===================================================================== *)
(** ** config/index.js *)
(* ===================================================================== *)

(** The environment variables [JWT_SECRET] and [JWT_EXPIRES_IN] (the
    latter as the time span in seconds it denotes), [None] when unset. *)
Record Env : Type := mkEnv {
  JWT_SECRET : option jsstr;
  JWT_EXPIRES_IN : option Z
}.

Record JwtConfig : Type := mkJwtConfig {
  secret : jsstr;
  configExpiresIn : Z
}.

(** [x || d] on a string that may be unset. *)
Definition orElse (x : option jsstr) (d : jsstr) : jsstr :=
  match x with
  | None | Some [] => d
  | Some s => s
  end.

(** [config.jwt]; ['24h'] is 86400 seconds. *)
Definition config_jwt (env : Env) : JwtConfig :=
  mkJwtConfig (orElse (JWT_SECRET env) (lit "demo-jwt-secret-key"))
              (default 86400 (JWT_EXPIRES_IN env)).

(* ===================================================================== *)
(** ** utils/jwt.js *)
(* ===================================================================== *)

Module JWTUtils.

(** The [options] argument of [generateToken] and [verifyToken]: the keys
    the caller set. *)
Record Options : Type := mkOptions {
  optExpiresIn : option Z;
  optIssuer : option jsstr;
  optAudience : option jsstr
}.
Definition noOptions : Options := mkOptions None None None.

(** The [user] argument of the token generators: [{ id, email }]. *)
Record TokenUser : Type := mkTokenUser {
  id : Z;
  userEmail : jsstr
}.

(** [token.replace(/^Bearer\s+/, '')] *)
Definition cleanToken (token : jsstr) : jsstr :=
  if startsWith token (lit "Bearer") then
    match drop 6 token with
    | c :: rest => if isWhiteSpace c then trimStart rest else token
    | [] => token
    end
  else token.

(** [isValidTokenFormat(token)] *)
Definition isValidTokenFormat (token : jsstr) : bool :=
  match token with
  | [] => false
  | _ => split_dot_length (cleanToken token) =? 3
  end.

Section WithLibrary.
Context {lib : JsonWebToken}.
Variable env : Env.

Definition ISSUER : jsstr := lit "zeabur-server-demo".
Definition AUDIENCE : jsstr := lit "zeabur-server-demo-users".

(** [generateToken(payload, options)]; [None] is a payload that is not an
    object. *)
Definition generateToken (payload : option Claims) (options : Options)
    (now : Z) : result jsstr jsstr :=
  match payload with
  | None => Err (lit "Payload must be a valid object")
  | Some p =>
      if userId p =? 0 then Err (lit "Payload must contain userId")
      else
        let tokenOptions :=
          mkSignOptions
            (default (configExpiresIn (config_jwt env)) (optExpiresIn options))
            (default ISSUER (optIssuer options))
            (default AUDIENCE (optAudience options)) in
        match jwt_sign p (secret (config_jwt env)) tokenOptions now with
        | Ok token => Ok token
        | Err error => Err (lit "Token generation failed: " ++ message error)
        end
  end.

(** [generateAuthToken(user)]; the guard is
    [!user || !user.id || !user.email]. *)
Definition generateAuthToken (user : option TokenUser) (now : Z)
    : result jsstr jsstr :=
  match user with
  | Some u =>
      if (id u =? 0) || streq (userEmail u) []
      then Err (lit "User must have id and email properties")
      else generateToken (Some (mkClaims (id u) (userEmail u) (lit "auth")))
                         noOptions now
  | None => Err (lit "User must have id and email properties")
  end.

(** [generateRefreshToken(user)]; ['7d'] is 604800 seconds. *)
Definition generateRefreshToken (user : option TokenUser) (now : Z)
    : result jsstr jsstr :=
  match user with
  | Some u =>
      if (id u =? 0) || streq (userEmail u) []
      then Err (lit "User must have id and email properties")
      else generateToken (Some (mkClaims (id u) (userEmail u) (lit "refresh")))
                         (mkOptions (Some 604800) None None) now
  | None => Err (lit "User must have id and email properties")
  end.

(** [verifyToken(token, options)] *)
Definition verifyToken (token : jsstr) (options : Options) (now : Z)
    : result jsstr Decoded :=
  match token with
  | [] => Err (lit "Token must be a valid string")
  | _ =>
      let verifyOptions :=
        mkVerifyOptions (default ISSUER (optIssuer options))
                        (default AUDIENCE (optAudience options)) in
      match jwt_verify (cleanToken token) (secret (config_jwt env))
                       verifyOptions now with
      | Ok decoded => Ok decoded
      | Err error =>
          match name error with
          | TokenExpiredError => Err (lit "Token has expired")
          | JsonWebTokenError => Err (lit "Invalid token")
          | NotBeforeError => Err (lit "Token not active yet")
          | OtherError =>
              Err (lit "Token verification failed: " ++ message error)
          end
      end
  end.

(** [decodeToken(token)] *)
Definition decodeToken (token : jsstr) : result jsstr (option Complete) :=
  match token with
  | [] => Err (lit "Token must be a valid string")
  | _ =>
      match jwt_decode (cleanToken token) with
      | Ok decoded => Ok decoded
      | Err error => Err (lit "Token decode failed: " ++ message error)
      end
  end.

(** [isTokenExpired(token)] at [currentTime = Math.floor(Date.now() / 1000)] *)
Definition isTokenExpired (token : jsstr) (currentTime : Z) : bool :=
  match decodeToken token with
  | Ok (Some decoded) =>
      if exp (payload decoded) =? 0 then true
      else exp (payload decoded) <? currentTime
  | Ok None => true
  | Err _ => true
  end.

(** [getTokenRemainingTime(token)] at [currentTime] *)
Definition getTokenRemainingTime (token : jsstr) (currentTime : Z) : Z :=
  match decodeToken token with
  | Ok (Some decoded) =>
      if exp (payload decoded) =? 0 then 0
      else
        let remainingTime := exp (payload decoded) - currentTime in
        Z.max 0 remainingTime
  | Ok None => 0
  | Err _ => 0
  end.

(** [getUserFromToken(token)] *)
Definition getUserFromToken (token : jsstr) (now : Z) : option Decoded :=
  match verifyToken token noOptions now with
  | Ok decoded => Some decoded
  | Err _ => None
  end.

(** [refreshAccessToken(refreshToken)]: every throw inside the [try],
    the one of the type test included, is rethrown with the prefix. *)
Definition refreshAccessToken (refreshToken : jsstr) (now : Z)
    : result jsstr jsstr :=
  let attempt :=
    match verifyToken refreshToken noOptions now with
    | Err e => Err e
    | Ok decoded =>
        if negb (streq (type decoded) (lit "refresh"))
        then Err (lit "Invalid refresh token type")
        else generateAuthToken
               (Some (mkTokenUser (userId decoded) (email decoded))) now
    end in
  match attempt with
  | Ok token => Ok token
  | Err e => Err (lit "Token refresh failed: " ++ e)
  end.

(** [getTokenExpiration(token)]: the time value, in milliseconds, of the
    [Date] it returns; [None] is [null]. *)
Definition getTokenExpiration (token : jsstr) : option Z :=
  match decodeToken token with
  | Ok (Some decoded) =>
      if exp (payload decoded) =? 0 then None
      else Some (exp (payload decoded) * 1000)
  | Ok None => None
  | Err _ => None
  end.

(** [generateTokenPair(user)]: the access token is made first. *)
Record TokenPair : Type := mkTokenPair {
  accessToken : jsstr;
  refreshToken : jsstr
}.

Definition generateTokenPair (user : option TokenUser) (now : Z)
    : result jsstr TokenPair :=
  match generateAuthToken user now with
  | Err e => Err e
  | Ok access =>
      match generateRefreshToken user now with
      | Err e => Err e
      | Ok refresh => Ok (mkTokenPair access refresh)
      end
  end.

End WithLibrary.

End JWTUtils.

(* ===================================================================== *)
(** ** The users table *)
(* ===================================================================== *)

Module Db.

(** A row of [users]:
    [id SERIAL PRIMARY KEY, email VARCHAR(255) UNIQUE NOT NULL,
     password_hash, created_at, updated_at]. *)
Record Row : Type := mkRow {
  id : Z;
  email : jsstr;
  password_hash : jsstr;
  created_at : Z;
  updated_at : Z
}.

(** The connection and the table: [pool] is false before [connect()];
    [users_id_seq] is the last value the sequence of [id] gave out. *)
Record t : Type := mkDb {
  pool : bool;
  users : list Row;
  users_id_seq : Z
}.

(** What [dbConnection.query] throws: [Error('Database not connected')],
    or the unique violation (SQLSTATE 23505) of [users.email]. *)
Inductive Error : Type :=
| NotConnected
| UniqueViolation.

(** The [message] of what [dbConnection.query] throws: the text of
    [db/connection.js], and the text PostgreSQL gives a violation of the
    constraint [users_email_key]; code unit 34 is the double quote. *)
Definition message (e : Error) : jsstr :=
  match e with
  | NotConnected => lit "Database not connected"
  | UniqueViolation =>
      lit "duplicate key value violates unique constraint "
      ++ [34%N] ++ lit "users_email_key" ++ [34%N]
  end.

(** [SELECT * FROM users WHERE id = $1], for an id in the range of the
    column: a value out of that range, which the server refuses, is not
    among the failures of [Error]. *)
Definition selectById (db : t) (i : Z) : result Error (list Row) :=
  if pool db then Ok (List.filter (fun r => id r =? i) (users db))
  else Err NotConnected.

(** [SELECT * FROM users WHERE email = $1]: the comparison of two
    [VARCHAR] values is exact, letter case included. *)
Definition selectByEmail (db : t) (e : jsstr) : result Error (list Row) :=
  if pool db then Ok (List.filter (fun r => streq (email r) e) (users db))
  else Err NotConnected.

(** [INSERT INTO users (email, password_hash) VALUES ($1, $2) RETURNING ...]
    at time [now].  The sequence advances before the constraint is
    checked, so a refused insert uses up an id. *)
Definition insertUser (db : t) (e hash : jsstr) (now : Z)
    : result Error Row * t :=
  if pool db then
    let i := users_id_seq db + 1 in
    if existsb (fun r => streq (email r) e) (users db)
    then (Err UniqueViolation, mkDb (pool db) (users db) i)
    else
      let row := mkRow i e hash now now in
      (Ok row, mkDb (pool db) (users db ++ [row]) i)
  else (Err NotConnected, db).

(** [UPDATE users SET email = $1, updated_at = CURRENT_TIMESTAMP
     WHERE id = $2 RETURNING ...] at time [now]: the rows returned.  The
    constraint is checked only when a row is updated, against the other
    rows. *)
Definition updateEmail (db : t) (e : jsstr) (i : Z) (now : Z)
    : result Error (list Row) * t :=
  if pool db then
    match List.filter (fun r => id r =? i) (users db) with
    | [] => (Ok [], db)
    | _ :: _ =>
        if existsb (fun r => negb (id r =? i) && streq (email r) e) (users db)
        then (Err UniqueViolation, db)
        else
          let set r :=
            if id r =? i
            then mkRow (id r) e (password_hash r) (created_at r) now
            else r in
          (Ok (List.filter (fun r => id r =? i) (map set (users db))),
           mkDb (pool db) (map set (users db)) (users_id_seq db))
    end
  else (Err NotConnected, db).

(** [UPDATE users SET password_hash = $1, updated_at = CURRENT_TIMESTAMP
     WHERE id = $2 RETURNING updated_at] at time [now]. *)
Definition updatePasswordHash (db : t) (hash : jsstr) (i : Z) (now : Z)
    : result Error (list Row) * t :=
  if pool db then
    let set r :=
      if id r =? i
      then mkRow (id r) (email r) hash (created_at r) now
      else r in
    (Ok (List.filter (fun r => id r =? i) (map set (users db))),
     mkDb (pool db) (map set (users db)) (users_id_seq db))
  else (Err NotConnected, db).

(** [DELETE FROM users WHERE id = $1]: the [rowCount]. *)
Definition deleteById (db : t) (i : Z) : result Error Z * t :=
  if pool db then
    (Ok (Z.of_nat (length (List.filter (fun r => id r =? i) (users db)))),
     mkDb (pool db) (List.filter (fun r => negb (id r =? i)) (users db))
          (users_id_seq db))
  else (Err NotConnected, db).

End Db.

(* ===================================================================== *)
(** ** models/User.js *)
(* ===================================================================== *)

Module User.

(** An instance of [User]; [passwordHash] is [None] when the row it was
    built from carried no [password_hash]. *)
Record t : Type := mkUser {
  id : Z;
  email : jsstr;
  passwordHash : option jsstr;
  createdAt : Z;
  updatedAt : Z
}.

(** [new User(row)] for a full row. *)
Definition ofRow (r : Db.Row) : t :=
  mkUser (Db.id r) (Db.email r) (Some (Db.password_hash r))
         (Db.created_at r) (Db.updated_at r).

(** What [create] throws: an [Error] with a message, or the error of the
    store, passed on unchanged. *)
Inductive Thrown : Type :=
| Message (m : jsstr)
| Store (e : Db.Error).

(** The class [[^\s@]] of the e-mail pattern; 64 is the at sign. *)
Definition at_sign : N := 64%N.
Definition isAddrChar (c : N) : bool :=
  negb (isWhiteSpace c) && negb (c =? at_sign)%N.

(** [xs] has a dot with at least one code unit before and after it. *)
Definition hasInnerDot (xs : jsstr) : bool :=
  existsb (N.eqb dot) (removelast (tail xs)).

(** The part of [s] before its first at sign, and the part after it. *)
Fixpoint splitAtSign (s : jsstr) : option (jsstr * jsstr) :=
  match s with
  | [] => None
  | c :: s' =>
      if (c =? at_sign)%N then Some ([], s')
      else match splitAtSign s' with
           | Some (l, d) => Some (c :: l, d)
           | None => None
           end
  end.

(** [isValidEmail(email)]: [/^[^\s@]+@[^\s@]+\.[^\s@]+$/.test(email)] *)
Definition isValidEmail (e : jsstr) : bool :=
  match splitAtSign e with
  | Some (l, d) =>
      negb (streq l []) && forallb isAddrChar l
      && forallb isAddrChar d && hasInnerDot d
  | None => false
  end.

(** [isValidPassword(password)] on a non-empty string. *)
Definition isValidPassword (password : jsstr) : bool := 6 <=? len password.

Section WithPlatform.
(** [String.prototype.toLowerCase], and [bcrypt.hash(password, saltRounds)]
    with the salt the call draws. *)
Variable toLowerCase : jsstr -> jsstr.
Variable bcrypt_hash : jsstr -> Z -> jsstr.

(** [hashPassword(password)] *)
Definition hashPassword (password : jsstr) : jsstr := bcrypt_hash password 12.

(** [findById(id)] *)
Definition findById (db : Db.t) (i : Z) : result Db.Error (option t) :=
  if i =? 0 then Ok None
  else
    match Db.selectById db i with
    | Err e => Err e
    | Ok [] => Ok None
    | Ok (r :: _) => Ok (Some (ofRow r))
    end.

(** [findByEmail(email)] *)
Definition findByEmail (db : Db.t) (e : jsstr) : result Db.Error (option t) :=
  match e with
  | [] => Ok None
  | _ =>
      match Db.selectByEmail db (toLowerCase e) with
      | Err e => Err e
      | Ok [] => Ok None
      | Ok (r :: _) => Ok (Some (ofRow r))
      end
  end.

(** [create(userData)] at time [now]; an absent field of [userData] is
    [None].  Returns the new user, or what was thrown, and the store. *)
Definition create (userEmail password : option jsstr) (now : Z) (db : Db.t)
    : result Thrown t * Db.t :=
  match userEmail, password with
  | Some ((_ :: _) as e), Some ((_ :: _) as pw) =>
      if negb (isValidEmail e) then
        (Err (Message (lit "Invalid email format")), db)
      else if negb (isValidPassword pw) then
        (Err (Message (lit "Password must be at least 6 characters long")), db)
      else
        match findByEmail db e with
        | Err err => (Err (Store err), db)
        | Ok (Some _) =>
            (Err (Message (lit "User with this email already exists")), db)
        | Ok None =>
            match Db.insertUser db e (hashPassword pw) now with
            | (Err err, db') => (Err (Store err), db')
            | (Ok userRow, db') =>
                (Ok (mkUser (Db.id userRow) (Db.email userRow) None
                            (Db.created_at userRow) (Db.updated_at userRow)),
                 db')
            end
        end
  | _, _ => (Err (Message (lit "Email and password are required")), db)
  end.

(** [bcrypt.compare(password, hash)] *)
Variable bcrypt_compare : jsstr -> jsstr -> bool.

(** [user.verifyPassword(password)] *)
Definition verifyPassword (u : t) (password : option jsstr) : bool :=
  match password, passwordHash u with
  | Some ((_ :: _) as p), Some ((_ :: _) as h) => bcrypt_compare p h
  | _, _ => false
  end.

(** [user.update(updateData)] at time [now]; [newEmail] is
    [updateData.email], [None] when it is [undefined].  Returns the
    instance as the method leaves it. *)
Definition update (u : t) (newEmail : option jsstr) (now : Z) (db : Db.t)
    : result Thrown t * Db.t :=
  match newEmail with
  | None => (Err (Message (lit "No valid fields to update")), db)
  | Some e =>
      if negb (isValidEmail e) then
        (Err (Message (lit "Invalid email format")), db)
      else
        match Db.updateEmail db e (id u) now with
        | (Err err, db') => (Err (Store err), db')
        | (Ok [], db') => (Err (Message (lit "User not found")), db')
        | (Ok (updatedUser :: _), db') =>
            (Ok (mkUser (id u) (Db.email updatedUser) (passwordHash u)
                        (createdAt u) (Db.updated_at updatedUser)),
             db')
        end
  end.

(** [user.delete()] *)
Definition delete (u : t) (db : Db.t) : result Thrown bool * Db.t :=
  if id u =? 0 then (Err (Message (lit "Cannot delete user without ID")), db)
  else
    match Db.deleteById db (id u) with
    | (Err err, db') => (Err (Store err), db')
    | (Ok rowCount, db') =>
        if rowCount =? 0 then (Err (Message (lit "User not found")), db')
        else (Ok true, db')
    end.

(** [user.updatePassword(newPassword)] at time [now] *)
Definition updatePassword (u : t) (newPassword : option jsstr) (now : Z)
    (db : Db.t) : result Thrown t * Db.t :=
  match newPassword with
  | Some ((_ :: _) as pw) =>
      if negb (isValidPassword pw) then
        (Err (Message (lit "Password must be at least 6 characters long")), db)
      else
        let passwordHash := hashPassword pw in
        match Db.updatePasswordHash db passwordHash (id u) now with
        | (Err err, db') => (Err (Store err), db')
        | (Ok [], db') => (Err (Message (lit "User not found")), db')
        | (Ok (row :: _), db') =>
            (Ok (mkUser (id u) (email u) (Some passwordHash)
                        (createdAt u) (Db.updated_at row)),
             db')
        end
  | _ => (Err (Message (lit "Password must be at least 6 characters long")), db)
  end.

End WithPlatform.

(** [user.toPublicJSON()] *)
Record PublicJSON : Type := mkPublicJSON {
  publicId : Z;
  publicEmail : jsstr;
  publicCreatedAt : Z
}.

Definition toPublicJSON (u : t) : PublicJSON :=
  mkPublicJSON (id u) (email u) (createdAt u).

End User.

(* ===================================================================== *)
(** ** middleware/auth.js *)
(* ===================================================================== *)

Module Auth.

(** The body sent by [res.status(status).json({ success: false,
    error: { code, message } })]. *)
Record Response : Type := mkResponse {
  status : Z;
  code : ERROR_CODES;
  message : jsstr
}.

(** [req.token] as [authenticateToken] sets it; [userId], [email], [iat]
    and [exp] of the source are copies of fields of [decoded]. *)
Record TokenInfo : Type := mkTokenInfo {
  raw : jsstr;
  decoded : Decoded
}.

(** The parts of the request the gates read or write.  [None] is
    [undefined] or [null]. *)
Record Request : Type := mkRequest {
  authorization : option jsstr;      (* req.headers.authorization *)
  paramUserId : option jsstr;        (* req.params.userId *)
  paramId : option jsstr;            (* req.params.id *)
  bodyRefreshToken : option jsstr;   (* req.body.refreshToken *)
  user : option User.t;              (* req.user *)
  token : option TokenInfo;          (* req.token *)
  refreshToken : option TokenInfo    (* req.refreshToken *)
}.

(** A gate either answers the request or calls [next()] on the request
    as it has changed it. *)
Inductive Outcome : Type :=
| Respond (r : Response)
| Next (req : Request).

(** The calls a gate makes outside itself, in the order it makes them. *)
Inductive Event : Type :=
| Verify (token : jsstr)       (* JWTUtils.verifyToken(token) *)
| FindById (i : Z).            (* User.findById(i) *)

Definition setUserToken (req : Request) (u : option User.t)
    (t : option TokenInfo) : Request :=
  mkRequest (authorization req) (paramUserId req) (paramId req)
            (bodyRefreshToken req) u t (refreshToken req).

Definition setUserRefresh (req : Request) (u : option User.t)
    (t : option TokenInfo) : Request :=
  mkRequest (authorization req) (paramUserId req) (paramId req)
            (bodyRefreshToken req) u (token req) t.

(** The digit a code unit stands for, in a radix up to 36. *)
Definition digitValue (c : N) : option Z :=
  if isDigit c then Some (Z.of_N c - 48)
  else if isLower c then Some (Z.of_N c - 97 + 10)
  else if isUpper c then Some (Z.of_N c - 65 + 10)
  else None.

(** The value of the longest prefix of [s] made of digits of [radix];
    [acc] is the value read so far, [None] before the first digit. *)
Fixpoint parseDigits (radix : Z) (s : jsstr) (acc : option Z) : option Z :=
  match s with
  | c :: s' =>
      match digitValue c with
      | Some d =>
          if d <? radix
          then parseDigits radix s' (Some (default 0 acc * radix + d))
          else acc
      | None => acc
      end
  | [] => acc
  end.

(** [parseInt(s)] with no radix: [None] is [NaN].  The value is the exact
    integer; a number rounds it only from 2^53 up, where it stays at least
    2^53, so a comparison with an id below 2^53 has the same outcome. *)
Definition parseInt (s : jsstr) : option Z :=
  let s := trimStart s in
  let '(sign, s) :=
    match s with
    | c :: s' =>
        if (c =? 45)%N then (-1, s')
        else if (c =? 43)%N then (1, s')
        else (1, s)
    | [] => (1, [])
    end in
  let '(radix, s) :=
    match s with
    | z :: x :: s' =>
        if (z =? 48)%N && ((x =? 120) || (x =? 88))%N then (16, s')
        else (10, s)
    | _ => (10, s)
    end in
  match parseDigits radix s None with
  | Some v => Some (sign * v)
  | None => None
  end.

(** [parseInt(a || b)] on two path parameters; [parseInt(undefined)] reads
    the string ['undefined'], which starts with no digit. *)
Definition parseIntParam (a b : option jsstr) : option Z :=
  match a with
  | Some ((_ :: _) as s) => parseInt s
  | _ =>
      match b with
      | Some s => parseInt s
      | None => None
      end
  end.


(** [requireOwnership(req, res, next)] *)
Definition requireOwnership (req : Request) : Outcome :=
  match user req, token req with
  | Some u, Some _ =>
      let requestedUserId := parseIntParam (paramUserId req) (paramId req) in
      let authenticatedUserId := User.id u in
      if match requestedUserId with
         | Some v => negb (v =? authenticatedUserId)
         | None => true
         end
      then Respond (mkResponse HTTP_STATUS.FORBIDDEN AUTH_CREDENTIALS_INVALID
                      (lit "Access denied: insufficient permissions"))
      else Next req
  | _, _ =>
      Respond (mkResponse HTTP_STATUS.UNAUTHORIZED AUTH_TOKEN_MISSING
                 (lit "Authentication required"))
  end.

(** [requireAuth(req, res, next)] *)
Definition requireAuth (req : Request) : Outcome :=
  match user req, token req with
  | Some _, Some _ => Next req
  | _, _ =>
      Respond (mkResponse HTTP_STATUS.UNAUTHORIZED AUTH_TOKEN_MISSING
                 (lit "Authentication required"))
  end.

Section WithLibrary.
Context {lib : JsonWebToken}.
Variable env : Env.

(** The token of an [Authorization] header:
    [authHeader.startsWith('Bearer ') ? authHeader.slice(7) : authHeader] *)
Definition extractToken (authHeader : jsstr) : jsstr :=
  if startsWith authHeader (lit "Bearer ") then slice 7 authHeader
  else authHeader.

(** [authenticateToken(req, res, next)] at clock reading [now] (seconds),
    on store [db]: the calls it made and what it did.  A throw of
    [User.findById] is caught by the outer [catch]. *)
Definition authenticateToken (req : Request) (now : Z) (db : Db.t)
    : list Event * Outcome :=
  match authorization req with
  | None | Some [] =>
      ([], Respond (mkResponse HTTP_STATUS.UNAUTHORIZED AUTH_TOKEN_MISSING
                      (lit "Authorization header is required")))
  | Some authHeader =>
      let tok := extractToken authHeader in
      match tok with
      | [] =>
          ([], Respond (mkResponse HTTP_STATUS.UNAUTHORIZED AUTH_TOKEN_MISSING
                          (lit "Token is required")))
      | _ =>
          if negb (JWTUtils.isValidTokenFormat tok) then
            ([], Respond (mkResponse HTTP_STATUS.UNAUTHORIZED
                            AUTH_TOKEN_INVALID (lit "Invalid token format")))
          else
            match JWTUtils.verifyToken env tok JWTUtils.noOptions now with
            | Err error_message =>
                let isExpired := includes error_message (lit "expired") in
                ([Verify tok],
                 Respond (mkResponse HTTP_STATUS.UNAUTHORIZED
                            (if isExpired then AUTH_TOKEN_EXPIRED
                             else AUTH_TOKEN_INVALID)
                            error_message))
            | Ok dec =>
                if negb (streq (type dec) (lit "auth")) then
                  ([Verify tok],
                   Respond (mkResponse HTTP_STATUS.UNAUTHORIZED
                              AUTH_TOKEN_INVALID (lit "Invalid token type")))
                else
                  match User.findById db (userId dec) with
                  | Err _ =>
                      ([Verify tok; FindById (userId dec)],
                       Respond (mkResponse HTTP_STATUS.INTERNAL_SERVER_ERROR
                                  INTERNAL_ERROR (lit "Authentication failed")))
                  | Ok None =>
                      ([Verify tok; FindById (userId dec)],
                       Respond (mkResponse HTTP_STATUS.UNAUTHORIZED
                                  USER_NOT_FOUND (lit "User not found")))
                  | Ok (Some u) =>
                      ([Verify tok; FindById (userId dec)],
                       Next (setUserToken req (Some u)
                               (Some (mkTokenInfo tok dec))))
                  end
            end
      end
  end.

(** [optionalAuth(req, res, next)] *)
Definition optionalAuth (req : Request) (now : Z) (db : Db.t)
    : list Event * Outcome :=
  match authorization req with
  | None | Some [] => ([], Next (setUserToken req None None))
  | Some _ => authenticateToken req now db
  end.

(** [validateRefreshToken(req, res, next)] *)
Definition validateRefreshToken (req : Request) (now : Z) (db : Db.t)
    : list Event * Outcome :=
  match bodyRefreshToken req with
  | None | Some [] =>
      ([], Respond (mkResponse HTTP_STATUS.BAD_REQUEST AUTH_TOKEN_MISSING
                      (lit "Refresh token is required")))
  | Some tok =>
      match JWTUtils.verifyToken env tok JWTUtils.noOptions now with
      | Err _ =>
          ([Verify tok],
           Respond (mkResponse HTTP_STATUS.UNAUTHORIZED AUTH_TOKEN_INVALID
                      (lit "Invalid refresh token")))
      | Ok dec =>
          if negb (streq (type dec) (lit "refresh")) then
            ([Verify tok],
             Respond (mkResponse HTTP_STATUS.UNAUTHORIZED AUTH_TOKEN_INVALID
                        (lit "Invalid token type")))
          else
            match User.findById db (userId dec) with
            | Err _ =>
                ([Verify tok; FindById (userId dec)],
                 Respond (mkResponse HTTP_STATUS.INTERNAL_SERVER_ERROR
                            INTERNAL_ERROR (lit "Token validation failed")))
            | Ok None =>
                ([Verify tok; FindById (userId dec)],
                 Respond (mkResponse HTTP_STATUS.UNAUTHORIZED USER_NOT_FOUND
                            (lit "User not found")))
            | Ok (Some u) =>
                ([Verify tok; FindById (userId dec)],
                 Next (setUserRefresh req (Some u)
                         (Some (mkTokenInfo tok dec))))
            end
      end
  end.

(** [req.tokenUser] as [extractUserFromToken] sets it: [{ id, email, type }]. *)
Record TokenUserInfo : Type := mkTokenUserInfo {
  tokenUserId : Z;
  tokenUserEmail : jsstr;
  tokenUserType : jsstr
}.

(** [extractUserFromToken(req, res, next)] at clock reading [now]: the
    calls it made, and either its answer or, when it calls [next()], the
    [req.tokenUser] it set and the request with the [req.token] it set.
    The object of [getUserFromToken] stands for [req.token.decoded]. *)
Definition extractUserFromToken (req : Request) (now : Z)
    : list Event * result Response (TokenUserInfo * Request) :=
  match authorization req with
  | None | Some [] =>
      ([], Err (mkResponse HTTP_STATUS.UNAUTHORIZED AUTH_TOKEN_MISSING
                  (lit "Authorization header is required")))
  | Some authHeader =>
      let tok := extractToken authHeader in
      if match tok with
         | [] => true
         | _ => negb (JWTUtils.isValidTokenFormat tok)
         end
      then ([], Err (mkResponse HTTP_STATUS.UNAUTHORIZED AUTH_TOKEN_INVALID
                       (lit "Invalid token")))
      else
        match JWTUtils.getUserFromToken env tok now with
        | None =>
            ([Verify tok],
             Err (mkResponse HTTP_STATUS.UNAUTHORIZED AUTH_TOKEN_INVALID
                    (lit "Invalid or expired token")))
        | Some userInfo =>
            ([Verify tok],
             Ok (mkTokenUserInfo (userId userInfo) (email userInfo)
                   (type userInfo),
                 setUserToken req (user req)
                   (Some (mkTokenInfo tok userInfo))))
        end
  end.

End WithLibrary.

End Auth.

(* ===================================================================== *)
(** ** An implementation of the package's contract *)
(* ===================================================================== *)

(** An idealised token service that meets [JsonWebTokenSpec]: the payload
    is written out in the clear with the letters [0 1 e m p], and the
    signature segment is the secret written the same way.  It shows the
    contract can be met, and it is the package the closed examples below
    run on. *)
Module Ideal.

Definition c0 : N := 48%N.
Definition c1 : N := 49%N.
Definition ce : N := 101%N.
Definition cm : N := 109%N.
Definition cp : N := 112%N.

(** A positive number, least significant bit first, closed by [e]. *)
Fixpoint encPos (p : positive) : jsstr :=
  match p with
  | xH => [ce]
  | xO q => c0 :: encPos q
  | xI q => c1 :: encPos q
  end.

Fixpoint decPos (s : jsstr) : option (positive * jsstr) :=
  match s with
  | [] => None
  | c :: s' =>
      if (c =? ce)%N then Some (xH, s')
      else if (c =? c0)%N then
        match decPos s' with Some (q, r) => Some (xO q, r) | None => None end
      else if (c =? c1)%N then
        match decPos s' with Some (q, r) => Some (xI q, r) | None => None end
      else None
  end.

Definition encN (n : N) : jsstr := encPos (N.succ_pos n).
Definition decN (s : jsstr) : option (N * jsstr) :=
  match decPos s with
  | Some (p, r) => Some (Pos.pred_N p, r)
  | None => None
  end.

Definition encZ (z : Z) : jsstr :=
  if z <? 0 then cm :: encN (Z.to_N (- z)) else cp :: encN (Z.to_N z).
Definition decZ (s : jsstr) : option (Z * jsstr) :=
  match s with
  | c :: s' =>
      match decN s' with
      | Some (n, r) =>
          if (c =? cm)%N then Some (- Z.of_N n, r)
          else if (c =? cp)%N then Some (Z.of_N n, r)
          else None
      | None => None
      end
  | [] => None
  end.

(** A string: its length, then its code units. *)
Fixpoint encUnits (s : jsstr) : jsstr :=
  match s with
  | [] => []
  | c :: s' => encN c ++ encUnits s'
  end.
Definition encStr (s : jsstr) : jsstr :=
  encN (N.of_nat (length s)) ++ encUnits s.

Fixpoint decUnits (n : nat) (s : jsstr) : option (jsstr * jsstr) :=
  match n with
  | O => Some ([], s)
  | S n' =>
      match decN s with
      | Some (c, r) =>
          match decUnits n' r with
          | Some (cs, r') => Some (c :: cs, r')
          | None => None
          end
      | None => None
      end
  end.
Definition decStr (s : jsstr) : option (jsstr * jsstr) :=
  match decN s with
  | Some (n, r) => decUnits (N.to_nat n) r
  | None => None
  end.

Definition encPayload (d : Decoded) : jsstr :=
  encZ (userId d) ++ encStr (email d) ++ encStr (type d)
  ++ encZ (iat d) ++ encZ (exp d) ++ encStr (iss d) ++ encStr (aud d).

Definition decPayload (s : jsstr) : option (Decoded * jsstr) :=
  match decZ s with
  | Some (u, s) =>
  match decStr s with
  | Some (e, s) =>
  match decStr s with
  | Some (t, s) =>
  match decZ s with
  | Some (i, s) =>
  match decZ s with
  | Some (x, s) =>
  match decStr s with
  | Some (isr, s) =>
  match decStr s with
  | Some (a, s) => Some (mkDecoded (mkClaims u e t) i x isr a, s)
  | None => None end
  | None => None end
  | None => None end
  | None => None end
  | None => None end
  | None => None end
  | None => None end.

(** [header.payload.signature]; the header is the letter [J]. *)
Definition encode (d : Decoded) (secret : jsstr) : jsstr :=
  [74%N; dot] ++ encPayload d ++ [dot] ++ encStr secret.

(** The payload of a token and the secret it was signed with. *)
Definition parse (tok : jsstr) : option (Decoded * jsstr) :=
  if negb (countDots tok =? 2) then None
  else
    match tok with
    | h :: d1 :: s =>
        if (h =? 74)%N && (d1 =? dot)%N then
          match decPayload s with
          | Some (d, d2 :: s') =>
              if (d2 =? dot)%N then
                match decStr s' with
                | Some (sec, []) => Some (d, sec)
                | _ => None
                end
              else None
          | _ => None
          end
        else None
    | _ => None
    end.

Definition sign (c : Claims) (secret : jsstr) (o : SignOptions) (now : Z)
    : result JwtError jsstr :=
  match secret with
  | [] => Err (mkJwtError OtherError (lit "secretOrPrivateKey must have a value"))
  | _ => Ok (encode (signedPayload c o now) secret)
  end.

(** The checks of [verify] in the package's order: shape, signature,
    expiry, audience, issuer. *)
Definition verify (tok secret : jsstr) (vo : VerifyOptions) (now : Z)
    : result JwtError Decoded :=
  match parse tok with
  | None => Err (mkJwtError JsonWebTokenError (lit "jwt malformed"))
  | Some (d, sec) =>
      if negb (streq sec secret) then
        Err (mkJwtError JsonWebTokenError (lit "invalid signature"))
      else if exp d <=? now then
        Err (mkJwtError TokenExpiredError (lit "jwt expired"))
      else if negb (streq (aud d) (verifyAudience vo)) then
        Err (mkJwtError JsonWebTokenError (lit "jwt audience invalid"))
      else if negb (streq (iss d) (verifyIssuer vo)) then
        Err (mkJwtError JsonWebTokenError (lit "jwt issuer invalid"))
      else Ok d
  end.

Definition decode (tok : jsstr) : result JwtError (option Complete) :=
  match parse tok with
  | None => Ok None
  | Some (d, sec) => Ok (Some (mkComplete d (encStr sec)))
  end.

#[export] Instance lib : JsonWebToken := {
  jwt_sign := sign;
  jwt_verify := verify;
  jwt_decode := decode
}.

End Ideal.

(* ===================================================================== *)
(** ** The package on a payload that is not JSON *)
(* ===================================================================== *)

(** [verify] of the package hands on what its decoding step throws, and
    for a token of three segments whose header says [typ: JWT] and whose
    payload segment is not JSON that is the [SyntaxError] of [JSON.parse]:
    an error of none of the three classes of the package, with a message
    that quotes the text that did not parse.  [lib] is the idealised
    package with this answer for one such token. *)
Module Unparsed.

(** The header of an HS256 token with [typ: JWT], the payload [expired]
    and a signature, each in base64url. *)
Definition token : jsstr :=
  lit "eyJhbGciOiJIUzI1NiIsInR5cCI6IkpXVCJ9.ZXhwaXJlZA.c2ln".

(** The error for the payload [expired]; 34 is the double quote around
    the quoted text. *)
Definition syntaxError : JwtError :=
  mkJwtError OtherError
    (lit "Unexpected token 'e', " ++ [34%N] ++ lit "expired" ++ [34%N]
     ++ lit " is not valid JSON").

Definition verify (tok secret : jsstr) (vo : VerifyOptions) (now : Z)
    : result JwtError Decoded :=
  if streq tok token then Err syntaxError
  else Ideal.verify tok secret vo now.

Definition lib : JsonWebToken := {|
  jwt_sign := Ideal.sign;
  jwt_verify := verify;
  jwt_decode := Ideal.decode
|}.

End Unparsed.

(* ===================================================================== *)
(** ** utils/errors.js *)
(* ===================================================================== *)

Module Errors.

(** [errorCode]: a member of [ERROR_CODES], or the literal of
    [RateLimitError]. *)
Inductive Code : Type :=
| Known (c : ERROR_CODES)
| RATE_LIMIT_EXCEEDED.

(** An [AppError] or one of its subclasses, by the fields the handlers and
    the error middleware read; [fields] and [retryAfter] are empty and
    [None] where the class does not set them. *)
Record AppError : Type := mkAppError {
  message : jsstr;
  statusCode : Z;
  errorCode : Code;
  fields : list jsstr;
  retryAfter : option Z
}.

(** [fields.join(', ')] *)
Fixpoint join (sep : jsstr) (l : list jsstr) : jsstr :=
  match l with
  | [] => []
  | [x] => x
  | x :: l' => x ++ sep ++ join sep l'
  end.

(** The factory functions of [createError] that the routes of
    [routes/auth.js] call. *)
Definition authenticationFailed (m : jsstr) : AppError :=
  mkAppError m HTTP_STATUS.UNAUTHORIZED (Known AUTH_TOKEN_INVALID) [] None.

Definition validationFailed (m : jsstr) (fs : list jsstr) : AppError :=
  mkAppError m HTTP_STATUS.BAD_REQUEST (Known VALIDATION_ERROR) fs None.

Definition missingFields (fs : list jsstr) : AppError :=
  mkAppError (lit "Missing required fields: " ++ join (lit ", ") fs)
    HTTP_STATUS.BAD_REQUEST (Known MISSING_REQUIRED_FIELDS) fs None.

Definition invalidEmail (email : jsstr) : AppError :=
  mkAppError (lit "Invalid email format: " ++ email)
    HTTP_STATUS.BAD_REQUEST (Known USER_INVALID_EMAIL) [lit "email"] None.

Definition invalidPassword (m : jsstr) : AppError :=
  mkAppError m HTTP_STATUS.BAD_REQUEST (Known USER_INVALID_PASSWORD)
    [lit "password"] None.

Definition userAlreadyExists (email : jsstr) : AppError :=
  mkAppError (lit "User with email " ++ email ++ lit " already exists")
    HTTP_STATUS.CONFLICT (Known USER_ALREADY_EXISTS) [] None.

Definition rateLimitExceeded (m : jsstr) (retryAfter : Z) : AppError :=
  mkAppError m 429 RATE_LIMIT_EXCEEDED [] (Some retryAfter).

End Errors.

(* ===================================================================== *)
(** ** routes/auth.js: POST /api/auth/check-password-strength *)
(* ===================================================================== *)

Module AuthRoutes.

(** The [data] of the response. *)
Record StrengthData : Type := mkStrengthData {
  strength : SecurityUtils.Strength;
  score : Z;
  feedback : list jsstr;
  isAcceptable : bool
}.

(** The handler on a body whose [password] is a string, or that has no
    [password] ([None]): [createError.missingFields(['password'])] when the
    body has no password, the analysis otherwise; a score of 3 is the
    minimum acceptable one. *)
Definition checkPasswordStrength (password : option jsstr)
    : result ERROR_CODES StrengthData :=
  match password with
  | None | Some [] => Err MISSING_REQUIRED_FIELDS
  | Some _ =>
      let strengthResult := SecurityUtils.validatePasswordStrength password in
      Ok (mkStrengthData (SecurityUtils.strength strengthResult)
                         (SecurityUtils.score strengthResult)
                         (SecurityUtils.feedback strengthResult)
                         (3 <=? SecurityUtils.score strengthResult))
  end.

(** The handler on any [password] of the body.  Its guard is [!password]
    alone: a truthy value that is not a string goes on to
    [validatePasswordStrength], which sees no string. *)
Definition checkPasswordStrengthOf (password : value)
    : result ERROR_CODES StrengthData :=
  if negb (truthy password) then Err MISSING_REQUIRED_FIELDS
  else
    let strengthResult :=
      SecurityUtils.validatePasswordStrength (asString password) in
    Ok (mkStrengthData (SecurityUtils.strength strengthResult)
                       (SecurityUtils.score strengthResult)
                       (SecurityUtils.feedback strengthResult)
                       (3 <=? SecurityUtils.score strengthResult)).

(* --------------------------------------------------------------------- *)
(** ** routes/auth.js: register, login, refresh *)
(* --------------------------------------------------------------------- *)

(** What a handler throws: an [AppError], a plain [Error] with its
    message, or the error of the store.  It reaches the error middleware
    through [asyncHandler]. *)
Inductive Thrown : Type :=
| App (e : Errors.AppError)
| Plain (m : jsstr)
| Store (e : Db.Error).

(** [error.message] *)
Definition thrownMessage (t : Thrown) : jsstr :=
  match t with
  | App e => Errors.message e
  | Plain m => m
  | Store e => Db.message e
  end.

(** The [tokens] of a response. *)
Record Tokens : Type := mkTokens {
  accessToken : jsstr;
  refreshToken : jsstr;
  tokenType : jsstr;
  expiresIn : jsstr
}.

(** The [data] of the response of [register] (status 201), and of [login]
    without the time and fingerprint of the session. *)
Record RegisterData : Type := mkRegisterData {
  registeredUser : User.PublicJSON;
  registeredTokens : Tokens
}.

Record LoginData : Type := mkLoginData {
  loginUser : User.PublicJSON;
  loginTokens : Tokens;
  sessionRememberMe : bool
}.

(** The [data] of the response of [refresh]. *)
Record RefreshData : Type := mkRefreshData {
  newAccessToken : jsstr;
  refreshTokenType : jsstr;
  refreshExpiresIn : jsstr
}.

(** The [data] of the response of [validate]: [valid: true] with the
    [userId], the [email] and the [expiresAt] of the token, or
    [valid: false] with a [reason].  [expiresAt] is kept as the time value
    of the date, in milliseconds, not as its ISO text. *)
Inductive ValidateData : Type :=
| TokenValid (validUserId : Z) (validEmail : jsstr) (expiresAt : Z)
| TokenInvalid (reason : jsstr).

(** [new Date(exp * 1000).toISOString()] on the [exp] of a payload:
    the time value of the date, or the message of the [RangeError] that
    [toISOString] throws for a date without a time value: [exp] absent
    (0 in a payload), or beyond the 8.64e15 milliseconds of a [Date]. *)
Definition expiresAtOf (exp : Z) : result jsstr Z :=
  if (exp =? 0) || (8640000000000000 <? Z.abs (exp * 1000))
  then Err (lit "Invalid time value")
  else Ok (exp * 1000).

(** [confirmPassword && password !== confirmPassword] *)
Definition confirmationFails (password : jsstr) (confirmPassword : option jsstr)
    : bool :=
  match confirmPassword with
  | Some ((_ :: _) as cp) => negb (streq password cp)
  | _ => false
  end.

Section WithPlatform.
Context {lib : JsonWebToken}.
Variable env : Env.
Variable toLowerCase : jsstr -> jsstr.
Variable bcrypt_hash : jsstr -> Z -> jsstr.
Variable bcrypt_compare : jsstr -> jsstr -> bool.

(** [POST /api/auth/register] with the [email], [password] and
    [confirmPassword] of the body, at time [now] of the store and at second
    [nowSec]: the response data or what is thrown, and the store. *)
Definition register (email password confirmPassword : option jsstr)
    (now nowSec : Z) (db : Db.t) : result Thrown RegisterData * Db.t :=
  match email, password with
  | Some ((_ :: _) as e), Some ((_ :: _) as pw) =>
      if negb (User.isValidEmail e) then
        (Err (App (Errors.invalidEmail e)), db)
      else if negb (User.isValidPassword pw) then
        (Err (App (Errors.invalidPassword
                     (lit "Password must be at least 6 characters long"))),
         db)
      else if confirmationFails pw confirmPassword then
        (Err (App (Errors.validationFailed (lit "Passwords do not match")
                     [lit "confirmPassword"])),
         db)
      else
        let attempt :=
          match User.create toLowerCase bcrypt_hash
                  (Some (trim (toLowerCase e))) (Some pw) now db with
          | (Err (User.Message m), db') => (Err (Plain m), db')
          | (Err (User.Store err), db') => (Err (Store err), db')
          | (Ok user, db') =>
              match JWTUtils.generateTokenPair env
                      (Some (JWTUtils.mkTokenUser (User.id user)
                               (User.email user)))
                      nowSec with
              | Err m => (Err (Plain m), db')
              | Ok tokens =>
                  (Ok (mkRegisterData (User.toPublicJSON user)
                         (mkTokens (JWTUtils.accessToken tokens)
                            (JWTUtils.refreshToken tokens)
                            (lit "Bearer") (lit "24h"))),
                   db')
              end
          end in
        match attempt with
        | (Err error, db') =>
            if includes (thrownMessage error) (lit "already exists")
            then (Err (App (Errors.userAlreadyExists e)), db')
            else (Err error, db')
        | (Ok data, db') => (Ok data, db')
        end
  | _, _ =>
      (Err (App (Errors.missingFields [lit "email"; lit "password"])), db)
  end.

(** [POST /api/auth/login] from the address [clientIP], at clock reading
    [now] (milliseconds) of the rate limiter and at second [nowSec]: the
    response data or what is thrown, and the store of the rate limiter.
    The options the handler passes to the two token generators are not
    parameters of them. *)
Definition login (email password : option jsstr) (rememberMe : bool)
    (clientIP : jsstr) (now nowSec : Z)
    (store : SecurityUtils.RateLimitStore) (db : Db.t)
    : result Thrown LoginData * SecurityUtils.RateLimitStore :=
  match email, password with
  | Some ((_ :: _) as e), Some ((_ :: _) as pw) =>
      if negb (User.isValidEmail e) then
        (Err (App (Errors.invalidEmail e)), store)
      else
        let normalizedEmail := trim (toLowerCase e) in
        let key := lit "login:" ++ clientIP in
        let rateLimit :=
          SecurityUtils.checkRateLimit key 5 (15 * 60 * 1000) now store in
        if negb (SecurityUtils.allowed rateLimit.1) then
          (Err (App (Errors.rateLimitExceeded
                       (lit "Too many login attempts. Please try again later.")
                       (SecurityUtils.retryAfter rateLimit.1))),
           rateLimit.2)
        else
          let attempt :=
            match User.findByEmail toLowerCase db normalizedEmail with
            | Err err => (Err (Store err), rateLimit.2)
            | Ok None =>
                (Err (App (Errors.authenticationFailed
                             (lit "Invalid email or password"))),
                 rateLimit.2)
            | Ok (Some user) =>
                if negb (User.verifyPassword bcrypt_compare user (Some pw))
                then
                  (Err (App (Errors.authenticationFailed
                               (lit "Invalid email or password"))),
                   rateLimit.2)
                else
                  let store' :=
                    SecurityUtils.resetRateLimit key rateLimit.2 in
                  let tokenUser :=
                    JWTUtils.mkTokenUser (User.id user) (User.email user) in
                  match JWTUtils.generateAuthToken env (Some tokenUser)
                          nowSec with
                  | Err m => (Err (Plain m), store')
                  | Ok access =>
                      match JWTUtils.generateRefreshToken env (Some tokenUser)
                              nowSec with
                      | Err m => (Err (Plain m), store')
                      | Ok refresh =>
                          (Ok (mkLoginData (User.toPublicJSON user)
                                 (mkTokens access refresh (lit "Bearer")
                                    (if rememberMe then lit "30d"
                                     else lit "24h"))
                                 rememberMe),
                           store')
                      end
                  end
            end in
          match attempt with
          | (Err error, store') =>
              if includes (thrownMessage error) (lit "not found")
              then (Err (App (Errors.authenticationFailed
                                (lit "Invalid email or password"))),
                    store')
              else (Err error, store')
          | (Ok data, store') => (Ok data, store')
          end
  | _, _ =>
      (Err (App (Errors.missingFields [lit "email"; lit "password"])), store)
  end.

(** [POST /api/auth/refresh] with the [refreshToken] of the body;
    [refreshAccessToken] reads the clock at second [now], and
    [getUserFromToken], called after it for the log line, at second
    [now'].  Reading [userId] of the [null] that [getUserFromToken]
    returns for a token it does not verify is a [TypeError]. *)
Definition refresh (bodyRefreshToken : option jsstr) (now now' : Z)
    : result Thrown RefreshData :=
  match bodyRefreshToken with
  | None | Some [] =>
      Err (App (Errors.missingFields [lit "refreshToken"]))
  | Some tok =>
      let attempt :=
        match JWTUtils.refreshAccessToken env tok now with
        | Err m => Err (Plain m)
        | Ok access =>
            match JWTUtils.getUserFromToken env tok now' with
            | None =>
                Err (Plain (lit "Cannot read properties of null (reading 'userId')"))
            | Some _ => Ok (mkRefreshData access (lit "Bearer") (lit "24h"))
            end
        end in
      match attempt with
      | Err error =>
          if includes (thrownMessage error) (lit "refresh")
          then Err (App (Errors.authenticationFailed
                           (lit "Invalid refresh token")))
          else Err error
      | Ok data => Ok data
      end
  end.

(** [POST /api/auth/validate] with the [token] of the body, at second
    [now]: whatever is thrown inside the [try] becomes the [reason] of a
    response with [valid: false]. *)
Definition validate (bodyToken : option jsstr) (now : Z) (db : Db.t)
    : result Thrown ValidateData :=
  match bodyToken with
  | None | Some [] => Err (App (Errors.missingFields [lit "token"]))
  | Some tok =>
      let attempt :=
        match JWTUtils.getUserFromToken env tok now with
        | None => Err (App (Errors.authenticationFailed (lit "Invalid token")))
        | Some userInfo =>
            match User.findById db (userId userInfo) with
            | Err e => Err (Store e)
            | Ok None =>
                Err (App (Errors.authenticationFailed
                            (lit "User no longer exists")))
            | Ok (Some _) =>
                match expiresAtOf (exp userInfo) with
                | Err m => Err (Plain m)
                | Ok expiresAt =>
                    Ok (TokenValid (userId userInfo) (email userInfo)
                          expiresAt)
                end
            end
        end in
      match attempt with
      | Ok data => Ok data
      | Err error => Ok (TokenInvalid (thrownMessage error))
      end
  end.

End WithPlatform.

End AuthRoutes.

(* ===================================================================== *)
(** ** The password-strength evaluator in the words of the specification *)
(* ===================================================================== *)

(** Section 4.4 of the specification, read on its own: what a password
    contains is said as a property of the string, and the score is the sum
    of the points of the properties that hold. *)
Module StrengthSpec.

Definition containsLowercase (p : jsstr) : Prop :=
  exists c, In c p /\ (97 <= c <= 122)%N.
Definition containsUppercase (p : jsstr) : Prop :=
  exists c, In c p /\ (65 <= c <= 90)%N.
Definition containsDigit (p : jsstr) : Prop :=
  exists c, In c p /\ (48 <= c <= 57)%N.

(** The fixed punctuation set. *)
Definition punctuation : jsstr :=
  lit "!@#$%^&*(),.?" ++ [34%N] ++ lit ":{}|<>".
Definition containsSymbol (p : jsstr) : Prop :=
  exists c, In c p /\ In c punctuation.

(** Three or more identical characters in a row. *)
Definition threeInARow (p : jsstr) : Prop :=
  exists pre c post, p = pre ++ c :: c :: c :: post.

(** The same, of a character that is not a line terminator. *)
Definition threeInARowOnLine (p : jsstr) : Prop :=
  exists pre c post,
    p = pre ++ c :: c :: c :: post /\ isLineTerminator c = false.

(** One of the common sequences occurs in [p], letter case ignored. *)
Definition commonSequences : list jsstr := [lit "123"; lit "abc"; lit "qwe"].
Definition containsCommonSequence (p : jsstr) : Prop :=
  exists pre m post w,
    p = pre ++ m ++ post /\ In w commonSequences /\ JS.toLowerCase m = w.

(** [z] is the point for [P]: 1 when [P] holds, 0 when it does not. *)
Definition point (P : Prop) (z : Z) : Prop := (P /\ z = 1) \/ (~ P /\ z = 0).

(** The score of [p], additive and clamped at 0; [repeated] is the reading
    of the repetition rule. *)
Definition scoreOf (repeated : jsstr -> Prop) (p : jsstr) (s : Z) : Prop :=
  exists l8 l12 lo up di sy re se,
    point (8 <= len p) l8 /\ point (12 <= len p) l12
    /\ point (containsLowercase p) lo /\ point (containsUppercase p) up
    /\ point (containsDigit p) di /\ point (containsSymbol p) sy
    /\ point (repeated p) re /\ point (containsCommonSequence p) se
    /\ s = Z.max 0 (l8 + l12 + lo + up + di + sy - re - se).

(** Strength bucketing. *)
Definition strengthOf (s : Z) : SecurityUtils.Strength :=
  if decide (s <= 2) then SecurityUtils.weak
  else if decide (s <= 4) then SecurityUtils.medium
  else if decide (s <= 5) then SecurityUtils.strong
  else SecurityUtils.very_strong.

End StrengthSpec.

(* ===================================================================== *)
(** ** The invariant of the credential store *)
(* ===================================================================== *)

Module StoreInvariant.

(** Every stored address is in lower case. *)
Definition normalizedStore (toLowerCase : jsstr -> jsstr) (db : Db.t) : Prop :=
  Forall (fun r => toLowerCase (Db.email r) = Db.email r) (Db.users db).

(** At most one record per normalized address. *)
Definition onePerNormalizedEmail (toLowerCase : jsstr -> jsstr) (db : Db.t)
    : Prop :=
  NoDup (map (fun r => toLowerCase (Db.email r)) (Db.users db)).

(** The ids of the table: given out by the sequence, each once. *)
Definition wellFormed (db : Db.t) : Prop :=
  0 <= Db.users_id_seq db
  /\ Forall (fun r => 1 <= Db.id r <= Db.users_id_seq db) (Db.users db)
  /\ NoDup (map Db.id (Db.users db)).

End StoreInvariant.

(* ===================================================================== *)
(** ** The e-mail pattern, read as a regular expression *)
(* ===================================================================== *)

Module EmailPattern.

(** A code unit of the class [[^\s@]]. *)
Definition addrChar (c : N) : Prop :=
  isWhiteSpace c = false /\ c <> User.at_sign.

(** [e] is matched from its start to its end by a non-empty run of the
    class, an at sign, a non-empty run, a dot, and a non-empty run. *)
Definition matched (e : jsstr) : Prop :=
  exists l x y,
    e = l ++ [User.at_sign] ++ x ++ [dot] ++ y
    /\ l <> [] /\ x <> [] /\ y <> []
    /\ Forall addrChar l /\ Forall addrChar x /\ Forall addrChar y.

End EmailPattern.

(* ===================================================================== *)
(** ** Path parameters that are numbers, and that begin with one *)
(* ===================================================================== *)

Module PathParameter.






End PathParameter.

(* ===================================================================== *)
(** ** Devices of the proofs *)
(* ===================================================================== *)

(** A boolean as a point. *)
Definition b2z (b : bool) : Z := if b then 1 else 0.

(** The letters of the encoding: no dot, no white space. *)
Definition plain (s : jsstr) : Prop :=
  countDots s = 0 /\ existsb isWhiteSpace s = false.

(** Successive calls of [checkRateLimit] for one key, one at each clock
    reading of [nows]: the results in order, and the store after the last
    call. *)
Fixpoint checkRateLimitEach (key : jsstr) (maxAttempts windowMs : Z)
    (nows : list Z) (store : SecurityUtils.RateLimitStore)
    : list SecurityUtils.RateLimitResult * SecurityUtils.RateLimitStore :=
  match nows with
  | [] => ([], store)
  | now :: rest =>
      let r := SecurityUtils.checkRateLimit key maxAttempts windowMs now store in
      let rs := checkRateLimitEach key maxAttempts windowMs rest r.2 in
      (r.1 :: rs.1, rs.2)
  end.

(** A use of the rate limiter: one of its three methods, with the clock
    reading of the call where the method reads the clock. *)
Inductive LimiterCall : Type :=
| CheckRateLimit (key : jsstr) (maxAttempts windowMs now : Z)
| ResetRateLimit (key : jsstr)
| CleanupRateLimit (now : Z).

(** Calls made in order: what each [checkRateLimit] among them returned,
    and the store after the last call. *)
Fixpoint limiterCalls (calls : list LimiterCall)
    (store : SecurityUtils.RateLimitStore)
    : list SecurityUtils.RateLimitResult * SecurityUtils.RateLimitStore :=
  match calls with
  | [] => ([], store)
  | CheckRateLimit key maxAttempts windowMs now :: rest =>
      let r := SecurityUtils.checkRateLimit key maxAttempts windowMs now store in
      let rs := limiterCalls rest r.2 in
      (r.1 :: rs.1, rs.2)
  | ResetRateLimit key :: rest =>
      limiterCalls rest (SecurityUtils.resetRateLimit key store)
  | CleanupRateLimit now :: rest =>
      limiterCalls rest (SecurityUtils.cleanupRateLimit now store)
  end.

(** A call made at [start] or later that, when it is a check, allows at
    least one attempt. *)
Definition laterCall (start : Z) (c : LimiterCall) : Prop :=
  match c with
  | CheckRateLimit _ maxAttempts _ now => 0 < maxAttempts /\ start <= now
  | ResetRateLimit _ => True
  | CleanupRateLimit now => start <= now
  end.

(** [cleaned] is [store] without some records whose window had passed at
    [start]. *)
Definition withoutExpired (start : Z)
    (store cleaned : SecurityUtils.RateLimitStore) : Prop :=
  forall k : jsstr,
    cleaned !! k = store !! k
    \/ (cleaned !! k = None
        /\ exists r, store !! k = Some r /\ SecurityUtils.resetTime r < start).


(** The credentials open no account of the store: no user has the
    address as the login handler normalizes it, or the password is not
    verified for the user that has it. *)
Definition wrongCredentials (toLowerCase : jsstr -> jsstr)
    (bcrypt_compare : jsstr -> jsstr -> bool) (db : Db.t) (e pw : jsstr)
    : Prop :=
  User.findByEmail toLowerCase db (trim (toLowerCase e)) = Ok None
  \/ exists u,
       User.findByEmail toLowerCase db (trim (toLowerCase e)) = Ok (Some u)
       /\ User.verifyPassword bcrypt_compare u (Some pw) = false.

(** Successive logins from one address, one for each triple of an e-mail
    address, a password and a clock reading of the rate limiter: what the
    handler returned or threw, in order, and the store of the rate limiter
    after the last. *)
Fixpoint loginEach {lib : JsonWebToken} (env : Env)
    (toLowerCase : jsstr -> jsstr) (bcrypt_compare : jsstr -> jsstr -> bool)
    (clientIP : jsstr) (nowSec : Z) (db : Db.t)
    (attempts : list (jsstr * jsstr * Z))
    (store : SecurityUtils.RateLimitStore)
    : list (result AuthRoutes.Thrown AuthRoutes.LoginData)
      * SecurityUtils.RateLimitStore :=
  match attempts with
  | [] => ([], store)
  | (e, pw, now) :: rest =>
      let r :=
        AuthRoutes.login env toLowerCase bcrypt_compare (Some e) (Some pw)
          false clientIP now nowSec store db in
      let rs :=
        loginEach env toLowerCase bcrypt_compare clientIP nowSec db rest r.2 in
      (r.1 :: rs.1, rs.2)
  end.

(* ===================================================================== *)
(** ** Concrete inputs of the examples *)
(* ===================================================================== *)

(** The rate-limit key of a login from 10.0.0.7. *)
Definition loginKey : jsstr := lit "login:10.0.0.7".

(** The key of a login from 10.0.0.8, and a store in which the first key
    has used up its five attempts in a window that ends at 900000 ms. *)
Definition otherLoginKey : jsstr := lit "login:10.0.0.8".
Definition lockedStore : SecurityUtils.RateLimitStore :=
  <[loginKey := SecurityUtils.mkRate 5 900000]> ∅.

(** Uses of the limiter after 1000000 ms: two logins from the first
    address around one from the second and a cleanup. *)
Definition laterCalls : list LimiterCall :=
  [CheckRateLimit loginKey 5 900000 1000001;
   CheckRateLimit otherLoginKey 5 900000 1000002;
   CleanupRateLimit 1000003;
   CheckRateLimit loginKey 5 900000 1000004].

(** A check that allows no attempt, at 3000 ms, followed by an ordinary
    one, and a store whose record expired at 2000 ms. *)
Definition zeroMaxCalls : list LimiterCall :=
  [CheckRateLimit loginKey 0 1000 3000; CheckRateLimit loginKey 5 1000 3500].
Definition expiredStore : SecurityUtils.RateLimitStore :=
  <[loginKey := SecurityUtils.mkRate 5 2000]> ∅.

(** The password [Aa1!Aa1!Aa1!] followed by three line feeds. *)
Definition threeLineFeeds : jsstr := lit "Aa1!Aa1!Aa1!" ++ [10; 10; 10]%N.

(** A configuration with the default secret and time to live, and the
    payload of an access token for user 7. *)
Definition defaultEnv : Env := mkEnv None None.
Definition aliceClaims : Claims := mkClaims 7 (lit "alice@example.com") (lit "auth").

(** Alice's payload as signed at second 1000 for an hour, and a token that
    carries it under a secret that is not the server's. *)
Definition alicePayload : Decoded :=
  signedPayload aliceClaims
    (mkSignOptions 3600 JWTUtils.ISSUER JWTUtils.AUDIENCE) 1000.
Definition forgedToken : jsstr := Ideal.encode alicePayload (lit "not-the-secret").

(** A store with no user, connected; the refresh and access tokens the
    idealised package issues to Alice at second 1000; a request. *)
Definition emptyDb : Db.t := Db.mkDb true [] 0.
Definition aliceRefreshToken : jsstr :=
  Ideal.encode
    (signedPayload (mkClaims 7 (lit "alice@example.com") (lit "refresh"))
       (mkSignOptions 604800 JWTUtils.ISSUER JWTUtils.AUDIENCE) 1000)
    (lit "demo-jwt-secret-key").
Definition aliceAccessToken : jsstr :=
  Ideal.encode
    (signedPayload aliceClaims
       (mkSignOptions 86400 JWTUtils.ISSUER JWTUtils.AUDIENCE) 1000)
    (lit "demo-jwt-secret-key").
Definition request (header body : option jsstr) : Auth.Request :=
  Auth.mkRequest header None None body None None None.

(** A store in which Alice is user 7, and a request for the path
    parameter [:userId] under an [Authorization] header. *)
Definition aliceDb : Db.t :=
  Db.mkDb true
    [Db.mkRow 7 (lit "alice@example.com") (lit "$2b$secret1") 100 100] 7.
Definition requestFor (header userIdParam : jsstr) : Auth.Request :=
  Auth.mkRequest (Some header) (Some userIdParam) None None None None None.


(** A stand-in for the password hash in the closed examples. *)
Definition exampleHash (password : jsstr) (saltRounds : Z) : jsstr :=
  lit "$2b$" ++ password.

(** The comparison that goes with it. *)
Definition exampleCompare (password hash : jsstr) : bool :=
  streq hash (lit "$2b$" ++ password).

(* ===================================================================== *)
(** * Properties *)
(* ===================================================================== *)

(** ** Strings *)

Lemma streq_refl (a : jsstr) : streq a a = true.
Proof.
  induction a as [|x a IH]; simpl; [reflexivity|].
  rewrite N.eqb_refl. exact IH.
Qed.

Lemma streq_eq (a b : jsstr) : streq a b = true <-> a = b.
Proof.
  split.
  - revert b. induction a as [|x a IH]; intros [|y b] H; simpl in H;
      try discriminate; [reflexivity|].
    apply andb_prop in H as [Hx Hab].
    apply N.eqb_eq in Hx. subst y. f_equal. apply IH, Hab.
  - intros ->. apply streq_refl.
Qed.

Lemma streq_neq (a b : jsstr) : streq a b = false <-> a <> b.
Proof.
  rewrite <- streq_eq. destruct (streq a b); split; congruence.
Qed.

Lemma countDots_app (a b : jsstr) : countDots (a ++ b) = countDots a + countDots b.
Proof.
  induction a as [|x a IH]; simpl; [reflexivity|]. rewrite IH. lia.
Qed.

Lemma existsb_app_false {A} (f : A -> bool) (a b : list A) :
  existsb f a = false -> existsb f b = false -> existsb f (a ++ b) = false.
Proof. intros Ha Hb. rewrite existsb_app, Ha, Hb. reflexivity. Qed.

(** ** The rate limiter *)

Section RateLimiter.
Import SecurityUtils.

Variable key : jsstr.
Variable maxAttempts windowMs : Z.

(** The first call for a key with no record opens the window at the call's
    own time and counts as attempt 1. *)
Lemma checkRateLimit_fresh (now : Z) (store : RateLimitStore) :
  store !! key = None ->
  0 < maxAttempts ->
  checkRateLimit key maxAttempts windowMs now store =
    (mkRateResult true (maxAttempts - 1) (now + windowMs) 0,
     <[key := mkRate 1 (now + windowMs)]> store).
Proof.
  intros Hnone Hmax. unfold checkRateLimit. rewrite Hnone. simpl.
  rewrite Z.gtb_ltb.
  destruct (now + windowMs <? now); simpl; rewrite Z.geb_leb;
    (destruct (maxAttempts <=? 0) eqn:E; [apply Z.leb_le in E; lia|]);
    reflexivity.
Qed.

(** Inside the window, below the limit: allowed, and counted. *)
Lemma checkRateLimit_counted (now a rt : Z) (store : RateLimitStore) :
  store !! key = Some (mkRate a rt) ->
  now <= rt ->
  a < maxAttempts ->
  checkRateLimit key maxAttempts windowMs now store =
    (mkRateResult true (maxAttempts - (a + 1)) rt 0,
     <[key := mkRate (a + 1) rt]> store).
Proof.
  intros Hsome Hnow Ha. unfold checkRateLimit. rewrite Hsome. simpl.
  rewrite Z.gtb_ltb.
  destruct (rt <? now) eqn:E1; [apply Z.ltb_lt in E1; lia|]. simpl.
  rewrite Z.geb_leb.
  destruct (maxAttempts <=? a) eqn:E2; [apply Z.leb_le in E2; lia|].
  reflexivity.
Qed.

(** Inside the window, at the limit: denied, the record unchanged. *)
Lemma checkRateLimit_denied (now a rt : Z) (store : RateLimitStore) :
  store !! key = Some (mkRate a rt) ->
  now <= rt ->
  maxAttempts <= a ->
  checkRateLimit key maxAttempts windowMs now store =
    (mkRateResult false 0 rt (ceil_div_1000 (rt - now)), store).
Proof.
  intros Hsome Hnow Ha. unfold checkRateLimit. rewrite Hsome. simpl.
  rewrite Z.gtb_ltb.
  destruct (rt <? now) eqn:E1; [apply Z.ltb_lt in E1; lia|]. simpl.
  rewrite Z.geb_leb.
  destruct (maxAttempts <=? a) eqn:E2; [|apply Z.leb_gt in E2; lia].
  f_equal. apply insert_id, Hsome.
Qed.

(** A call for one key leaves the records of the other keys alone. *)
Lemma checkRateLimit_other_key (key' : jsstr) (now : Z) (store : RateLimitStore) :
  key <> key' ->
  (checkRateLimit key maxAttempts windowMs now store).2 !! key' = store !! key'.
Proof.
  intros Hne. unfold checkRateLimit.
  repeat match goal with
         | |- context [if ?b then _ else _] => destruct b
         | |- context [match ?o with Some _ => _ | None => _ end] => destruct o
         end; simpl; rewrite ?lookup_insert_ne by done; reflexivity.
Qed.

End RateLimiter.

Lemma ceil_div_1000_pos (x : Z) : 0 < x -> 0 < ceil_div_1000 x.
Proof.
  intros Hx. unfold ceil_div_1000.
  assert (H : (- x) / 1000 < 0) by (apply Z.div_lt_upper_bound; lia).
  lia.
Qed.

(** Resetting a key that has no record changes nothing. *)
Lemma resetRateLimit_absent (key : jsstr) (store : SecurityUtils.RateLimitStore) :
  store !! key = None -> SecurityUtils.resetRateLimit key store = store.
Proof. intros H. unfold SecurityUtils.resetRateLimit. apply delete_id, H. Qed.

(** C3.  Rate-limiter counting and tie-break.  For a key with no record and
    [maxAttempts = 5]: five calls, the later ones before the window opened
    by the first has elapsed, are each allowed, with [remaining] 4, 3, 2, 1
    and 0; a sixth call inside the window is denied with [retryAfter > 0];
    after [resetRateLimit] the next call, at any time and with any window,
    is allowed with [remaining = 4]. *)
Theorem C3_rate_limit_five_allowed_sixth_denied :
  forall (key : jsstr) (windowMs : Z) (store : SecurityUtils.RateLimitStore)
         (t1 t2 t3 t4 t5 t6 t7 windowMs' : Z),
    store !! key = None ->
    t2 < t1 + windowMs -> t3 < t1 + windowMs -> t4 < t1 + windowMs ->
    t5 < t1 + windowMs -> t6 < t1 + windowMs ->
    let '(r1, s1) := SecurityUtils.checkRateLimit key 5 windowMs t1 store in
    let '(r2, s2) := SecurityUtils.checkRateLimit key 5 windowMs t2 s1 in
    let '(r3, s3) := SecurityUtils.checkRateLimit key 5 windowMs t3 s2 in
    let '(r4, s4) := SecurityUtils.checkRateLimit key 5 windowMs t4 s3 in
    let '(r5, s5) := SecurityUtils.checkRateLimit key 5 windowMs t5 s4 in
    let '(r6, s6) := SecurityUtils.checkRateLimit key 5 windowMs t6 s5 in
    let '(r7, _) :=
      SecurityUtils.checkRateLimit key 5 windowMs' t7
        (SecurityUtils.resetRateLimit key s6) in
    map (fun r => (SecurityUtils.allowed r, SecurityUtils.remaining r))
        [r1; r2; r3; r4; r5]
      = [(true, 4); (true, 3); (true, 2); (true, 1); (true, 0)]
    /\ SecurityUtils.allowed r6 = false
    /\ 0 < SecurityUtils.retryAfter r6
    /\ SecurityUtils.allowed r7 = true
    /\ SecurityUtils.remaining r7 = 4.
Proof.
  intros key windowMs store t1 t2 t3 t4 t5 t6 t7 windowMs'
         Hfresh H2 H3 H4 H5 H6.
  rewrite (checkRateLimit_fresh key 5 windowMs t1 store Hfresh) by lia.
  rewrite (checkRateLimit_counted key 5 windowMs t2 1 (t1 + windowMs))
    by (try apply lookup_insert_eq; lia).
  rewrite (checkRateLimit_counted key 5 windowMs t3 2 (t1 + windowMs))
    by (try apply lookup_insert_eq; lia).
  rewrite (checkRateLimit_counted key 5 windowMs t4 3 (t1 + windowMs))
    by (try apply lookup_insert_eq; lia).
  rewrite (checkRateLimit_counted key 5 windowMs t5 4 (t1 + windowMs))
    by (try apply lookup_insert_eq; lia).
  rewrite (checkRateLimit_denied key 5 windowMs t6 5 (t1 + windowMs))
    by (try apply lookup_insert_eq; lia).
  rewrite (checkRateLimit_fresh key 5 windowMs' t7)
    by (try apply lookup_delete_eq; lia).
  simpl. repeat split; try reflexivity.
  apply ceil_div_1000_pos. lia.
Qed.

(** The property at a concrete run: the key of a login from 10.0.0.7, the
    fifteen-minute window of the login route, one call a second. *)
Lemma C3_witness :
  let '(r1, s1) := SecurityUtils.checkRateLimit loginKey 5 900000 0 ∅ in
  let '(r2, s2) := SecurityUtils.checkRateLimit loginKey 5 900000 1000 s1 in
  let '(r3, s3) := SecurityUtils.checkRateLimit loginKey 5 900000 2000 s2 in
  let '(r4, s4) := SecurityUtils.checkRateLimit loginKey 5 900000 3000 s3 in
  let '(r5, s5) := SecurityUtils.checkRateLimit loginKey 5 900000 4000 s4 in
  let '(r6, s6) := SecurityUtils.checkRateLimit loginKey 5 900000 5000 s5 in
  let '(r7, _) :=
    SecurityUtils.checkRateLimit loginKey 5 900000 6000
      (SecurityUtils.resetRateLimit loginKey s6) in
  map (fun r => (SecurityUtils.allowed r, SecurityUtils.remaining r))
      [r1; r2; r3; r4; r5]
    = [(true, 4); (true, 3); (true, 2); (true, 1); (true, 0)]
  /\ SecurityUtils.allowed r6 = false
  /\ 0 < SecurityUtils.retryAfter r6
  /\ SecurityUtils.allowed r7 = true
  /\ SecurityUtils.remaining r7 = 4.
Proof.
  apply (C3_rate_limit_five_allowed_sixth_denied
           loginKey 900000 ∅ 0 1000 2000 3000 4000 5000 6000
           900000).
  - apply lookup_empty.
  - lia.
  - lia.
  - lia.
  - lia.
  - lia.
Defined.

(** ** Password strength *)

Section Strength.
Import SecurityUtils StrengthSpec.

Lemma point_of_bool (P : Prop) (b : bool) :
  (b = true <-> P) -> point P (if b then 1 else 0).
Proof.
  intros H. destruct b; [left | right]; split; try reflexivity.
  - apply H. reflexivity.
  - intros HP. apply H in HP. discriminate.
Qed.

(** A point is determined by its property. *)
Lemma point_unique (P : Prop) (z z' : Z) : point P z -> point P z' -> z = z'.
Proof. intros [[? ->]|[? ->]] [[? ->]|[? ->]]; tauto. Qed.

Lemma point_range (P : Prop) (z : Z) : point P z -> 0 <= z <= 1.
Proof. intros [[_ ->]|[_ ->]]; lia. Qed.

Lemma some_char_range (lo hi : N) (p : jsstr) :
  some_char (fun c => (lo <=? c) && (c <=? hi))%N p = true
  <-> exists c, In c p /\ (lo <= c <= hi)%N.
Proof.
  unfold some_char. rewrite existsb_exists.
  split; intros (c & Hin & Hc); exists c; split; try assumption.
  - apply andb_prop in Hc as [H1 H2].
    apply N.leb_le in H1. apply N.leb_le in H2. lia.
  - apply andb_true_intro. split; apply N.leb_le; lia.
Qed.

Lemma some_char_special (p : jsstr) :
  some_char isSpecial p = true <-> containsSymbol p.
Proof.
  unfold some_char, containsSymbol, isSpecial. rewrite existsb_exists.
  split; intros (c & Hin & Hc); exists c; split; try assumption.
  - apply existsb_exists in Hc as (x & Hx & Hcx).
    apply N.eqb_eq in Hcx. subst x. exact Hx.
  - apply existsb_exists. exists c. split; [exact Hc | apply N.eqb_refl].
Qed.

(** The repetition pattern finds exactly the runs of three of a character
    other than a line terminator. *)
Lemma hasRepeatedChars_spec (p : jsstr) :
  hasRepeatedChars p = true <-> threeInARowOnLine p.
Proof.
  split.
  - induction p as [|a t IH]; simpl; [discriminate|].
    destruct t as [|b [|c t']]; try discriminate.
    intros H. apply orb_prop in H as [H|H].
    + apply andb_prop in H as [H Hc]. apply andb_prop in H as [Hlt Hb].
      apply N.eqb_eq in Hb. apply N.eqb_eq in Hc. subst b c.
      exists [], a, t'. split; [reflexivity|].
      destruct (isLineTerminator a); [discriminate | reflexivity].
    + destruct (IH H) as (pre & x & post & Heq & Hx).
      exists (a :: pre), x, post. split; [|exact Hx].
      simpl. rewrite <- Heq. reflexivity.
  - intros (pre & x & post & -> & Hx).
    induction pre as [|a pre IH].
    + simpl. rewrite Hx, !N.eqb_refl. reflexivity.
    + change ((a :: pre) ++ x :: x :: x :: post)
        with (a :: (pre ++ x :: x :: x :: post)).
      remember (pre ++ x :: x :: x :: post) as t eqn:Ht.
      assert (Hlen : (3 <= length t)%nat).
      { subst t. rewrite length_app. simpl. lia. }
      destruct t as [|b [|c t']]; simpl in Hlen; try lia.
      simpl. simpl in IH. rewrite IH. apply orb_true_r.
Qed.

(** Case folding against a code unit that is not an upper-case letter. *)
Lemma eqIgnoreCase_lower (c p : N) :
  isUpper p = false -> (eqIgnoreCase c p = true <-> lowerChar c = p).
Proof.
  unfold eqIgnoreCase, canonicalize, lowerChar, isUpper, isLower.
  intros Hp. rewrite N.eqb_eq.
  repeat match goal with
         | |- context [(?a <=? ?b)%N] =>
             destruct (N.leb_spec a b)
         | H : context [(?a <=? ?b)%N] |- _ =>
             destruct (N.leb_spec a b)
         end; simpl in *; try discriminate; lia.
Qed.

Lemma prefixBy_ignoreCase (w s : jsstr) :
  forallb (fun c => negb (isUpper c)) w = true ->
  prefixBy eqIgnoreCase w s = true
  <-> exists m post, s = m ++ post /\ JS.toLowerCase m = w.
Proof.
  revert s. induction w as [|x w IH]; intros s Hw.
  - simpl. split; [|reflexivity]. intros _. exists [], s. split; reflexivity.
  - simpl in Hw. apply andb_prop in Hw as [Hx Hw].
    apply negb_true_iff in Hx.
    destruct s as [|y s]; simpl.
    + split; [discriminate|]. intros (m & post & Heq & Hm).
      destruct m; [discriminate | discriminate].
    + rewrite andb_true_iff, (eqIgnoreCase_lower y x Hx), (IH s Hw).
      split.
      * intros [Hy (m & post & -> & Hm)].
        exists (y :: m), post. split; [reflexivity|].
        simpl. rewrite Hy, Hm. reflexivity.
      * intros (m & post & Heq & Hm).
        destruct m as [|y' m]; [discriminate|].
        simpl in Heq, Hm. injection Heq as -> ->. injection Hm as Hy Hm.
        split; [exact Hy|]. exists m, post. split; [reflexivity | exact Hm].
Qed.

Lemma searchBy_ignoreCase (w s : jsstr) :
  forallb (fun c => negb (isUpper c)) w = true ->
  searchBy eqIgnoreCase w s = true
  <-> exists pre m post, s = pre ++ m ++ post /\ JS.toLowerCase m = w.
Proof.
  intros Hw. induction s as [|y s IH].
  - simpl. rewrite orb_false_r, (prefixBy_ignoreCase w [] Hw).
    split.
    + intros (m & post & Heq & Hm). exists [], m, post. split; assumption.
    + intros (pre & m & post & Heq & Hm).
      destruct pre; [|discriminate]. exists m, post. split; assumption.
  - simpl. rewrite orb_true_iff, IH, (prefixBy_ignoreCase w (y :: s) Hw).
    split.
    + intros [(m & post & Heq & Hm)|(pre & m & post & Heq & Hm)].
      * exists [], m, post. split; assumption.
      * exists (y :: pre), m, post. split; [|exact Hm].
        simpl. rewrite Heq. reflexivity.
    + intros (pre & m & post & Heq & Hm).
      destruct pre as [|y' pre].
      * left. exists m, post. split; assumption.
      * right. simpl in Heq. injection Heq as -> ->.
        exists pre, m, post. split; [reflexivity | exact Hm].
Qed.

Lemma hasCommonSequence_spec (p : jsstr) :
  hasCommonSequence p = true <-> containsCommonSequence p.
Proof.
  unfold hasCommonSequence, containsCommonSequence, commonSequences.
  rewrite !orb_true_iff.
  rewrite !searchBy_ignoreCase by reflexivity.
  split.
  - intros [[H|H]|H]; destruct H as (pre & m & post & Heq & Hm);
      exists pre, m, post; eexists; (split; [exact Heq|]);
      (split; [|exact Hm]); simpl; tauto.
  - intros (pre & m & post & w & Heq & Hw & Hm).
    simpl in Hw. destruct Hw as [<-|[<-|[<-|[]]]];
      [left; left | left; right | right]; exists pre, m, post;
      split; assumption.
Qed.

Lemma validatePasswordStrength_cons (c : N) (p : jsstr) :
  validatePasswordStrength (Some (c :: p)) =
    mkStrength (Z.max 0 (fst (tally (c :: p)))) (bucket (fst (tally (c :: p))))
      (match snd (tally (c :: p)) with
       | [] => [lit "Password strength is good"]
       | fb => fb
       end).
Proof. reflexivity. Qed.

Lemma fst_check (b : bool) (m : string) (st : Z * list jsstr) :
  fst (check b m st) = fst st + b2z b.
Proof. destruct b; simpl; lia. Qed.

Lemma fst_penalty (b : bool) (m : string) (st : Z * list jsstr) :
  fst (penalty b m st) = fst st - b2z b.
Proof. destruct b; simpl; lia. Qed.

Lemma snd_check (b : bool) (m : string) (st : Z * list jsstr) (x : jsstr) :
  In x (snd (check b m st)) <-> In x (snd st) \/ (b = false /\ x = lit m).
Proof.
  destruct b; simpl.
  - split; [tauto | intros [H|[H _]]; [exact H | discriminate]].
  - rewrite in_app_iff. simpl. split; intros [H|H]; try tauto.
    + destruct H as [H|[]]. right. split; [reflexivity | symmetry; exact H].
    + destruct H as [_ ->]. right. left. reflexivity.
Qed.

Lemma snd_penalty (b : bool) (m : string) (st : Z * list jsstr) (x : jsstr) :
  In x (snd (penalty b m st)) <-> In x (snd st) \/ (b = true /\ x = lit m).
Proof.
  destruct b; simpl.
  - rewrite in_app_iff. simpl. split; intros [H|H]; try tauto.
    + destruct H as [H|[]]. right. split; [reflexivity | symmetry; exact H].
    + destruct H as [_ ->]. right. left. reflexivity.
  - split; [tauto | intros [H|[H _]]; [exact H | discriminate]].
Qed.

Lemma tally_score (p : jsstr) :
  fst (tally p) =
    b2z (8 <=? len p) + b2z (12 <=? len p)
    + b2z (some_char isLower p) + b2z (some_char isUpper p)
    + b2z (some_char isDigit p) + b2z (some_char isSpecial p)
    - b2z (hasRepeatedChars p) - b2z (hasCommonSequence p).
Proof.
  unfold tally. rewrite !fst_penalty, !fst_check.
  destruct (12 <=? len p); rewrite ?fst_check; simpl; lia.
Qed.

(** A penalty's message is in the feedback exactly when its pattern
    matched. *)
Lemma tally_feedback_repeated (p : jsstr) :
  In (lit "Avoid repeated characters") (snd (tally p))
  <-> hasRepeatedChars p = true.
Proof.
  unfold tally. rewrite !snd_penalty.
  destruct (12 <=? len p); repeat (rewrite snd_check || cbn [snd fst In]).
  all: split; [intros H | auto 10].
  all: repeat match goal with
              | H : _ \/ _ |- _ => destruct H as [H|H]
              | H : _ /\ _ |- _ => destruct H as [? H]
              | H : False |- _ => destruct H
              | H : lit _ = lit _ |- _ => vm_compute in H; discriminate H
              end.
  all: assumption.
Qed.

Lemma tally_feedback_sequence (p : jsstr) :
  In (lit "Avoid common sequences") (snd (tally p))
  <-> hasCommonSequence p = true.
Proof.
  unfold tally. rewrite !snd_penalty.
  destruct (12 <=? len p); repeat (rewrite snd_check || cbn [snd fst In]).
  all: split; [intros H | auto 10].
  all: repeat match goal with
              | H : _ \/ _ |- _ => destruct H as [H|H]
              | H : _ /\ _ |- _ => destruct H as [? H]
              | H : False |- _ => destruct H
              | H : lit _ = lit _ |- _ => vm_compute in H; discriminate H
              end.
  all: assumption.
Qed.

Lemma feedback_or_good (fb : list jsstr) (x : jsstr) :
  x <> lit "Password strength is good" ->
  In x (match fb with
        | [] => [lit "Password strength is good"]
        | y :: fb' => y :: fb'
        end)
  <-> In x fb.
Proof.
  intros Hx. destruct fb; [|tauto].
  cbn [In]. split; [intros [H|[]]; congruence | tauto].
Qed.

Lemma bucket_clamped (s : Z) : bucket s = strengthOf (Z.max 0 s).
Proof.
  unfold bucket, strengthOf.
  repeat match goal with
         | |- context [?a <=? ?b] => destruct (Z.leb_spec a b)
         | |- context [decide ?P] => destruct (decide P)
         end; try reflexivity; lia.
Qed.

End Strength.

(** C7, as amended.  For every non-empty string the returned score is the
    additive one of the specification, clamped at 0 (one point each for
    length 8, length 12, a lower-case letter, an upper-case letter, a digit,
    a symbol of the punctuation set; one off for three identical characters
    in a row that are not line terminators, one off for a common sequence in
    any letter case), the strength is the bucket of the returned score, and
    each penalty's message is in the feedback exactly when the penalty
    applies; an empty or absent password gives score 0, [very_weak] and the
    single message that a password is required. *)
Theorem C7_password_strength_additive :
  forall password : option jsstr,
    let r := SecurityUtils.validatePasswordStrength password in
    match password with
    | None | Some [] =>
        r = SecurityUtils.mkStrength 0 SecurityUtils.very_weak
              [lit "Password is required"]
    | Some p =>
        StrengthSpec.scoreOf StrengthSpec.threeInARowOnLine p
          (SecurityUtils.score r)
        /\ SecurityUtils.strength r = StrengthSpec.strengthOf (SecurityUtils.score r)
        /\ (In (lit "Avoid repeated characters") (SecurityUtils.feedback r)
            <-> StrengthSpec.threeInARowOnLine p)
        /\ (In (lit "Avoid common sequences") (SecurityUtils.feedback r)
            <-> StrengthSpec.containsCommonSequence p)
    end.
Proof.
  intros [[|c p]|]; try reflexivity.
  cbv zeta. rewrite validatePasswordStrength_cons.
  cbn [SecurityUtils.score SecurityUtils.strength SecurityUtils.feedback].
  split; [|split; [|split]].
  - exists (b2z (8 <=? len (c :: p))), (b2z (12 <=? len (c :: p))),
      (b2z (some_char isLower (c :: p))), (b2z (some_char isUpper (c :: p))),
      (b2z (some_char isDigit (c :: p))),
      (b2z (some_char SecurityUtils.isSpecial (c :: p))),
      (b2z (SecurityUtils.hasRepeatedChars (c :: p))),
      (b2z (SecurityUtils.hasCommonSequence (c :: p))).
    repeat (split; [apply point_of_bool|]).
    + apply Z.leb_le.
    + apply Z.leb_le.
    + apply (some_char_range 97 122).
    + apply (some_char_range 65 90).
    + apply (some_char_range 48 57).
    + apply some_char_special.
    + apply hasRepeatedChars_spec.
    + apply hasCommonSequence_spec.
    + rewrite tally_score. reflexivity.
  - apply bucket_clamped.
  - rewrite feedback_or_good by (intros H; vm_compute in H; discriminate H).
    rewrite tally_feedback_repeated. apply hasRepeatedChars_spec.
  - rewrite feedback_or_good by (intros H; vm_compute in H; discriminate H).
    rewrite tally_feedback_sequence. apply hasCommonSequence_spec.
Qed.

(** C7 as stated fails on it: the password has three identical characters
    in a row, yet the evaluator takes nothing off (the score is the full
    6, not the 5 of the additive definition that counts every run of
    three) and gives no feedback about repetition. *)
Lemma C7_counterexample_line_feeds :
  StrengthSpec.threeInARow threeLineFeeds
  /\ SecurityUtils.validatePasswordStrength (Some threeLineFeeds)
     = SecurityUtils.mkStrength 6 SecurityUtils.very_strong
         [lit "Password strength is good"]
  /\ ~ StrengthSpec.scoreOf StrengthSpec.threeInARow threeLineFeeds
         (SecurityUtils.score
            (SecurityUtils.validatePasswordStrength (Some threeLineFeeds))).
Proof.
  assert (Hrow : StrengthSpec.threeInARow threeLineFeeds).
  { exists (lit "Aa1!Aa1!Aa1!"), 10%N, []. reflexivity. }
  split; [exact Hrow|]. split; [vm_compute; reflexivity|].
  intros (l8 & l12 & lo & up & di & sy & re & se
          & H8 & H12 & Hlo & Hup & Hdi & Hsy & Hre & Hse & Hs).
  replace (SecurityUtils.score
             (SecurityUtils.validatePasswordStrength (Some threeLineFeeds)))
    with 6 in Hs by (vm_compute; reflexivity).
  apply point_range in H8, H12, Hlo, Hup, Hdi, Hsy, Hse.
  destruct Hre as [[_ ->]|[Hn _]]; [lia | exact (Hn Hrow)].
Qed.

(** C8, on the code.  [StrongP@ssw0rd123] ends in the common sequence
    [123]: six points, one off, so score 5 and strength [strong], with the
    sequence feedback; it is acceptable.  [123] scores 0 and is [weak], not
    acceptable, with five feedback messages. *)
Theorem C8_concrete_strength_outcomes :
  AuthRoutes.checkPasswordStrength (Some (lit "StrongP@ssw0rd123"))
  = Ok (AuthRoutes.mkStrengthData SecurityUtils.strong 5
          [lit "Avoid common sequences"] true)
  /\ AuthRoutes.checkPasswordStrength (Some (lit "123"))
     = Ok (AuthRoutes.mkStrengthData SecurityUtils.weak 0
             [lit "Use at least 8 characters"; lit "Include lowercase letters";
              lit "Include uppercase letters"; lit "Include special characters";
              lit "Avoid common sequences"]
             false).
Proof. split; vm_compute; reflexivity. Qed.

(** ** The idealised package meets the contract *)

Section IdealContract.
Import Ideal.

Lemma decPos_encPos (p : positive) (r : jsstr) :
  decPos (encPos p ++ r) = Some (p, r).
Proof.
  induction p as [q IH|q IH|]; simpl; [rewrite IH | rewrite IH |]; reflexivity.
Qed.

Lemma decN_encN (n : N) (r : jsstr) : decN (encN n ++ r) = Some (n, r).
Proof.
  unfold decN, encN. rewrite decPos_encPos, N.pos_pred_succ. reflexivity.
Qed.

Lemma decZ_encZ (z : Z) (r : jsstr) : decZ (encZ z ++ r) = Some (z, r).
Proof.
  unfold decZ, encZ. destruct (Z.ltb_spec z 0); simpl; rewrite decN_encN; simpl.
  - rewrite Z2N.id by lia. f_equal. f_equal. lia.
  - rewrite Z2N.id by lia. reflexivity.
Qed.

Lemma decUnits_encUnits (s r : jsstr) :
  decUnits (length s) (encUnits s ++ r) = Some (s, r).
Proof.
  induction s as [|c s IH]; simpl; [reflexivity|].
  rewrite <- app_assoc, decN_encN, IH. reflexivity.
Qed.

Lemma decStr_encStr (s r : jsstr) : decStr (encStr s ++ r) = Some (s, r).
Proof.
  unfold decStr, encStr. rewrite <- app_assoc, decN_encN, Nat2N.id.
  apply decUnits_encUnits.
Qed.

Lemma decPayload_encPayload (d : Decoded) (r : jsstr) :
  decPayload (encPayload d ++ r) = Some (d, r).
Proof.
  unfold decPayload, encPayload. rewrite <- !app_assoc.
  rewrite decZ_encZ, !decStr_encStr, !decZ_encZ, !decStr_encStr.
  destruct d as [[u e t] i x a b]. reflexivity.
Qed.

Lemma plain_app (a b : jsstr) : plain a -> plain b -> plain (a ++ b).
Proof.
  intros [Ha1 Ha2] [Hb1 Hb2]. split.
  - rewrite countDots_app. lia.
  - apply existsb_app_false; assumption.
Qed.

Lemma plain_encPos (p : positive) : plain (encPos p).
Proof.
  induction p as [q [IH1 IH2]|q [IH1 IH2]|]; split; simpl;
    rewrite ?IH1, ?IH2; reflexivity.
Qed.

Lemma plain_encZ (z : Z) : plain (encZ z).
Proof.
  unfold encZ. destruct (z <? 0).
  - apply (plain_app [cm]); [split; reflexivity | apply plain_encPos].
  - apply (plain_app [cp]); [split; reflexivity | apply plain_encPos].
Qed.

Lemma plain_encUnits (s : jsstr) : plain (encUnits s).
Proof.
  induction s as [|c s IH]; simpl; [split; reflexivity|].
  apply plain_app; [apply plain_encPos | exact IH].
Qed.

Lemma plain_encStr (s : jsstr) : plain (encStr s).
Proof. apply plain_app; [apply plain_encPos | apply plain_encUnits]. Qed.

Lemma plain_encPayload (d : Decoded) : plain (encPayload d).
Proof.
  unfold encPayload.
  repeat (apply plain_app; [first [apply plain_encZ | apply plain_encStr]|]).
  apply plain_encStr.
Qed.

Lemma encode_compact (d : Decoded) (sec : jsstr) :
  countDots (encode d sec) = 2 /\ existsb isWhiteSpace (encode d sec) = false.
Proof.
  unfold encode.
  destruct (plain_encPayload d) as [Hp1 Hp2].
  destruct (plain_encStr sec) as [Hs1 Hs2].
  split.
  - rewrite !countDots_app, Hp1, Hs1. reflexivity.
  - apply existsb_app_false; [reflexivity|].
    apply existsb_app_false; [exact Hp2|].
    apply existsb_app_false; [reflexivity | exact Hs2].
Qed.

Lemma parse_encode (d : Decoded) (sec : jsstr) :
  parse (encode d sec) = Some (d, sec).
Proof.
  unfold parse. rewrite (proj1 (encode_compact d sec)). simpl.
  rewrite decPayload_encPayload. simpl.
  rewrite <- (app_nil_r (encStr sec)), decStr_encStr. reflexivity.
Qed.

Lemma parse_compact (tok : jsstr) (x : Decoded * jsstr) :
  parse tok = Some x -> countDots tok = 2.
Proof.
  unfold parse. destruct (Z.eqb_spec (countDots tok) 2); simpl; congruence.
Qed.

(** The idealised package satisfies every clause of the contract. *)
Lemma Ideal_meets_contract : JsonWebTokenSpec Ideal.lib.
Proof.
  split; simpl.
  - intros c secret o now Hs. unfold sign.
    destruct secret; [congruence | eauto].
  - intros c secret o now tok. unfold sign.
    destruct secret; [discriminate|]. intros [= <-]. apply encode_compact.
  - intros c secret o now tok now'. unfold sign, verify.
    destruct secret as [|s0 secret]; [discriminate|]. intros [= <-].
    rewrite parse_encode, !streq_refl. simpl.
    destruct (now + expiresIn o <=? now'); reflexivity.
  - intros tok secret vo now d. unfold verify.
    destruct (parse tok) as [[d' sec]|] eqn:Hp; [|discriminate].
    intros _. exact (parse_compact _ _ Hp).
  - intros c secret o now tok. unfold sign, decode.
    destruct secret as [|s0 secret]; [discriminate|]. intros [= <-].
    rewrite parse_encode. eauto.
  - intros tok c. unfold decode.
    destruct (parse tok) as [[d' sec]|] eqn:Hp; [|discriminate].
    intros _. exact (parse_compact _ _ Hp).
  - intros tok secret vo now d. unfold verify, decode.
    destruct (parse tok) as [[d' sec]|]; [|discriminate].
    destruct (negb (streq sec secret)); [discriminate|].
    destruct (exp d' <=? now); [discriminate|].
    destruct (negb (streq (aud d') (verifyAudience vo))); [discriminate|].
    destruct (negb (streq (iss d') (verifyIssuer vo))); [discriminate|].
    intros [= <-]. eauto.
Qed.

End IdealContract.

(** The package that passes on the parse error satisfies the contract as
    well: the contract says nothing on the errors for a token the package
    did not sign. *)
Lemma Unparsed_meets_contract : JsonWebTokenSpec Unparsed.lib.
Proof.
  assert (Hsigned : forall c secret o now tok,
             Ideal.sign c secret o now = Ok tok ->
             streq tok Unparsed.token = false).
  { intros c secret o now tok. unfold Ideal.sign.
    destruct secret; [discriminate|]. intros [= <-]. reflexivity. }
  split; cbn [jwt_sign jwt_verify jwt_decode Unparsed.lib].
  - apply (sign_returns (JsonWebTokenSpec := Ideal_meets_contract)).
  - apply (sign_compact (JsonWebTokenSpec := Ideal_meets_contract)).
  - intros c secret o now tok now' Hs. unfold Unparsed.verify.
    rewrite (Hsigned _ _ _ _ _ Hs).
    apply (verify_sign (JsonWebTokenSpec := Ideal_meets_contract) _ _ _ _ _ _ Hs).
  - intros tok secret vo now d. unfold Unparsed.verify.
    destruct (streq tok Unparsed.token); [discriminate|].
    apply (verify_compact (JsonWebTokenSpec := Ideal_meets_contract)).
  - apply (decode_sign (JsonWebTokenSpec := Ideal_meets_contract)).
  - apply (decode_compact (JsonWebTokenSpec := Ideal_meets_contract)).
  - intros tok secret vo now d. unfold Unparsed.verify.
    destruct (streq tok Unparsed.token); [discriminate|].
    apply (verify_decode (JsonWebTokenSpec := Ideal_meets_contract)).
Qed.

(** ** The token codec *)

Lemma existsb_drop_false {A} (f : A -> bool) (n : nat) (l : list A) :
  existsb f l = false -> existsb f (drop n l) = false.
Proof.
  revert n. induction l as [|x l IH]; intros [|n] H; simpl in *;
    try assumption; try reflexivity.
  apply orb_false_elim in H as [_ H]. apply IH, H.
Qed.

(** A string with no white space carries no [Bearer] prefix to remove. *)
Lemma cleanToken_no_space (tok : jsstr) :
  existsb isWhiteSpace tok = false -> JWTUtils.cleanToken tok = tok.
Proof.
  intros H. unfold JWTUtils.cleanToken.
  destruct (startsWith tok (lit "Bearer")); [|reflexivity].
  pose proof (existsb_drop_false isWhiteSpace 6 tok H) as Hd.
  destruct (drop 6 tok) as [|c rest]; [reflexivity|].
  simpl in Hd. apply orb_false_elim in Hd as [-> _]. reflexivity.
Qed.

(** The configured secret always has a value. *)
Lemma config_secret_nonempty (env : Env) : secret (config_jwt env) <> [].
Proof.
  unfold config_jwt, orElse. simpl.
  destruct (JWT_SECRET env) as [[|c s]|]; simpl; discriminate.
Qed.

Section Codec.
Context {lib : JsonWebToken} {spec : JsonWebTokenSpec lib}.
Variable env : Env.

(** A token that [verifyToken] accepts was accepted by the package, and is
    not the empty string. *)
Lemma verifyToken_Ok (tok : jsstr) (o : JWTUtils.Options) (now : Z) (d : Decoded) :
  JWTUtils.verifyToken env tok o now = Ok d ->
  tok <> [] /\
  jwt_verify (JWTUtils.cleanToken tok) (secret (config_jwt env))
    (mkVerifyOptions (default JWTUtils.ISSUER (JWTUtils.optIssuer o))
                     (default JWTUtils.AUDIENCE (JWTUtils.optAudience o)))
    now = Ok d.
Proof.
  unfold JWTUtils.verifyToken. destruct tok as [|c tok]; [discriminate|].
  intros H. split; [discriminate|].
  destruct (jwt_verify _ _ _ _) as [d'|e]; [congruence|].
  destruct (name e); discriminate.
Qed.

(** What [verifyToken] accepts passes the format test. *)
Lemma verifyToken_format (tok : jsstr) (o : JWTUtils.Options) (now : Z) (d : Decoded) :
  JWTUtils.verifyToken env tok o now = Ok d ->
  JWTUtils.isValidTokenFormat tok = true.
Proof.
  intros H. apply verifyToken_Ok in H as [Hne Hv].
  apply verify_compact in Hv.
  unfold JWTUtils.isValidTokenFormat, split_dot_length.
  destruct tok; [congruence|]. rewrite Hv. reflexivity.
Qed.

(** [generateToken] returns a token for every payload with a [userId]. *)
Lemma generateToken_returns (c : Claims) (o : JWTUtils.Options) (now : Z) :
  userId c <> 0 ->
  exists tok,
    JWTUtils.generateToken env (Some c) o now = Ok tok
    /\ jwt_sign c (secret (config_jwt env))
         (mkSignOptions
            (default (configExpiresIn (config_jwt env)) (JWTUtils.optExpiresIn o))
            (default JWTUtils.ISSUER (JWTUtils.optIssuer o))
            (default JWTUtils.AUDIENCE (JWTUtils.optAudience o)))
         now = Ok tok.
Proof.
  intros Hid. unfold JWTUtils.generateToken.
  destruct (Z.eqb_spec (userId c) 0) as [E|_]; [contradiction|].
  destruct (sign_returns c (secret (config_jwt env))
              (mkSignOptions
                 (default (configExpiresIn (config_jwt env)) (JWTUtils.optExpiresIn o))
                 (default JWTUtils.ISSUER (JWTUtils.optIssuer o))
                 (default JWTUtils.AUDIENCE (JWTUtils.optAudience o)))
              now (config_secret_nonempty env)) as [tok Htok].
  exists tok. rewrite Htok. split; reflexivity.
Qed.

(** [verifyToken] on a token signed by [generateToken] with the default
    issuer and audience: the signed payload before [exp], the expiry error
    from [exp] on. *)
Lemma verifyToken_signed (c : Claims) (ttl now : Z) (tok : jsstr) (now' : Z) :
  jwt_sign c (secret (config_jwt env))
    (mkSignOptions ttl JWTUtils.ISSUER JWTUtils.AUDIENCE) now = Ok tok ->
  JWTUtils.verifyToken env tok JWTUtils.noOptions now' =
    if now + ttl <=? now' then Err (lit "Token has expired")
    else Ok (signedPayload c (mkSignOptions ttl JWTUtils.ISSUER JWTUtils.AUDIENCE) now).
Proof.
  intros Hs.
  destruct (sign_compact _ _ _ _ _ Hs) as [Hdots Hws].
  unfold JWTUtils.verifyToken.
  destruct tok as [|t0 tok]; [discriminate Hdots|].
  rewrite (cleanToken_no_space _ Hws).
  pose proof (verify_sign _ _ _ _ _ now' Hs) as Hv.
  cbn [issuer audience expiresIn] in Hv.
  change (default JWTUtils.ISSUER (JWTUtils.optIssuer JWTUtils.noOptions))
    with JWTUtils.ISSUER.
  change (default JWTUtils.AUDIENCE (JWTUtils.optAudience JWTUtils.noOptions))
    with JWTUtils.AUDIENCE.
  rewrite Hv.
  destruct (now + ttl <=? now'); reflexivity.
Qed.

(** [decodeToken] on such a token: the signed payload, at any time. *)
Lemma decodeToken_signed (c : Claims) (o : SignOptions) (sec : jsstr)
    (now : Z) (tok : jsstr) :
  jwt_sign c sec o now = Ok tok ->
  exists sg,
    JWTUtils.decodeToken tok = Ok (Some (mkComplete (signedPayload c o now) sg)).
Proof.
  intros Hs.
  destruct (sign_compact _ _ _ _ _ Hs) as [Hdots Hws].
  destruct (decode_sign _ _ _ _ _ Hs) as [sg Hd].
  exists sg. unfold JWTUtils.decodeToken.
  destruct tok as [|t0 tok]; [discriminate Hdots|].
  rewrite (cleanToken_no_space _ Hws), Hd. reflexivity.
Qed.

(** The payload [verifyToken] returns is the one [decodeToken] reads. *)
Lemma verifyToken_decodeToken (tok : jsstr) (o : JWTUtils.Options) (now : Z)
    (d : Decoded) :
  JWTUtils.verifyToken env tok o now = Ok d ->
  exists sg, JWTUtils.decodeToken tok = Ok (Some (mkComplete d sg)).
Proof.
  intros H. apply verifyToken_Ok in H as [Hne Hv].
  apply verify_decode in Hv as [sg Hd]. exists sg.
  unfold JWTUtils.decodeToken. destruct tok; [congruence|].
  rewrite Hd. reflexivity.
Qed.

End Codec.

(** C2.  Issue/verify round trip.  For every payload with a [userId] and
    every time to live [ttl], [generateToken] returns a token, and
    [verifyToken] with the same configuration returns a payload with the
    same [userId], [email] and [type] while fewer than [ttl] seconds have
    passed since the token was issued, and fails with the message that the
    token has expired once [ttl] seconds have passed. *)
Theorem C2_issue_verify_round_trip :
  forall (lib : JsonWebToken),
    JsonWebTokenSpec lib ->
    forall (env : Env) (c : Claims) (ttl now : Z),
      userId c <> 0 ->
      exists tok,
        JWTUtils.generateToken env (Some c)
          (JWTUtils.mkOptions (Some ttl) None None) now = Ok tok
        /\ forall now',
             (now' - now < ttl ->
                exists d,
                  JWTUtils.verifyToken env tok JWTUtils.noOptions now' = Ok d
                  /\ userId d = userId c /\ email d = email c
                  /\ type d = type c)
             /\ (ttl <= now' - now ->
                   JWTUtils.verifyToken env tok JWTUtils.noOptions now'
                   = Err (lit "Token has expired")).
Proof.
  intros lib spec env c ttl now Hid.
  destruct (generateToken_returns env c (JWTUtils.mkOptions (Some ttl) None None)
              now Hid) as (tok & Hgen & Hsign).
  exists tok. split; [exact Hgen|].
  intros now'. cbn [default JWTUtils.optExpiresIn JWTUtils.optIssuer
                    JWTUtils.optAudience] in Hsign.
  rewrite (verifyToken_signed env c ttl now tok now' Hsign).
  split; intros Ht.
  - destruct (Z.leb_spec (now + ttl) now') as [Hle|_]; [lia|].
    eexists. split; [reflexivity|]. simpl. auto.
  - destruct (Z.leb_spec (now + ttl) now') as [_|Hlt]; [reflexivity | lia].
Qed.

(** C2 for Alice's payload, signed for an hour at second 1000 by the
    idealised package under the default configuration. *)
Lemma C2_witness :
  exists tok,
    JWTUtils.generateToken (lib := Ideal.lib) defaultEnv (Some aliceClaims)
      (JWTUtils.mkOptions (Some 3600) None None) 1000 = Ok tok
    /\ forall now',
         (now' - 1000 < 3600 ->
            exists d,
              JWTUtils.verifyToken (lib := Ideal.lib) defaultEnv tok
                JWTUtils.noOptions now' = Ok d
              /\ userId d = userId aliceClaims /\ email d = email aliceClaims
              /\ type d = type aliceClaims)
         /\ (3600 <= now' - 1000 ->
               JWTUtils.verifyToken (lib := Ideal.lib) defaultEnv tok
                 JWTUtils.noOptions now'
               = Err (lit "Token has expired")).
Proof.
  apply (C2_issue_verify_round_trip Ideal.lib Ideal_meets_contract
           defaultEnv aliceClaims 3600 1000).
  discriminate.
Defined.

(** [isTokenExpired] on a token that decodes to a payload with an [exp]:
    true exactly when [exp] is strictly before the current time. *)
Lemma isTokenExpired_decoded {lib : JsonWebToken} (tok : jsstr) (c : Complete)
    (currentTime : Z) :
  JWTUtils.decodeToken tok = Ok (Some c) ->
  exp (payload c) <> 0 ->
  JWTUtils.isTokenExpired tok currentTime = (exp (payload c) <? currentTime).
Proof.
  intros Hd Hexp. unfold JWTUtils.isTokenExpired. rewrite Hd.
  destruct (Z.eqb_spec (exp (payload c)) 0); [contradiction | reflexivity].
Qed.

(** C5, on the code.  At the second a token expires ([now = exp]) the
    verification already refuses it as expired, and [isTokenExpired] still
    answers false: it compares with [exp < now], and is true only from the
    next second on. *)
Theorem C5_isTokenExpired_at_exp :
  forall (lib : JsonWebToken),
    JsonWebTokenSpec lib ->
    forall (env : Env) (c : Claims) (ttl now : Z),
      userId c <> 0 ->
      now + ttl <> 0 ->
      exists tok,
        JWTUtils.generateToken env (Some c)
          (JWTUtils.mkOptions (Some ttl) None None) now = Ok tok
        /\ JWTUtils.verifyToken env tok JWTUtils.noOptions (now + ttl)
           = Err (lit "Token has expired")
        /\ JWTUtils.isTokenExpired tok (now + ttl) = false
        /\ forall t, JWTUtils.isTokenExpired tok t = (now + ttl <? t).
Proof.
  intros lib spec env c ttl now Hid Hexp.
  destruct (generateToken_returns env c (JWTUtils.mkOptions (Some ttl) None None)
              now Hid) as (tok & Hgen & Hsign).
  cbn [default JWTUtils.optExpiresIn JWTUtils.optIssuer
       JWTUtils.optAudience] in Hsign.
  exists tok. split; [exact Hgen|].
  destruct (decodeToken_signed _ _ _ _ _ Hsign) as [sg Hd].
  assert (Hstrict : forall t, JWTUtils.isTokenExpired tok t = (now + ttl <? t)).
  { intros t. rewrite (isTokenExpired_decoded tok _ t Hd); [reflexivity|].
    exact Hexp. }
  split; [|split].
  - rewrite (verifyToken_signed env c ttl now tok (now + ttl) Hsign).
    rewrite Z.leb_refl. reflexivity.
  - rewrite Hstrict. apply Z.ltb_irrefl.
  - exact Hstrict.
Qed.

(** The same token at second 4600, the second it expires. *)
Lemma C5_witness :
  exists tok,
    JWTUtils.generateToken (lib := Ideal.lib) defaultEnv (Some aliceClaims)
      (JWTUtils.mkOptions (Some 3600) None None) 1000 = Ok tok
    /\ JWTUtils.verifyToken (lib := Ideal.lib) defaultEnv tok
         JWTUtils.noOptions (1000 + 3600)
       = Err (lit "Token has expired")
    /\ JWTUtils.isTokenExpired (lib := Ideal.lib) tok (1000 + 3600) = false
    /\ forall t,
         JWTUtils.isTokenExpired (lib := Ideal.lib) tok t = (1000 + 3600 <? t).
Proof.
  apply (C5_isTokenExpired_at_exp Ideal.lib Ideal_meets_contract
           defaultEnv aliceClaims 3600 1000); discriminate.
Defined.

(** C6, as amended.  [getTokenRemainingTime] is never negative.  It is 0
    for a token that is not of three segments, for one that does not
    decode, for one with no [exp] and for one whose [exp] is not after the
    current time; for any other token it is [exp - now], read from the
    payload as decoded, with no check of the signature. *)
Theorem C6_remaining_time_from_decoded_payload :
  forall (lib : JsonWebToken),
    JsonWebTokenSpec lib ->
    forall (tok : jsstr) (now : Z),
      0 <= JWTUtils.getTokenRemainingTime tok now
      /\ (JWTUtils.isValidTokenFormat tok = false ->
          JWTUtils.getTokenRemainingTime tok now = 0)
      /\ ((forall c, JWTUtils.decodeToken tok <> Ok (Some c)) ->
          JWTUtils.getTokenRemainingTime tok now = 0)
      /\ (forall c,
            JWTUtils.decodeToken tok = Ok (Some c) ->
            exp (payload c) <= now ->
            JWTUtils.getTokenRemainingTime tok now = 0)
      /\ (forall c,
            JWTUtils.decodeToken tok = Ok (Some c) ->
            exp (payload c) <> 0 ->
            now < exp (payload c) ->
            JWTUtils.getTokenRemainingTime tok now = exp (payload c) - now).
Proof.
  intros lib spec tok now.
  assert (Hnone : (forall c, JWTUtils.decodeToken tok <> Ok (Some c)) ->
                  JWTUtils.getTokenRemainingTime tok now = 0).
  { intros H. unfold JWTUtils.getTokenRemainingTime; cbv zeta.
    destruct (JWTUtils.decodeToken tok) as [[c|]|e]; try reflexivity.
    exfalso. exact (H c eq_refl). }
  split; [|split; [|split; [exact Hnone|split]]].
  - unfold JWTUtils.getTokenRemainingTime; cbv zeta.
    destruct (JWTUtils.decodeToken tok) as [[c|]|e]; try lia.
    destruct (exp (payload c) =? 0); lia.
  - intros Hfmt. apply Hnone. intros c Hd.
    unfold JWTUtils.decodeToken in Hd.
    unfold JWTUtils.isValidTokenFormat, split_dot_length in Hfmt.
    destruct tok as [|t0 tok]; [discriminate Hd|].
    destruct (jwt_decode (JWTUtils.cleanToken (t0 :: tok))) as [o|e] eqn:Hj;
      [|discriminate Hd].
    injection Hd as ->. apply decode_compact in Hj.
    rewrite Hj in Hfmt. discriminate Hfmt.
  - intros c Hd Hexp. unfold JWTUtils.getTokenRemainingTime; cbv zeta. rewrite Hd.
    destruct (exp (payload c) =? 0); lia.
  - intros c Hd Hexp0 Hexp.
    unfold JWTUtils.getTokenRemainingTime; cbv zeta. rewrite Hd.
    destruct (Z.eqb_spec (exp (payload c)) 0); lia.
Qed.

(** C6 for the forged token at second 2000. *)
Lemma C6_witness :
  0 <= JWTUtils.getTokenRemainingTime (lib := Ideal.lib) forgedToken 2000
  /\ (JWTUtils.isValidTokenFormat forgedToken = false ->
      JWTUtils.getTokenRemainingTime (lib := Ideal.lib) forgedToken 2000 = 0)
  /\ ((forall c, JWTUtils.decodeToken (lib := Ideal.lib) forgedToken <> Ok (Some c)) ->
      JWTUtils.getTokenRemainingTime (lib := Ideal.lib) forgedToken 2000 = 0)
  /\ (forall c,
        JWTUtils.decodeToken (lib := Ideal.lib) forgedToken = Ok (Some c) ->
        exp (payload c) <= 2000 ->
        JWTUtils.getTokenRemainingTime (lib := Ideal.lib) forgedToken 2000 = 0)
  /\ (forall c,
        JWTUtils.decodeToken (lib := Ideal.lib) forgedToken = Ok (Some c) ->
        exp (payload c) <> 0 ->
        2000 < exp (payload c) ->
        JWTUtils.getTokenRemainingTime (lib := Ideal.lib) forgedToken 2000
        = exp (payload c) - 2000).
Proof.
  exact (C6_remaining_time_from_decoded_payload Ideal.lib Ideal_meets_contract
           forgedToken 2000).
Defined.

(** C6 as stated fails on the forged token: the verification refuses it
    (the signature is not the server's), and its remaining time at second
    2000 is the 2600 seconds left to the [exp] written in it. *)
Lemma C6_counterexample_forged_token :
  JWTUtils.verifyToken (lib := Ideal.lib) defaultEnv forgedToken
    JWTUtils.noOptions 2000 = Err (lit "Invalid token")
  /\ JWTUtils.getTokenRemainingTime (lib := Ideal.lib) forgedToken 2000 = 2600.
Proof. split; vm_compute; reflexivity. Qed.

(** ** The middleware chain *)

Section Gates.
Context {lib : JsonWebToken}.
Variable env : Env.

(** The two forms of an [Authorization] header. *)
Lemma extractToken_bearer (t : jsstr) :
  Auth.extractToken (lit "Bearer " ++ t) = t.
Proof. reflexivity. Qed.

Lemma extractToken_plain (h : jsstr) :
  startsWith h (lit "Bearer ") = false -> Auth.extractToken h = h.
Proof. intros H. unfold Auth.extractToken. rewrite H. reflexivity. Qed.

(** The message of [verifyToken] for each error of the package. *)
Lemma verifyToken_Err (tok : jsstr) (now : Z) (e : JwtError) :
  tok <> [] ->
  jwt_verify (JWTUtils.cleanToken tok) (secret (config_jwt env))
    (mkVerifyOptions JWTUtils.ISSUER JWTUtils.AUDIENCE) now = Err e ->
  JWTUtils.verifyToken env tok JWTUtils.noOptions now =
    Err (match name e with
         | TokenExpiredError => lit "Token has expired"
         | JsonWebTokenError => lit "Invalid token"
         | NotBeforeError => lit "Token not active yet"
         | OtherError => lit "Token verification failed: " ++ message e
         end).
Proof.
  intros Hne Hv. unfold JWTUtils.verifyToken.
  destruct tok as [|c tok]; [congruence|].
  change (default JWTUtils.ISSUER (JWTUtils.optIssuer JWTUtils.noOptions))
    with JWTUtils.ISSUER.
  change (default JWTUtils.AUDIENCE (JWTUtils.optAudience JWTUtils.noOptions))
    with JWTUtils.AUDIENCE.
  rewrite Hv. destruct (name e); reflexivity.
Qed.

(** The gate past the header and format checks. *)
Lemma authenticateToken_checked (req : Auth.Request) (now : Z) (db : Db.t)
    (h : jsstr) :
  Auth.authorization req = Some h ->
  Auth.extractToken h <> [] ->
  JWTUtils.isValidTokenFormat (Auth.extractToken h) = true ->
  Auth.authenticateToken env req now db =
    let tok := Auth.extractToken h in
    match JWTUtils.verifyToken env tok JWTUtils.noOptions now with
    | Err error_message =>
        ([Auth.Verify tok],
         Auth.Respond (Auth.mkResponse HTTP_STATUS.UNAUTHORIZED
                         (if includes error_message (lit "expired")
                          then AUTH_TOKEN_EXPIRED else AUTH_TOKEN_INVALID)
                         error_message))
    | Ok dec =>
        if negb (streq (type dec) (lit "auth")) then
          ([Auth.Verify tok],
           Auth.Respond (Auth.mkResponse HTTP_STATUS.UNAUTHORIZED
                           AUTH_TOKEN_INVALID (lit "Invalid token type")))
        else
          match User.findById db (userId dec) with
          | Err _ =>
              ([Auth.Verify tok; Auth.FindById (userId dec)],
               Auth.Respond (Auth.mkResponse HTTP_STATUS.INTERNAL_SERVER_ERROR
                               INTERNAL_ERROR (lit "Authentication failed")))
          | Ok None =>
              ([Auth.Verify tok; Auth.FindById (userId dec)],
               Auth.Respond (Auth.mkResponse HTTP_STATUS.UNAUTHORIZED
                               USER_NOT_FOUND (lit "User not found")))
          | Ok (Some u) =>
              ([Auth.Verify tok; Auth.FindById (userId dec)],
               Auth.Next (Auth.setUserToken req (Some u)
                            (Some (Auth.mkTokenInfo tok dec))))
          end
    end.
Proof.
  intros Hh Hne Hfmt. unfold Auth.authenticateToken. rewrite Hh.
  destruct h as [|c h]; [exfalso; apply Hne; reflexivity|].
  destruct (Auth.extractToken (c :: h)) as [|t0 tok] eqn:Htok;
    [congruence|].
  rewrite Hfmt. reflexivity.
Qed.

(** The gate at the checks it makes before any call. *)
Lemma authenticateToken_empty_token (req : Auth.Request) (now : Z) (db : Db.t)
    (h : jsstr) :
  Auth.authorization req = Some h ->
  h <> [] ->
  Auth.extractToken h = [] ->
  Auth.authenticateToken env req now db =
    ([], Auth.Respond (Auth.mkResponse 401 AUTH_TOKEN_MISSING
                         (lit "Token is required"))).
Proof.
  intros Hh Hne Htok. unfold Auth.authenticateToken. rewrite Hh.
  destruct h as [|c h]; [congruence|]. rewrite Htok. reflexivity.
Qed.

Lemma authenticateToken_bad_format (req : Auth.Request) (now : Z) (db : Db.t)
    (h : jsstr) :
  Auth.authorization req = Some h ->
  Auth.extractToken h <> [] ->
  JWTUtils.isValidTokenFormat (Auth.extractToken h) = false ->
  Auth.authenticateToken env req now db =
    ([], Auth.Respond (Auth.mkResponse 401 AUTH_TOKEN_INVALID
                         (lit "Invalid token format"))).
Proof.
  intros Hh Hne Hfmt. unfold Auth.authenticateToken. rewrite Hh.
  destruct h as [|c h]; [exfalso; apply Hne; reflexivity|].
  destruct (Auth.extractToken (c :: h)) as [|t0 tok] eqn:Htok;
    [congruence|].
  rewrite Hfmt. reflexivity.
Qed.

(** Whoever the gate lets through presented a verified token of type
    [auth]. *)
Lemma authenticateToken_Next (req req' : Auth.Request) (now : Z) (db : Db.t) :
  (Auth.authenticateToken env req now db).2 = Auth.Next req' ->
  exists h d,
    Auth.authorization req = Some h
    /\ JWTUtils.verifyToken env (Auth.extractToken h) JWTUtils.noOptions now = Ok d
    /\ type d = lit "auth".
Proof.
  unfold Auth.authenticateToken.
  destruct (Auth.authorization req) as [[|c h]|]; try discriminate.
  destruct (Auth.extractToken (c :: h)) as [|t0 tok] eqn:Htok;
    [discriminate|].
  destruct (JWTUtils.isValidTokenFormat (t0 :: tok));
    cbn [negb]; [|discriminate].
  destruct (JWTUtils.verifyToken env (t0 :: tok) JWTUtils.noOptions now)
    as [d|m] eqn:Hv; [|discriminate].
  destruct (streq (type d) (lit "auth")) eqn:Ht;
    cbn [negb]; [|discriminate].
  intros _. exists (c :: h), d. rewrite Htok.
  split; [reflexivity|]. split; [exact Hv | apply streq_eq, Ht].
Qed.

Lemma validateRefreshToken_Next (req req' : Auth.Request) (now : Z) (db : Db.t) :
  (Auth.validateRefreshToken env req now db).2 = Auth.Next req' ->
  exists tok d,
    Auth.bodyRefreshToken req = Some tok
    /\ JWTUtils.verifyToken env tok JWTUtils.noOptions now = Ok d
    /\ type d = lit "refresh".
Proof.
  unfold Auth.validateRefreshToken.
  destruct (Auth.bodyRefreshToken req) as [[|c tok]|]; try discriminate.
  destruct (JWTUtils.verifyToken env (c :: tok) JWTUtils.noOptions now)
    as [d|m] eqn:Hv; [|discriminate].
  destruct (streq (type d) (lit "refresh")) eqn:Ht;
    cbn [negb]; [|discriminate].
  intros _. exists (c :: tok), d.
  split; [reflexivity|]. split; [exact Hv | apply streq_eq, Ht].
Qed.

Lemma refreshAccessToken_Ok (tok t : jsstr) (now : Z) :
  JWTUtils.refreshAccessToken env tok now = Ok t ->
  exists d,
    JWTUtils.verifyToken env tok JWTUtils.noOptions now = Ok d
    /\ type d = lit "refresh".
Proof.
  unfold JWTUtils.refreshAccessToken.
  destruct (JWTUtils.verifyToken env tok JWTUtils.noOptions now)
    as [d|m]; [|discriminate].
  destruct (streq (type d) (lit "refresh")) eqn:Ht;
    cbn [negb]; [|discriminate].
  intros _. exists d. split; [reflexivity | apply streq_eq, Ht].
Qed.

End Gates.

(** C1, as amended.  Token-kind enforcement.
    The mandatory gate: a token that verifies and whose payload has type
    [refresh] is answered with 401, [AUTH_TOKEN_INVALID] and the message of
    an invalid token type, before any user lookup; a token whose payload
    reads type [refresh], verified or not, is always answered with 401;
    and the gate lets through only a verified token of type [auth].
    The refresh side: a token that verifies and whose type is not
    [refresh] is answered the same way by the refresh gate and makes
    [refreshAccessToken] throw the error of an invalid refresh token type;
    a token whose payload reads another type than [refresh] is always
    refused by both; and both go on only with a verified token of type
    [refresh]. *)
Theorem C1_token_kind_enforcement :
  forall (lib : JsonWebToken),
    JsonWebTokenSpec lib ->
    forall (env : Env) (req : Auth.Request) (now : Z) (db : Db.t),
      (forall h d,
          Auth.authorization req = Some h ->
          JWTUtils.verifyToken env (Auth.extractToken h) JWTUtils.noOptions now
            = Ok d ->
          type d = lit "refresh" ->
          Auth.authenticateToken env req now db =
            ([Auth.Verify (Auth.extractToken h)],
             Auth.Respond (Auth.mkResponse 401 AUTH_TOKEN_INVALID
                             (lit "Invalid token type"))))
      /\ (forall h c,
            Auth.authorization req = Some h ->
            JWTUtils.decodeToken (Auth.extractToken h) = Ok (Some c) ->
            type (payload c) = lit "refresh" ->
            exists r,
              (Auth.authenticateToken env req now db).2 = Auth.Respond r
              /\ Auth.status r = 401)
      /\ (forall req',
            (Auth.authenticateToken env req now db).2 = Auth.Next req' ->
            exists h d,
              Auth.authorization req = Some h
              /\ JWTUtils.verifyToken env (Auth.extractToken h)
                   JWTUtils.noOptions now = Ok d
              /\ type d = lit "auth")
      /\ (forall tok d,
            Auth.bodyRefreshToken req = Some tok ->
            JWTUtils.verifyToken env tok JWTUtils.noOptions now = Ok d ->
            type d <> lit "refresh" ->
            Auth.validateRefreshToken env req now db =
              ([Auth.Verify tok],
               Auth.Respond (Auth.mkResponse 401 AUTH_TOKEN_INVALID
                               (lit "Invalid token type"))))
      /\ (forall tok c,
            Auth.bodyRefreshToken req = Some tok ->
            JWTUtils.decodeToken tok = Ok (Some c) ->
            type (payload c) <> lit "refresh" ->
            exists r,
              (Auth.validateRefreshToken env req now db).2 = Auth.Respond r
              /\ Auth.status r = 401)
      /\ (forall req',
            (Auth.validateRefreshToken env req now db).2 = Auth.Next req' ->
            exists tok d,
              Auth.bodyRefreshToken req = Some tok
              /\ JWTUtils.verifyToken env tok JWTUtils.noOptions now = Ok d
              /\ type d = lit "refresh")
      /\ (forall tok d,
            JWTUtils.verifyToken env tok JWTUtils.noOptions now = Ok d ->
            type d <> lit "refresh" ->
            JWTUtils.refreshAccessToken env tok now =
              Err (lit "Token refresh failed: Invalid refresh token type"))
      /\ (forall tok c,
            JWTUtils.decodeToken tok = Ok (Some c) ->
            type (payload c) <> lit "refresh" ->
            exists m, JWTUtils.refreshAccessToken env tok now = Err m)
      /\ (forall tok t,
            JWTUtils.refreshAccessToken env tok now = Ok t ->
            exists d,
              JWTUtils.verifyToken env tok JWTUtils.noOptions now = Ok d
              /\ type d = lit "refresh").
Proof.
  intros lib spec env req now db.
  assert (Hexact : forall h d,
             Auth.authorization req = Some h ->
             JWTUtils.verifyToken env (Auth.extractToken h) JWTUtils.noOptions now
               = Ok d ->
             type d = lit "refresh" ->
             Auth.authenticateToken env req now db =
               ([Auth.Verify (Auth.extractToken h)],
                Auth.Respond (Auth.mkResponse 401 AUTH_TOKEN_INVALID
                                (lit "Invalid token type")))).
  { intros h d Hh Hv Ht.
    pose proof (verifyToken_format env _ _ _ _ Hv) as Hfmt.
    destruct (verifyToken_Ok env _ _ _ _ Hv) as [Hne _].
    rewrite (authenticateToken_checked env req now db h Hh Hne Hfmt).
    cbv zeta. rewrite Hv, Ht. reflexivity. }
  assert (Hgate : forall tok d,
             Auth.bodyRefreshToken req = Some tok ->
             JWTUtils.verifyToken env tok JWTUtils.noOptions now = Ok d ->
             type d <> lit "refresh" ->
             Auth.validateRefreshToken env req now db =
               ([Auth.Verify tok],
                Auth.Respond (Auth.mkResponse 401 AUTH_TOKEN_INVALID
                                (lit "Invalid token type")))).
  { intros tok d Hb Hv Ht.
    destruct (verifyToken_Ok env _ _ _ _ Hv) as [Hne _].
    unfold Auth.validateRefreshToken. rewrite Hb.
    destruct tok as [|c tok]; [congruence|].
    rewrite Hv. apply streq_neq in Ht. rewrite Ht. reflexivity. }
  assert (Hthrow : forall tok d,
             JWTUtils.verifyToken env tok JWTUtils.noOptions now = Ok d ->
             type d <> lit "refresh" ->
             JWTUtils.refreshAccessToken env tok now =
               Err (lit "Token refresh failed: Invalid refresh token type")).
  { intros tok d Hv Ht. unfold JWTUtils.refreshAccessToken.
    rewrite Hv. apply streq_neq in Ht. rewrite Ht. reflexivity. }
  split; [exact Hexact|]. split.
  { intros h c Hh Hd Ht.
    destruct (JWTUtils.verifyToken env (Auth.extractToken h)
                JWTUtils.noOptions now) as [d|m] eqn:Hv.
    - destruct (verifyToken_decodeToken env _ _ _ _ Hv) as [sg Hd'].
      rewrite Hd in Hd'. injection Hd' as ->.
      rewrite (Hexact h d Hh Hv Ht). eexists. split; reflexivity.
    - assert (Hne : Auth.extractToken h <> []).
      { intros E. rewrite E in Hd. discriminate Hd. }
      destruct (JWTUtils.isValidTokenFormat (Auth.extractToken h)) eqn:Hfmt.
      + rewrite (authenticateToken_checked env req now db h Hh Hne Hfmt).
        cbv zeta. rewrite Hv. eexists. split; reflexivity.
      + rewrite (authenticateToken_bad_format env req now db h Hh Hne Hfmt).
        eexists. split; reflexivity. }
  split; [intros req'; apply authenticateToken_Next|].
  split; [exact Hgate|]. split.
  { intros tok c Hb Hd Ht.
    destruct (JWTUtils.verifyToken env tok JWTUtils.noOptions now)
      as [d|m] eqn:Hv.
    - destruct (verifyToken_decodeToken env _ _ _ _ Hv) as [sg Hd'].
      rewrite Hd in Hd'. injection Hd' as ->.
      rewrite (Hgate tok d Hb Hv Ht). eexists. split; reflexivity.
    - unfold Auth.validateRefreshToken. rewrite Hb.
      destruct tok as [|t0 tok]; [discriminate Hd|].
      rewrite Hv. eexists. split; reflexivity. }
  split; [intros req'; apply validateRefreshToken_Next|].
  split; [exact Hthrow|]. split.
  { intros tok c Hd Ht.
    destruct (JWTUtils.verifyToken env tok JWTUtils.noOptions now)
      as [d|m] eqn:Hv.
    - destruct (verifyToken_decodeToken env _ _ _ _ Hv) as [sg Hd'].
      rewrite Hd in Hd'. injection Hd' as ->.
      rewrite (Hthrow tok d Hv Ht). eexists. reflexivity.
    - unfold JWTUtils.refreshAccessToken. rewrite Hv. eexists. reflexivity. }
  intros tok t. apply refreshAccessToken_Ok.
Qed.

Lemma alice_tokens_issued :
  JWTUtils.generateRefreshToken (lib := Ideal.lib) defaultEnv
    (Some (JWTUtils.mkTokenUser 7 (lit "alice@example.com"))) 1000
  = Ok aliceRefreshToken
  /\ JWTUtils.generateAuthToken (lib := Ideal.lib) defaultEnv
       (Some (JWTUtils.mkTokenUser 7 (lit "alice@example.com"))) 1000
     = Ok aliceAccessToken.
Proof. split; reflexivity. Qed.

(** C1 at a concrete exchange: Alice's refresh token in the header of a
    protected request, and her access token sent to the refresh gate and to
    [refreshAccessToken], all at second 2000. *)
Lemma C1_witness :
  Auth.authenticateToken (lib := Ideal.lib) defaultEnv
    (request (Some (lit "Bearer " ++ aliceRefreshToken)) None) 2000 emptyDb
  = ([Auth.Verify aliceRefreshToken],
     Auth.Respond (Auth.mkResponse 401 AUTH_TOKEN_INVALID
                     (lit "Invalid token type")))
  /\ Auth.validateRefreshToken (lib := Ideal.lib) defaultEnv
       (request None (Some aliceAccessToken)) 2000 emptyDb
     = ([Auth.Verify aliceAccessToken],
        Auth.Respond (Auth.mkResponse 401 AUTH_TOKEN_INVALID
                        (lit "Invalid token type")))
  /\ JWTUtils.refreshAccessToken (lib := Ideal.lib) defaultEnv
       aliceAccessToken 2000
     = Err (lit "Token refresh failed: Invalid refresh token type").
Proof.
  split; [|split].
  - destruct (C1_token_kind_enforcement Ideal.lib Ideal_meets_contract
                defaultEnv
                (request (Some (lit "Bearer " ++ aliceRefreshToken)) None)
                2000 emptyDb) as (H & _).
    apply (H (lit "Bearer " ++ aliceRefreshToken)
             (signedPayload (mkClaims 7 (lit "alice@example.com") (lit "refresh"))
                (mkSignOptions 604800 JWTUtils.ISSUER JWTUtils.AUDIENCE) 1000));
      vm_compute; reflexivity.
  - destruct (C1_token_kind_enforcement Ideal.lib Ideal_meets_contract
                defaultEnv (request None (Some aliceAccessToken))
                2000 emptyDb) as (_ & _ & _ & H & _).
    apply (H aliceAccessToken
             (signedPayload aliceClaims
                (mkSignOptions 86400 JWTUtils.ISSUER JWTUtils.AUDIENCE) 1000));
      vm_compute; try reflexivity; discriminate.
  - destruct (C1_token_kind_enforcement Ideal.lib Ideal_meets_contract
                defaultEnv (request None None) 2000 emptyDb)
      as (_ & _ & _ & _ & _ & _ & H & _).
    apply (H aliceAccessToken
             (signedPayload aliceClaims
                (mkSignOptions 86400 JWTUtils.ISSUER JWTUtils.AUDIENCE) 1000));
      vm_compute; try reflexivity; discriminate.
Defined.

(** C1 as stated fails on a refresh token that has expired: Alice's
    refresh token, issued at second 1000 for seven days, carries type
    [refresh] in its signed payload, and presented at second 700000 it is
    answered with [AUTH_TOKEN_EXPIRED] and the message of an expired
    token, by the verification that comes before the check of the type. *)
Lemma C1_counterexample_expired_refresh_token :
  (exists sg,
      JWTUtils.decodeToken (lib := Ideal.lib) aliceRefreshToken
      = Ok (Some (mkComplete
                    (signedPayload
                       (mkClaims 7 (lit "alice@example.com") (lit "refresh"))
                       (mkSignOptions 604800 JWTUtils.ISSUER JWTUtils.AUDIENCE)
                       1000)
                    sg)))
  /\ Auth.authenticateToken (lib := Ideal.lib) defaultEnv
       (request (Some (lit "Bearer " ++ aliceRefreshToken)) None)
       700000 emptyDb
     = ([Auth.Verify aliceRefreshToken],
        Auth.Respond (Auth.mkResponse 401 AUTH_TOKEN_EXPIRED
                        (lit "Token has expired"))).
Proof.
  split; [eexists|]; vm_compute; reflexivity.
Qed.

(** C4, as amended.  The decision sequence of the mandatory gate, each
    step with the calls made up to it:
    (1) no header: 401 [AUTH_TOKEN_MISSING], nothing called;
    (2) a leading [Bearer ] is removed from the header, any other header is
        the token itself;
    (2a) an empty token: 401 [AUTH_TOKEN_MISSING], nothing called;
    (3) a non-empty token not of three segments: 401 [AUTH_TOKEN_INVALID],
        the verification not called;
    (4) the verification fails: 401, [AUTH_TOKEN_EXPIRED] for the expiry
        error and [AUTH_TOKEN_INVALID] for a bad signature or a token not
        yet active; an error of another kind is answered with the message
        [verifyToken] wraps it in, and with [AUTH_TOKEN_EXPIRED] exactly
        when that message contains [expired]; no user looked up;
    (4a) a verified token whose type is not [auth]: 401
        [AUTH_TOKEN_INVALID], no user looked up;
    (5) a verified [auth] token whose user is not found: 401
        [USER_NOT_FOUND];
    (6) otherwise the request goes on with the user and the token attached,
        its other fields unchanged. *)
Theorem C4_auth_gate_decision_sequence :
  forall (lib : JsonWebToken) (env : Env) (req : Auth.Request)
         (now : Z) (db : Db.t),
    let out := Auth.authenticateToken env req now db in
    ((Auth.authorization req = None \/ Auth.authorization req = Some []) ->
       out = ([], Auth.Respond (Auth.mkResponse 401 AUTH_TOKEN_MISSING
                                  (lit "Authorization header is required"))))
    /\ (forall t, Auth.extractToken (lit "Bearer " ++ t) = t)
    /\ (forall h, startsWith h (lit "Bearer ") = false -> Auth.extractToken h = h)
    /\ forall h,
         Auth.authorization req = Some h -> h <> [] ->
         let tok := Auth.extractToken h in
         (tok = [] ->
            out = ([], Auth.Respond (Auth.mkResponse 401 AUTH_TOKEN_MISSING
                                       (lit "Token is required"))))
         /\ (tok <> [] ->
             split_dot_length (JWTUtils.cleanToken tok) <> 3 ->
             out = ([], Auth.Respond (Auth.mkResponse 401 AUTH_TOKEN_INVALID
                                        (lit "Invalid token format"))))
         /\ (tok <> [] ->
             split_dot_length (JWTUtils.cleanToken tok) = 3 ->
             (forall e,
                 jwt_verify (JWTUtils.cleanToken tok) (secret (config_jwt env))
                   (mkVerifyOptions JWTUtils.ISSUER JWTUtils.AUDIENCE) now
                   = Err e ->
                 match name e with
                 | TokenExpiredError =>
                     out = ([Auth.Verify tok],
                            Auth.Respond (Auth.mkResponse 401 AUTH_TOKEN_EXPIRED
                                            (lit "Token has expired")))
                 | JsonWebTokenError =>
                     out = ([Auth.Verify tok],
                            Auth.Respond (Auth.mkResponse 401 AUTH_TOKEN_INVALID
                                            (lit "Invalid token")))
                 | NotBeforeError =>
                     out = ([Auth.Verify tok],
                            Auth.Respond (Auth.mkResponse 401 AUTH_TOKEN_INVALID
                                            (lit "Token not active yet")))
                 | OtherError =>
                     out = ([Auth.Verify tok],
                            Auth.Respond
                              (Auth.mkResponse 401
                                 (if includes
                                       (lit "Token verification failed: "
                                        ++ message e)
                                       (lit "expired")
                                  then AUTH_TOKEN_EXPIRED
                                  else AUTH_TOKEN_INVALID)
                                 (lit "Token verification failed: "
                                  ++ message e)))
                 end)
             /\ (forall d,
                   JWTUtils.verifyToken env tok JWTUtils.noOptions now = Ok d ->
                   (type d <> lit "auth" ->
                      out = ([Auth.Verify tok],
                             Auth.Respond (Auth.mkResponse 401 AUTH_TOKEN_INVALID
                                             (lit "Invalid token type"))))
                   /\ (type d = lit "auth" ->
                       User.findById db (userId d) = Ok None ->
                       out = ([Auth.Verify tok; Auth.FindById (userId d)],
                              Auth.Respond (Auth.mkResponse 401 USER_NOT_FOUND
                                              (lit "User not found"))))
                   /\ (forall u,
                         type d = lit "auth" ->
                         User.findById db (userId d) = Ok (Some u) ->
                         out = ([Auth.Verify tok; Auth.FindById (userId d)],
                                Auth.Next
                                  (Auth.mkRequest
                                     (Auth.authorization req)
                                     (Auth.paramUserId req) (Auth.paramId req)
                                     (Auth.bodyRefreshToken req)
                                     (Some u)
                                     (Some (Auth.mkTokenInfo tok d))
                                     (Auth.refreshToken req)))))).
Proof.
  intros lib env req now db out. subst out.
  split; [|split; [|split]].
  - unfold Auth.authenticateToken.
    intros [-> | ->]; reflexivity.
  - exact extractToken_bearer.
  - exact extractToken_plain.
  - intros h Hh Hne tok. subst tok.
    assert (Hfmt : Auth.extractToken h <> [] ->
                   JWTUtils.isValidTokenFormat (Auth.extractToken h)
                   = (split_dot_length
                        (JWTUtils.cleanToken (Auth.extractToken h)) =? 3)).
    { intros Ht. unfold JWTUtils.isValidTokenFormat.
      destruct (Auth.extractToken h); [congruence | reflexivity]. }
    split; [|split].
    + intros Ht.
      exact (authenticateToken_empty_token env req now db h Hh Hne Ht).
    + intros Ht Hseg.
      apply (authenticateToken_bad_format env req now db h Hh Ht).
      rewrite (Hfmt Ht). apply Z.eqb_neq, Hseg.
    + intros Ht Hseg.
      assert (Hvalid : JWTUtils.isValidTokenFormat (Auth.extractToken h) = true)
        by (rewrite (Hfmt Ht), Hseg; reflexivity).
      pose proof (authenticateToken_checked env req now db h Hh Ht Hvalid)
        as Hout.
      cbv zeta in Hout.
      split.
      * intros e He.
        rewrite (verifyToken_Err env (Auth.extractToken h) now e Ht He) in Hout.
        destruct (name e); exact Hout.
      * intros d Hv. rewrite Hv in Hout.
        split; [|split].
        -- intros Hty. apply streq_neq in Hty. rewrite Hty in Hout.
           exact Hout.
        -- intros Hty Hu. rewrite Hty, Hu in Hout. exact Hout.
        -- intros u Hty Hu. rewrite Hty, Hu in Hout. exact Hout.
Qed.

(** C4 as stated fails in three places.  The header [Bearer ], as a
    caller of the middleware can pass it, carries the empty token, which is
    not of three segments, and is answered with [AUTH_TOKEN_MISSING].
    Alice's refresh token verifies and no user has her id, and the gate
    answers [AUTH_TOKEN_INVALID], without looking the user up.  A token
    whose payload is not JSON is not an expired token: the package fails
    on it with an error of none of its three classes, whose message quotes
    the payload, [expired]; the gate answers [AUTH_TOKEN_EXPIRED]. *)
Lemma C4_counterexample_guards_and_other_error :
  (split_dot_length (JWTUtils.cleanToken (Auth.extractToken (lit "Bearer "))) = 1
   /\ Auth.authenticateToken (lib := Ideal.lib) defaultEnv
        (request (Some (lit "Bearer ")) None) 2000 emptyDb
      = ([], Auth.Respond (Auth.mkResponse 401 AUTH_TOKEN_MISSING
                             (lit "Token is required"))))
  /\ (JWTUtils.verifyToken (lib := Ideal.lib) defaultEnv aliceRefreshToken
        JWTUtils.noOptions 2000
      = Ok (signedPayload (mkClaims 7 (lit "alice@example.com") (lit "refresh"))
              (mkSignOptions 604800 JWTUtils.ISSUER JWTUtils.AUDIENCE) 1000)
      /\ User.findById emptyDb 7 = Ok None
      /\ Auth.authenticateToken (lib := Ideal.lib) defaultEnv
           (request (Some (lit "Bearer " ++ aliceRefreshToken)) None)
           2000 emptyDb
         = ([Auth.Verify aliceRefreshToken],
            Auth.Respond (Auth.mkResponse 401 AUTH_TOKEN_INVALID
                            (lit "Invalid token type"))))
  /\ (split_dot_length (JWTUtils.cleanToken Unparsed.token) = 3
      /\ jwt_verify (JsonWebToken := Unparsed.lib) Unparsed.token
           (secret (config_jwt defaultEnv))
           (mkVerifyOptions JWTUtils.ISSUER JWTUtils.AUDIENCE) 2000
         = Err Unparsed.syntaxError
      /\ name Unparsed.syntaxError = OtherError
      /\ Auth.authenticateToken (lib := Unparsed.lib) defaultEnv
           (request (Some (lit "Bearer " ++ Unparsed.token)) None)
           2000 emptyDb
         = ([Auth.Verify Unparsed.token],
            Auth.Respond
              (Auth.mkResponse 401 AUTH_TOKEN_EXPIRED
                 (lit "Token verification failed: "
                  ++ message Unparsed.syntaxError)))).
Proof. repeat split; vm_compute; reflexivity. Qed.

(** ** The ownership gate *)

(** A string whose first code unit after leading white space is neither a
    sign nor a digit does not parse. *)
Lemma parseInt_no_digit (c : N) (s : jsstr) :
  isWhiteSpace c = false ->
  Auth.digitValue c = None ->
  c <> 45%N -> c <> 43%N ->
  Auth.parseInt (c :: s) = None.
Proof.
  intros Hws Hd Hm Hp. unfold Auth.parseInt. simpl trimStart. rewrite Hws.
  apply N.eqb_neq in Hm. apply N.eqb_neq in Hp. rewrite Hm, Hp.
  assert (Hz : (c =? 48)%N = false).
  { apply N.eqb_neq. intros ->. discriminate Hd. }
  destruct s as [|x s]; rewrite ?Hz; simpl; rewrite Hd; reflexivity.
Qed.









(** What [parseInt] makes of some path parameters. *)
Example parseInt_examples :
  Auth.parseInt (lit "42") = Some 42
  /\ Auth.parseInt (lit "abc") = None
  /\ Auth.parseInt (lit "") = None
  /\ Auth.parseInt (lit "12abc") = Some 12
  /\ Auth.parseInt (lit " -7") = Some (-7)
  /\ Auth.parseInt (lit "0x1f") = Some 31
  /\ Auth.parseInt (lit "undefined") = None.
Proof. repeat split; reflexivity. Qed.

(** ** The credential store *)

Lemma splitAtSign_app (e l d : jsstr) :
  User.splitAtSign e = Some (l, d) -> e = l ++ User.at_sign :: d.
Proof.
  revert l d. induction e as [|c e IH]; intros l d; simpl; [discriminate|].
  destruct (N.eqb_spec c User.at_sign) as [->|_].
  - intros [= <- <-]. reflexivity.
  - destruct (User.splitAtSign e) as [[l' d']|]; [|discriminate].
    intros [= <- <-]. simpl. f_equal. apply IH. reflexivity.
Qed.

Lemma forallb_addr_no_space (s : jsstr) :
  forallb User.isAddrChar s = true -> existsb isWhiteSpace s = false.
Proof.
  induction s as [|c s IH]; simpl; [reflexivity|].
  intros H. apply andb_prop in H as [Hc Hs]. rewrite (IH Hs).
  unfold User.isAddrChar in Hc. apply andb_prop in Hc as [Hc _].
  apply negb_true_iff in Hc. rewrite Hc. reflexivity.
Qed.

(** The e-mail pattern admits no white space anywhere. *)
Lemma isValidEmail_no_space (e : jsstr) :
  User.isValidEmail e = true -> existsb isWhiteSpace e = false.
Proof.
  unfold User.isValidEmail.
  destruct (User.splitAtSign e) as [[l d]|] eqn:Hs; [|discriminate].
  intros H. apply splitAtSign_app in Hs. subst e.
  repeat (apply andb_prop in H as [H ?]).
  apply existsb_app_false; [apply forallb_addr_no_space; assumption|].
  simpl. apply forallb_addr_no_space. assumption.
Qed.

Lemma trimStart_no_space (s : jsstr) :
  existsb isWhiteSpace s = false -> trimStart s = s.
Proof.
  destruct s as [|c s]; simpl; [reflexivity|].
  intros H. apply orb_false_elim in H as [-> _]. reflexivity.
Qed.

Lemma existsb_rev {A} (f : A -> bool) (l : list A) :
  existsb f (rev l) = existsb f l.
Proof.
  induction l as [|x l IH]; simpl; [reflexivity|].
  rewrite existsb_app, IH. simpl. rewrite orb_false_r. apply orb_comm.
Qed.

(** A string that [trim] changes has white space in it. *)
Lemma trim_changes_space (s : jsstr) :
  trim s <> s -> existsb isWhiteSpace s = true.
Proof.
  intros H. destruct (existsb isWhiteSpace s) eqn:E; [reflexivity|].
  exfalso. apply H. unfold trim.
  rewrite (trimStart_no_space s E).
  rewrite trimStart_no_space; [apply rev_involutive|].
  rewrite existsb_rev. exact E.
Qed.

Section CredentialStore.
Variable toLowerCase : jsstr -> jsstr.
Variable bcrypt_hash : jsstr -> Z -> jsstr.

Local Abbreviation create := (User.create toLowerCase bcrypt_hash).

(** [create] refuses an address with white space around it as malformed,
    before it looks at the store. *)
Lemma create_padded_email (e pw : jsstr) (now : Z) (db : Db.t) :
  e <> [] -> pw <> [] ->
  trim e <> e ->
  create (Some e) (Some pw) now db
  = (Err (User.Message (lit "Invalid email format")), db).
Proof.
  intros He Hpw Htrim. unfold User.create.
  destruct e as [|c e]; [congruence|]. destruct pw as [|p pw]; [congruence|].
  destruct (User.isValidEmail (c :: e)) eqn:Hv; [|reflexivity].
  apply isValidEmail_no_space in Hv.
  rewrite (trim_changes_space _ Htrim) in Hv. discriminate Hv.
Qed.

(** With a row whose address is the lower-cased argument in the store,
    [create] fails and leaves the store as it is; when the arguments pass
    validation, the failure is the one of an existing user. *)
Lemma create_existing (e' : jsstr) (pw : option jsstr) (now : Z) (db : Db.t)
    (r : Db.Row) :
  Db.pool db = true ->
  In r (Db.users db) ->
  Db.email r = toLowerCase e' ->
  exists m,
    create (Some e') pw now db = (Err (User.Message m), db)
    /\ (User.isValidEmail e' = true ->
        forall pw', pw = Some pw' -> User.isValidPassword pw' = true ->
        m = lit "User with this email already exists").
Proof.
  intros Hpool Hin Hr. unfold User.create.
  destruct e' as [|c e'].
  { eexists. split; [reflexivity|]. intros H. discriminate H. }
  destruct pw as [[|p pw]|].
  { eexists. split; [reflexivity|]. intros _ pw' [= <-] H. discriminate H. }
  2: { eexists. split; [reflexivity|]. intros _ pw' H. discriminate H. }
  destruct (User.isValidEmail (c :: e')); cbn [negb].
  2: { eexists. split; [reflexivity|]. intros H. discriminate H. }
  destruct (User.isValidPassword (p :: pw)) eqn:Hpw; cbn [negb].
  2: { eexists. split; [reflexivity|]. intros _ pw' [= <-] H. congruence. }
  unfold User.findByEmail, Db.selectByEmail. rewrite Hpool.
  destruct (List.filter _ (Db.users db)) as [|r0 rs] eqn:Hf.
  - exfalso.
    assert (Hin' : In r (List.filter
                           (fun r => streq (Db.email r) (toLowerCase (c :: e')))
                           (Db.users db))).
    { apply filter_In. split; [exact Hin|]. apply streq_eq, Hr. }
    rewrite Hf in Hin'. exact Hin'.
  - eexists. split; reflexivity.
Qed.

(** A successful [create] stores the address exactly as it was passed, in
    one new row at the end of the table. *)
Lemma create_Ok (e pw : option jsstr) (now : Z) (db db' : Db.t) (u : User.t) :
  create e pw now db = (Ok u, db') ->
  exists e0 pw0,
    e = Some e0 /\ pw = Some pw0
    /\ User.isValidEmail e0 = true
    /\ User.email u = e0
    /\ Db.pool db' = true
    /\ Db.users db' =
         Db.users db
         ++ [Db.mkRow (User.id u) e0 (User.hashPassword bcrypt_hash pw0) now now]
    /\ Forall (fun r => Db.email r <> e0) (Db.users db).
Proof.
  unfold User.create.
  destruct e as [[|c e]|]; try discriminate.
  destruct pw as [[|p pw]|]; try discriminate.
  destruct (User.isValidEmail (c :: e)) eqn:Hv; cbn [negb]; [|discriminate].
  destruct (User.isValidPassword (p :: pw)); cbn [negb]; [|discriminate].
  destruct (User.findByEmail toLowerCase db (c :: e)) as [[u0|]|err];
    try discriminate.
  unfold Db.insertUser.
  destruct (Db.pool db) eqn:Hpool; [|discriminate].
  destruct (existsb _ (Db.users db)) eqn:Hex; [discriminate|].
  intros [= <- <-]. exists (c :: e), (p :: pw). simpl.
  repeat split; try reflexivity; try assumption.
  apply List.Forall_forall. intros r Hr Heq.
  assert (Ht : existsb (fun r => streq (Db.email r) (c :: e)) (Db.users db) = true).
  { apply existsb_exists. exists r. split; [exact Hr | apply streq_eq, Heq]. }
  congruence.
Qed.

(** What [create] does to the table: nothing, or one new row with the
    address it was given, which no row had. *)
Lemma create_users (e pw : option jsstr) (now : Z) (db : Db.t) :
  let db' := (create e pw now db).2 in
  Db.users db' = Db.users db
  \/ exists e0 row,
       e = Some e0 /\ Db.email row = e0
       /\ Db.users db' = Db.users db ++ [row]
       /\ Forall (fun r => Db.email r <> e0) (Db.users db).
Proof.
  destruct (create e pw now db) as [[u|err] db'] eqn:Hc; cbn [snd].
  - destruct (create_Ok e pw now db db' u Hc)
      as (e0 & pw0 & -> & -> & _ & _ & _ & Hu & Hfresh).
    right. eexists e0, _. repeat split; [|exact Hu|exact Hfresh]. reflexivity.
  - left. revert Hc. unfold User.create.
    destruct e as [[|c e]|]; try (intros [= _ <-]; reflexivity).
    destruct pw as [[|p pw]|]; try (intros [= _ <-]; reflexivity).
    destruct (User.isValidEmail (c :: e)); cbn [negb];
      [|intros [= _ <-]; reflexivity].
    destruct (User.isValidPassword (p :: pw)); cbn [negb];
      [|intros [= _ <-]; reflexivity].
    destruct (User.findByEmail toLowerCase db (c :: e)) as [[u0|]|e1];
      try (intros [= _ <-]; reflexivity).
    unfold Db.insertUser.
    destruct (Db.pool db); [|intros [= _ <-]; reflexivity].
    destruct (existsb _ (Db.users db)); [|discriminate].
    intros [= _ <-]. reflexivity.
Qed.

(** A table of lower-case addresses, one record each, stays so under
    [create] with a lower-case address. *)
Lemma create_preserves_invariant (e pw : option jsstr) (now : Z) (db : Db.t) :
  (forall e0, e = Some e0 -> toLowerCase e0 = e0) ->
  StoreInvariant.normalizedStore toLowerCase db ->
  StoreInvariant.onePerNormalizedEmail toLowerCase db ->
  StoreInvariant.normalizedStore toLowerCase (create e pw now db).2
  /\ StoreInvariant.onePerNormalizedEmail toLowerCase (create e pw now db).2.
Proof.
  intros Hlow Hnorm Hone.
  unfold StoreInvariant.normalizedStore, StoreInvariant.onePerNormalizedEmail
    in *.
  destruct (create_users e pw now db) as [->|(e0 & row & He & Hrow & -> & Hfresh)];
    [split; assumption|].
  specialize (Hlow e0 He). split.
  - apply Forall_app. split; [exact Hnorm|].
    constructor; [|constructor]. rewrite Hrow. exact Hlow.
  - rewrite map_app. cbn [map]. rewrite Hrow, Hlow.
    apply NoDup_app. split; [exact Hone|]. split; [|apply NoDup_singleton].
    intros x Hx Hx'. apply list_elem_of_singleton in Hx'. subst x.
    apply list_elem_of_In, in_map_iff in Hx as (r & Hr & Hin).
    rewrite List.Forall_forall in Hfresh, Hnorm.
    apply (Hfresh r Hin). rewrite <- (Hnorm r Hin). exact Hr.
Qed.

End CredentialStore.

(** C9, as amended.  After a successful [create] with an address [e] that
    is already in lower case: the new user and the one new row carry [e];
    a [create] with any string whose lower-casing is [e] fails and leaves
    the table as it is, with the error of an existing user when the
    arguments pass validation; a [create] with a string that has white
    space around it fails as a malformed address; and a table of
    lower-case addresses with one record each is again such a table. *)
Theorem C9_unique_email_for_normalized_input :
  forall (toLowerCase : jsstr -> jsstr) (bcrypt_hash : jsstr -> Z -> jsstr)
         (e pw : jsstr) (now : Z) (db db' : Db.t) (u : User.t),
    User.create toLowerCase bcrypt_hash (Some e) (Some pw) now db = (Ok u, db') ->
    toLowerCase e = e ->
    (User.email u = e
     /\ exists row, Db.users db' = Db.users db ++ [row] /\ Db.email row = e)
    /\ (forall e' pw' now',
          toLowerCase e' = e ->
          exists m,
            User.create toLowerCase bcrypt_hash (Some e') pw' now' db'
            = (Err (User.Message m), db')
            /\ (User.isValidEmail e' = true ->
                forall p, pw' = Some p -> User.isValidPassword p = true ->
                m = lit "User with this email already exists"))
    /\ (forall e' pw' now',
          e' <> [] -> pw' <> [] -> trim e' <> e' ->
          User.create toLowerCase bcrypt_hash (Some e') (Some pw') now' db'
          = (Err (User.Message (lit "Invalid email format")), db'))
    /\ (StoreInvariant.normalizedStore toLowerCase db ->
        StoreInvariant.onePerNormalizedEmail toLowerCase db ->
        StoreInvariant.normalizedStore toLowerCase db'
        /\ StoreInvariant.onePerNormalizedEmail toLowerCase db').
Proof.
  intros toLowerCase bcrypt_hash e pw now db db' u Hc Hlow.
  destruct (create_Ok toLowerCase bcrypt_hash _ _ _ _ _ _ Hc)
    as (e0 & pw0 & [= <-] & [= <-] & Hv & Hu & Hpool & Husers & Hfresh).
  split; [|split; [|split]].
  - split; [exact Hu|]. eexists. split; [exact Husers | reflexivity].
  - intros e' pw' now' He'.
    apply (create_existing toLowerCase bcrypt_hash e' pw' now' db'
             (Db.mkRow (User.id u) e
                (User.hashPassword bcrypt_hash pw) now now)).
    + exact Hpool.
    + rewrite Husers. apply in_or_app. right. left. reflexivity.
    + simpl. symmetry. exact He'.
  - intros e' pw' now'. apply create_padded_email.
  - intros Hnorm Hone.
    pose proof (create_preserves_invariant toLowerCase bcrypt_hash
                  (Some e) (Some pw) now db) as H.
    rewrite Hc in H. apply H; [|exact Hnorm|exact Hone].
    intros e0 [= <-]. exact Hlow.
Qed.

(** C9 at a concrete registration: after alice@example.com is created in
    the empty store, the same address in another letter case is refused as
    existing, and the address with a space before it as malformed. *)
Lemma C9_witness :
  let db' := (User.create JS.toLowerCase exampleHash
                (Some (lit "alice@example.com")) (Some (lit "secret1"))
                100 emptyDb).2 in
  User.create JS.toLowerCase exampleHash
    (Some (lit "Alice@Example.COM")) (Some (lit "secret2")) 200 db'
  = (Err (User.Message (lit "User with this email already exists")), db')
  /\ User.create JS.toLowerCase exampleHash
       (Some (lit " alice@example.com")) (Some (lit "secret2")) 200 db'
     = (Err (User.Message (lit "Invalid email format")), db').
Proof.
  destruct (C9_unique_email_for_normalized_input JS.toLowerCase exampleHash
              (lit "alice@example.com") (lit "secret1") 100 emptyDb
              (Db.mkDb true
                 [Db.mkRow 1 (lit "alice@example.com")
                    (exampleHash (lit "secret1") 12) 100 100] 1)
              (User.mkUser 1 (lit "alice@example.com") None 100 100)
              eq_refl eq_refl)
    as (_ & Hdup & Hpad & _).
  split.
  - destruct (Hdup (lit "Alice@Example.COM") (Some (lit "secret2")) 200 eq_refl)
      as (m & Hm & Hmsg).
    rewrite (Hmsg eq_refl (lit "secret2") eq_refl eq_refl) in Hm. exact Hm.
  - apply Hpad; [discriminate | discriminate |].
    vm_compute. discriminate.
Defined.

(** C9 as stated fails.  [create] stores User@Example.com as it is
    written; a second [create] with user@example.com then succeeds, and
    the table holds two records whose normalized address is the same; a
    second [create] with User@Example.com itself is stopped by the store's
    constraint, not by the check for an existing user; and the address
    with a space before it is refused as malformed. *)
Lemma C9_counterexample_mixed_case :
  let mixed := lit "User@Example.com" in
  let lower := lit "user@example.com" in
  let '(r1, db1) := User.create JS.toLowerCase exampleHash
                      (Some mixed) (Some (lit "secret1")) 100 emptyDb in
  let '(r2, db2) := User.create JS.toLowerCase exampleHash
                      (Some lower) (Some (lit "secret2")) 200 db1 in
  r1 = Ok (User.mkUser 1 mixed None 100 100)
  /\ r2 = Ok (User.mkUser 2 lower None 200 200)
  /\ map Db.email (Db.users db2) = [mixed; lower]
  /\ map (fun r => JS.trim (JS.toLowerCase (Db.email r))) (Db.users db2)
     = [lower; lower]
  /\ (User.create JS.toLowerCase exampleHash
        (Some mixed) (Some (lit "secret3")) 300 db1).1
     = Err (User.Store Db.UniqueViolation)
  /\ (User.create JS.toLowerCase exampleHash
        (Some (lit " user@example.com")) (Some (lit "secret3")) 300 db2).1
     = Err (User.Message (lit "Invalid email format")).
Proof. vm_compute. repeat split; reflexivity. Qed.

(** The ownership gate on a request of user 1 for the path parameters
    [abc], [1] and [2]. *)
Example requireOwnership_examples :
  let u := User.mkUser 1 (lit "alice@example.com") None 100 100 in
  let t := Auth.mkTokenInfo aliceAccessToken alicePayload in
  let req (p : string) :=
    Auth.mkRequest None None (Some (lit p)) None (Some u) (Some t) None in
  Auth.requireOwnership (req "abc"%string)
  = Auth.Respond (Auth.mkResponse 403 AUTH_CREDENTIALS_INVALID
                    (lit "Access denied: insufficient permissions"))
  /\ Auth.requireOwnership (req "1"%string) = Auth.Next (req "1"%string)
  /\ Auth.requireOwnership (req "2"%string)
     = Auth.Respond (Auth.mkResponse 403 AUTH_CREDENTIALS_INVALID
                       (lit "Access denied: insufficient permissions")).
Proof. repeat split; reflexivity. Qed.

(* ===================================================================== *)
(** * Further properties of the code *)
(* ===================================================================== *)

(** ** The rate limiter over time *)

Lemma ceil_div_1000_bounds (x : Z) :
  x <= 1000 * ceil_div_1000 x < x + 1000.
Proof.
  unfold ceil_div_1000.
  pose proof (Z.mul_div_le (- x) 1000 ltac:(lia)).
  pose proof (Z.mul_succ_div_gt (- x) 1000 ltac:(lia)).
  lia.
Qed.

(** What [checkRateLimit] answers depends on the store only through the
    record of its key. *)
Lemma checkRateLimit_result_lookup (key : jsstr) (maxAttempts windowMs now : Z)
    (store store' : SecurityUtils.RateLimitStore) :
  store !! key = store' !! key ->
  (SecurityUtils.checkRateLimit key maxAttempts windowMs now store).1
  = (SecurityUtils.checkRateLimit key maxAttempts windowMs now store').1.
Proof.
  intros H. unfold SecurityUtils.checkRateLimit. rewrite H.
  destruct (store' !! key) as [[a rt]|]; cbn [default];
    repeat match goal with
           | |- context [if ?b then _ else _] => destruct b
           end; reflexivity.
Qed.

(** What [cleanupRateLimit] leaves of a record. *)
Lemma cleanupRateLimit_lookup (now : Z) (store : SecurityUtils.RateLimitStore)
    (k : jsstr) :
  SecurityUtils.cleanupRateLimit now store !! k
  = match store !! k with
    | Some r => if now >? SecurityUtils.resetTime r then None else Some r
    | None => None
    end.
Proof.
  unfold SecurityUtils.cleanupRateLimit. apply option_eq. intros x.
  rewrite map_lookup_filter_Some. cbn [snd].
  destruct (store !! k) as [r|]; [|split; [intros [? _]|]; discriminate].
  destruct (now >? SecurityUtils.resetTime r) eqn:E; split.
  - intros [[= <-] H]. congruence.
  - discriminate.
  - intros [H _]. exact H.
  - intros [= <-]. split; [reflexivity | exact E].
Qed.

Section RateLimiterOverTime.
Import SecurityUtils.

Variable key : jsstr.
Variable maxAttempts : Z.

(** Once the window of a record has passed, the next call opens a new
    window and counts as its first attempt. *)
Lemma checkRateLimit_expired (windowMs now a rt : Z) (store : RateLimitStore) :
  store !! key = Some (mkRate a rt) ->
  rt < now ->
  0 < maxAttempts ->
  checkRateLimit key maxAttempts windowMs now store =
    (mkRateResult true (maxAttempts - 1) (now + windowMs) 0,
     <[key := mkRate 1 (now + windowMs)]> store).
Proof.
  intros Hs Hrt Hmax. unfold checkRateLimit. rewrite Hs. simpl.
  rewrite Z.gtb_ltb.
  destruct (rt <? now) eqn:E1; [|apply Z.ltb_ge in E1; lia]. simpl.
  rewrite Z.geb_leb.
  destruct (maxAttempts <=? 0) eqn:E2; [apply Z.leb_le in E2; lia|].
  reflexivity.
Qed.

(** A call that is denied was decided on a record of the store, inside its
    window, and leaves the store as it is. *)
Lemma checkRateLimit_denial (windowMs now : Z) (store store' : RateLimitStore)
    (res : RateLimitResult) :
  0 < maxAttempts ->
  checkRateLimit key maxAttempts windowMs now store = (res, store') ->
  allowed res = false ->
  exists a rt,
    store !! key = Some (mkRate a rt) /\ now <= rt /\ maxAttempts <= a
    /\ res = mkRateResult false 0 rt (ceil_div_1000 (rt - now))
    /\ store' = store.
Proof.
  intros Hmax Hc Hden.
  destruct (store !! key) as [[a rt]|] eqn:Hs.
  - destruct (Z.leb_spec now rt) as [Hin|Hout].
    + destruct (Z.leb_spec maxAttempts a) as [Hge|Hlt].
      * rewrite (checkRateLimit_denied key maxAttempts windowMs now a rt store
                   Hs Hin Hge) in Hc.
        injection Hc as <- <-. exists a, rt. auto.
      * rewrite (checkRateLimit_counted key maxAttempts windowMs now a rt store
                   Hs Hin Hlt) in Hc.
        injection Hc as <- <-. discriminate Hden.
    + rewrite (checkRateLimit_expired windowMs now a rt store Hs Hout Hmax)
        in Hc.
      injection Hc as <- <-. discriminate Hden.
  - rewrite (checkRateLimit_fresh key maxAttempts windowMs now store Hs Hmax)
      in Hc.
    injection Hc as <- <-. discriminate Hden.
Qed.

(** X1.  The answer of a denied call can be relied on.  [retryAfter] is
    the time left in the window, in seconds rounded up; any call made more
    than [retryAfter] seconds after the denial is allowed again and is the
    first attempt of a new window; a call made while the window lasts is
    denied like the first. *)
Theorem checkRateLimit_retry_after :
  forall (windowMs now : Z) (store store' : RateLimitStore)
         (res : RateLimitResult) (windowMs' now' : Z),
    0 < maxAttempts ->
    checkRateLimit key maxAttempts windowMs now store = (res, store') ->
    allowed res = false ->
    (resultResetTime res - now <= 1000 * retryAfter res
       < resultResetTime res - now + 1000)
    /\ (now + 1000 * retryAfter res < now' ->
        (checkRateLimit key maxAttempts windowMs' now' store').1
        = mkRateResult true (maxAttempts - 1) (now' + windowMs') 0)
    /\ (now' <= resultResetTime res ->
        allowed (checkRateLimit key maxAttempts windowMs' now' store').1
        = false).
Proof.
  intros windowMs now store store' res windowMs' now' Hmax Hc Hden.
  destruct (checkRateLimit_denial windowMs now store store' res Hmax Hc Hden)
    as (a & rt & Hs & Hin & Hge & -> & ->).
  cbn [resultResetTime retryAfter].
  pose proof (ceil_div_1000_bounds (rt - now)) as Hb.
  split; [exact Hb|]. split.
  - intros Hlater.
    rewrite (checkRateLimit_expired windowMs' now' a rt store Hs) by lia.
    reflexivity.
  - intros Hstill.
    rewrite (checkRateLimit_denied key maxAttempts windowMs' now' a rt store
               Hs Hstill Hge).
    reflexivity.
Qed.

(** Calls inside the window of a record count up from its [attempts]. *)
Lemma checkRateLimitEach_counted (windowMs rt : Z) (nows : list Z) :
  forall (a : Z) (store : RateLimitStore),
    store !! key = Some (mkRate a rt) ->
    Forall (fun t => t <= rt) nows ->
    forall (i : nat) (t : Z),
      nows !! i = Some t ->
      (checkRateLimitEach key maxAttempts windowMs nows store).1 !! i
      = Some (if a + Z.of_nat i <? maxAttempts
              then mkRateResult true (maxAttempts - (a + Z.of_nat i) - 1) rt 0
              else mkRateResult false 0 rt (ceil_div_1000 (rt - t))).
Proof.
  induction nows as [|now rest IH]; intros a store Hs Hall i t Hi;
    [discriminate Hi|].
  apply Forall_cons in Hall as [Hnow Hrest].
  cbn [checkRateLimitEach fst].
  destruct (Z.leb_spec maxAttempts a) as [Hge|Hlt].
  - rewrite (checkRateLimit_denied key maxAttempts windowMs now a rt store
               Hs Hnow Hge).
    cbn [fst snd]. destruct i as [|i]; rewrite lookup_cons in Hi; rewrite lookup_cons.
    + injection Hi as <-.
      destruct (Z.ltb_spec (a + Z.of_nat 0) maxAttempts); [lia | reflexivity].
    + rewrite (IH a store Hs Hrest i t Hi).
      destruct (Z.ltb_spec (a + Z.of_nat i) maxAttempts); [lia|].
      destruct (Z.ltb_spec (a + Z.of_nat (S i)) maxAttempts); [lia | reflexivity].
  - rewrite (checkRateLimit_counted key maxAttempts windowMs now a rt store
               Hs Hnow Hlt).
    cbn [fst snd]. destruct i as [|i]; rewrite lookup_cons in Hi; rewrite lookup_cons.
    + injection Hi as <-.
      destruct (Z.ltb_spec (a + Z.of_nat 0) maxAttempts); [|lia].
      do 2 f_equal. lia.
    + rewrite (IH (a + 1) _ (lookup_insert_eq _ _ _) Hrest i t Hi).
      replace (a + 1 + Z.of_nat i) with (a + Z.of_nat (S i)) by lia. reflexivity.
Qed.

(** X2.  At most [maxAttempts] calls per window.  For a key with no record
    and any number of calls, the later ones not after the end of the window
    the first call opens: call number [i] (from 0) is allowed exactly when
    [i < maxAttempts], with [remaining] counting down to 0, and every
    answer carries the end of that one window. *)
Theorem checkRateLimit_burst :
  forall (windowMs t1 : Z) (rest : list Z) (store : RateLimitStore),
    store !! key = None ->
    0 < maxAttempts ->
    Forall (fun t => t <= t1 + windowMs) rest ->
    forall (i : nat) (t : Z),
      (t1 :: rest) !! i = Some t ->
      (checkRateLimitEach key maxAttempts windowMs (t1 :: rest) store).1 !! i
      = Some (if Z.of_nat i <? maxAttempts
              then mkRateResult true (maxAttempts - Z.of_nat i - 1)
                     (t1 + windowMs) 0
              else mkRateResult false 0 (t1 + windowMs)
                     (ceil_div_1000 (t1 + windowMs - t))).
Proof.
  intros windowMs t1 rest store Hfresh Hmax Hall i t Hi.
  cbn [checkRateLimitEach fst].
  rewrite (checkRateLimit_fresh key maxAttempts windowMs t1 store Hfresh Hmax).
  cbn [fst snd]. destruct i as [|i]; rewrite lookup_cons in Hi; rewrite lookup_cons.
  - destruct (Z.ltb_spec (Z.of_nat 0) maxAttempts); [|lia]. do 2 f_equal. lia.
  - rewrite (checkRateLimitEach_counted windowMs (t1 + windowMs) rest 1 _
               (lookup_insert_eq _ _ _) Hall i t Hi).
    replace (1 + Z.of_nat i) with (Z.of_nat (S i)) by lia.
    destruct (Z.ltb_spec (Z.of_nat (S i)) maxAttempts); reflexivity.
Qed.

(** What [cleanupRateLimit] keeps, and the next call of [checkRateLimit]
    after it: the answer is the same with and without the cleanup,
    whatever [maxAttempts] is. *)
Lemma cleanupRateLimit_next_call :
  forall (windowMs now now' : Z) (store : RateLimitStore),
    now <= now' ->
    (forall (k : jsstr) (r : RateRecord),
        cleanupRateLimit now store !! k = Some r
        <-> store !! k = Some r /\ now <= resetTime r)
    /\ (checkRateLimit key maxAttempts windowMs now'
          (cleanupRateLimit now store)).1
       = (checkRateLimit key maxAttempts windowMs now' store).1.
Proof.
  intros windowMs now now' store Hle. split.
  - intros k r. rewrite cleanupRateLimit_lookup.
    destruct (store !! k) as [r0|]; [|split; [intros [=] | intros [[=] _]]].
    destruct (Z.gtb_spec now (resetTime r0)) as [Hgt|Hin]; cbv iota; split.
    + discriminate.
    + intros [[= ->] H]. lia.
    + intros [= ->]. auto.
    + intros [H _]. exact H.
  - unfold checkRateLimit. rewrite cleanupRateLimit_lookup.
    destruct (store !! key) as [[a rt]|];
      cbn [from_option id resetTime attempts].
    2: { repeat match goal with
                | |- context [if ?b then _ else _] =>
                    destruct b; cbn [resetTime attempts]
                end; reflexivity. }
    destruct (Z.gtb_spec now rt) as [Hgt|Hin];
      cbn [from_option id resetTime attempts].
    + destruct (Z.gtb_spec now' rt) as [_|Hn]; [|lia].
      destruct (now' >? now' + windowMs); cbn [resetTime attempts];
        destruct (0 >=? maxAttempts); reflexivity.
    + repeat match goal with
             | |- context [if ?b then _ else _] =>
                 destruct b; cbn [resetTime attempts]
             end; reflexivity.
Qed.

(** X4.  Keys do not interfere.  A call or a reset for one key leaves the
    record of every other key as it is, and the answer for a key is the
    same whatever is recorded, changed or reset for another key. *)
Theorem checkRateLimit_keys_independent :
  forall (key' : jsstr) (windowMs now : Z) (store : RateLimitStore),
    key <> key' ->
    (checkRateLimit key maxAttempts windowMs now store).2 !! key'
    = store !! key'
    /\ resetRateLimit key store !! key' = store !! key'
    /\ (forall r,
          (checkRateLimit key maxAttempts windowMs now (<[key' := r]> store)).1
          = (checkRateLimit key maxAttempts windowMs now store).1)
    /\ (checkRateLimit key maxAttempts windowMs now
          (resetRateLimit key' store)).1
       = (checkRateLimit key maxAttempts windowMs now store).1
    /\ (forall maxAttempts' windowMs' now',
          (checkRateLimit key maxAttempts windowMs now
             (checkRateLimit key' maxAttempts' windowMs' now' store).2).1
          = (checkRateLimit key maxAttempts windowMs now store).1).
Proof.
  intros key' windowMs now store Hne.
  split; [apply checkRateLimit_other_key, Hne|].
  split; [apply lookup_delete_ne, Hne|].
  split; [|split].
  - intros r. apply checkRateLimit_result_lookup.
    apply lookup_insert_ne. congruence.
  - apply checkRateLimit_result_lookup.
    apply lookup_delete_ne. congruence.
  - intros maxAttempts' windowMs' now'. apply checkRateLimit_result_lookup.
    apply checkRateLimit_other_key. congruence.
Qed.

End RateLimiterOverTime.

(** The store after a cleanup is the store without expired records. *)
Lemma withoutExpired_cleanup (now : Z) (store : SecurityUtils.RateLimitStore) :
  withoutExpired now store (SecurityUtils.cleanupRateLimit now store).
Proof.
  intros k. rewrite cleanupRateLimit_lookup.
  destruct (store !! k) as [r|]; [|left; reflexivity].
  destruct (Z.gtb_spec now (SecurityUtils.resetTime r)) as [Hgt|Hle].
  - right. split; [reflexivity|]. exists r. split; [reflexivity | lia].
  - left. reflexivity.
Qed.

(** After a call, the record of its key depends on the store only through
    the record of that key. *)
Lemma checkRateLimit_key_lookup (key : jsstr) (maxAttempts windowMs now : Z)
    (store store' : SecurityUtils.RateLimitStore) :
  store !! key = store' !! key ->
  (SecurityUtils.checkRateLimit key maxAttempts windowMs now store).2 !! key
  = (SecurityUtils.checkRateLimit key maxAttempts windowMs now store').2 !! key.
Proof.
  intros H. unfold SecurityUtils.checkRateLimit. rewrite H.
  destruct (store' !! key) as [[a rt]|] eqn:Hs; cbn [default];
    repeat match goal with
           | |- context [if ?b then _ else _] => destruct b
           end; cbn [snd]; rewrite ?lookup_insert_eq; try reflexivity;
    congruence.
Qed.

(** A check with a positive [maxAttempts], at [start] or later, answers the
    same on a store and on the store without its expired records, and
    keeps the two stores so related. *)
Lemma withoutExpired_check (start : Z) (key : jsstr)
    (maxAttempts windowMs now : Z)
    (store cleaned : SecurityUtils.RateLimitStore) :
  withoutExpired start store cleaned ->
  0 < maxAttempts -> start <= now ->
  (SecurityUtils.checkRateLimit key maxAttempts windowMs now cleaned).1
  = (SecurityUtils.checkRateLimit key maxAttempts windowMs now store).1
  /\ withoutExpired start
       (SecurityUtils.checkRateLimit key maxAttempts windowMs now store).2
       (SecurityUtils.checkRateLimit key maxAttempts windowMs now cleaned).2.
Proof.
  intros Hrel Hmax Hnow.
  assert (Hother : forall k : jsstr,
             key <> k ->
             (SecurityUtils.checkRateLimit key maxAttempts windowMs now
                cleaned).2 !! k = cleaned !! k
             /\ (SecurityUtils.checkRateLimit key maxAttempts windowMs now
                   store).2 !! k = store !! k).
  { intros k Hk. split; apply checkRateLimit_other_key; exact Hk. }
  destruct (Hrel key) as [Heq|(Hnone & [a rt] & Hsome & Hrt)].
  - split.
    + apply checkRateLimit_result_lookup, Heq.
    + intros k. destruct (decide (key = k)) as [<-|Hk].
      * left. apply checkRateLimit_key_lookup, Heq.
      * destruct (Hother k Hk) as [-> ->]. apply Hrel.
  - cbn [SecurityUtils.resetTime] in Hrt.
    rewrite (checkRateLimit_expired key maxAttempts windowMs now a rt store
               Hsome ltac:(lia) Hmax).
    rewrite (checkRateLimit_fresh key maxAttempts windowMs now cleaned
               Hnone Hmax).
    split; [reflexivity|].
    intros k. cbn [snd]. destruct (decide (key = k)) as [<-|Hk].
    + left. rewrite !lookup_insert_eq. reflexivity.
    + rewrite !lookup_insert_ne by exact Hk. apply Hrel.
Qed.

Lemma withoutExpired_reset (start : Z) (key : jsstr)
    (store cleaned : SecurityUtils.RateLimitStore) :
  withoutExpired start store cleaned ->
  withoutExpired start (SecurityUtils.resetRateLimit key store)
    (SecurityUtils.resetRateLimit key cleaned).
Proof.
  intros Hrel k. unfold SecurityUtils.resetRateLimit.
  destruct (decide (key = k)) as [<-|Hk].
  - left. rewrite !lookup_delete_eq. reflexivity.
  - rewrite !lookup_delete_ne by exact Hk. apply Hrel.
Qed.

Lemma withoutExpired_later_cleanup (start now : Z)
    (store cleaned : SecurityUtils.RateLimitStore) :
  withoutExpired start store cleaned ->
  start <= now ->
  withoutExpired start (SecurityUtils.cleanupRateLimit now store)
    (SecurityUtils.cleanupRateLimit now cleaned).
Proof.
  intros Hrel Hnow k. rewrite !cleanupRateLimit_lookup.
  destruct (Hrel k) as [->|(-> & r & -> & Hrt)]; [left; reflexivity|].
  left. destruct (Z.gtb_spec now (SecurityUtils.resetTime r)); [reflexivity|].
  lia.
Qed.

(** Calls on a store and on the store without its expired records return
    the same. *)
Lemma withoutExpired_calls (start : Z) (calls : list LimiterCall) :
  Forall (laterCall start) calls ->
  forall store cleaned : SecurityUtils.RateLimitStore,
    withoutExpired start store cleaned ->
    (limiterCalls calls cleaned).1 = (limiterCalls calls store).1.
Proof.
  induction 1 as [|c calls Hc _ IH]; intros store cleaned Hrel;
    [reflexivity|].
  destruct c as [key maxAttempts windowMs now|key|now]; cbn [limiterCalls].
  - destruct Hc as [Hmax Hnow].
    destruct (withoutExpired_check start key maxAttempts windowMs now
                store cleaned Hrel Hmax Hnow) as [Hres Hrel'].
    cbn [fst]. rewrite Hres, (IH _ _ Hrel'). reflexivity.
  - apply IH, withoutExpired_reset, Hrel.
  - apply IH, withoutExpired_later_cleanup; [exact Hrel | exact Hc].
Qed.

(** X3.  [cleanupRateLimit] keeps exactly the records whose window has not
    passed, and the limiter does not show that it ran: whatever is called
    afterwards, checks with a positive [maxAttempts], resets and further
    cleanups in any order, for any keys, every check returns what it
    returns without the cleanup. *)
Theorem cleanupRateLimit_unobservable :
  forall (now : Z) (store : SecurityUtils.RateLimitStore)
         (calls : list LimiterCall),
    Forall (laterCall now) calls ->
    (forall (k : jsstr) (r : SecurityUtils.RateRecord),
        SecurityUtils.cleanupRateLimit now store !! k = Some r
        <-> store !! k = Some r /\ now <= SecurityUtils.resetTime r)
    /\ (limiterCalls calls (SecurityUtils.cleanupRateLimit now store)).1
       = (limiterCalls calls store).1.
Proof.
  intros now store calls Hcalls. split.
  - intros k r. rewrite cleanupRateLimit_lookup.
    destruct (store !! k) as [r0|]; [|split; [intros [=] | intros [[=] _]]].
    destruct (Z.gtb_spec now (SecurityUtils.resetTime r0)) as [Hgt|Hin];
      cbv iota; split.
    + discriminate.
    + intros [[= ->] H]. lia.
    + intros [= ->]. auto.
    + intros [H _]. exact H.
  - apply (withoutExpired_calls now calls Hcalls), withoutExpired_cleanup.
Qed.

(** A check that allows no attempt is where the cleanup shows.  On an
    expired record such a check opens a new window without counting, and
    the record it wrote through decides the next call; on the cleaned
    store it leaves no record, and the next call opens its own window. *)
Lemma cleanupRateLimit_shows_after_zero_max :
  map SecurityUtils.resultResetTime (limiterCalls zeroMaxCalls expiredStore).1
  = [4000; 4000]
  /\ map SecurityUtils.resultResetTime
       (limiterCalls zeroMaxCalls
          (SecurityUtils.cleanupRateLimit 2500 expiredStore)).1
     = [4000; 4500].
Proof. split; vm_compute; reflexivity. Qed.

(** X1 for the locked key: denied at 600500 ms with 300 seconds to wait,
    allowed again at 901000 ms. *)
Lemma checkRateLimit_retry_after_witness :
  (900000 - 600500 <= 1000 * 300 < 900000 - 600500 + 1000)
  /\ (600500 + 1000 * 300 < 901000 ->
      (SecurityUtils.checkRateLimit loginKey 5 900000 901000 lockedStore).1
      = SecurityUtils.mkRateResult true (5 - 1) (901000 + 900000) 0)
  /\ (901000 <= 900000 ->
      SecurityUtils.allowed
        (SecurityUtils.checkRateLimit loginKey 5 900000 901000 lockedStore).1
      = false).
Proof.
  apply (checkRateLimit_retry_after loginKey 5 900000 600500 lockedStore
           lockedStore (SecurityUtils.mkRateResult false 0 900000 300)
           900000 901000).
  - lia.
  - apply (checkRateLimit_denied loginKey 5 900000 600500 5 900000 lockedStore).
    + apply lookup_insert_eq.
    + lia.
    + lia.
  - reflexivity.
Defined.

(** X2 for three attempts a second: of four calls in a row the fourth is
    the one that is denied. *)
Lemma checkRateLimit_burst_witness :
  (checkRateLimitEach loginKey 3 1000 [0; 10; 20; 30] ∅).1 !! 3%nat
  = Some (SecurityUtils.mkRateResult false 0 1000 1).
Proof.
  apply (fun Hfresh Hmax Hall =>
           checkRateLimit_burst loginKey 3 1000 0 [10; 20; 30] ∅
             Hfresh Hmax Hall 3%nat 30 eq_refl).
  - apply lookup_empty.
  - lia.
  - repeat constructor; lia.
Defined.

(** X3 for a cleanup at 1000000 ms, after the window of the locked key,
    and four later uses of the limiter. *)
Lemma cleanupRateLimit_unobservable_witness :
  (limiterCalls laterCalls
     (SecurityUtils.cleanupRateLimit 1000000 lockedStore)).1
  = (limiterCalls laterCalls lockedStore).1.
Proof.
  apply (cleanupRateLimit_unobservable 1000000 lockedStore laterCalls).
  unfold laterCalls.
  repeat (apply List.Forall_cons; [cbn; lia|]). apply List.Forall_nil.
Defined.

(** X4 for the logins from 10.0.0.8 and 10.0.0.7. *)
Lemma checkRateLimit_keys_independent_witness :
  (SecurityUtils.checkRateLimit otherLoginKey 5 900000 1000 lockedStore).2
    !! loginKey
  = lockedStore !! loginKey.
Proof.
  apply (checkRateLimit_keys_independent otherLoginKey 5 loginKey 900000 1000
           lockedStore).
  intros H. vm_compute in H. discriminate H.
Defined.

(** ** Sanitizing and masking *)

Lemma removeMatches_sublist (matchAt : jsstr -> nat) (s : jsstr) :
  forall skip, removeMatches matchAt skip s `sublist_of` s.
Proof.
  induction s as [|c s IH]; intros skip; simpl; [constructor|].
  destruct skip as [|k]; [destruct (matchAt (c :: s))|];
    try (apply sublist_cons, IH).
  apply sublist_skip, IH.
Qed.

(** The first replacement leaves no angle bracket. *)
Lemma removeMatches_angle (s : jsstr) :
  forall skip c,
    In c (removeMatches SecurityUtils.matchAngleBracket skip s) ->
    c <> 60%N /\ c <> 62%N.
Proof.
  induction s as [|c0 s IH]; intros skip c; simpl; [contradiction|].
  destruct skip as [|k]; [|apply IH].
  destruct (N.eqb_spec c0 60) as [->|H60]; simpl; [apply IH|].
  destruct (N.eqb_spec c0 62) as [->|H62]; simpl; [apply IH|].
  intros [<-|Hin]; [split; assumption | apply (IH _ _ Hin)].
Qed.

Lemma trimStart_suffix (s : jsstr) : exists p, s = p ++ trimStart s.
Proof.
  induction s as [|c s [p Hp]]; simpl; [exists []; reflexivity|].
  destruct (isWhiteSpace c); [|exists []; reflexivity].
  exists (c :: p). simpl. f_equal. exact Hp.
Qed.

(** [trim] cuts a piece out of the string. *)
Lemma trim_infix (s : jsstr) : exists p q, s = p ++ trim s ++ q.
Proof.
  destruct (trimStart_suffix s) as [p Hp].
  destruct (trimStart_suffix (rev (trimStart s))) as [q Hq].
  exists p, (rev q). unfold trim.
  rewrite <- rev_app_distr, <- Hq, rev_involutive. exact Hp.
Qed.

Lemma trimStart_head (s : jsstr) (c : N) :
  head (trimStart s) = Some c -> isWhiteSpace c = false.
Proof.
  induction s as [|a s IH]; simpl; [discriminate|].
  destruct (isWhiteSpace a) eqn:E; [exact IH|].
  simpl. intros [= <-]. exact E.
Qed.

Lemma trimStart_snoc (l : jsstr) (c : N) :
  isWhiteSpace c = false -> exists y, trimStart (l ++ [c]) = y ++ [c].
Proof.
  intros Hc. induction l as [|a l IH]; simpl.
  - rewrite Hc. exists []. reflexivity.
  - destruct (isWhiteSpace a); [exact IH|]. exists (a :: l). reflexivity.
Qed.

(** What [trim] returns neither starts nor ends with white space. *)
Lemma trim_ends (s : jsstr) (c : N) :
  head (trim s) = Some c \/ last (trim s) = Some c -> isWhiteSpace c = false.
Proof.
  unfold trim. intros [H|H].
  - destruct (trimStart s) as [|c0 t] eqn:Ht; [discriminate H|].
    assert (Hc0 : isWhiteSpace c0 = false).
    { apply (trimStart_head s). rewrite Ht. reflexivity. }
    simpl rev in H. destruct (trimStart_snoc (rev t) c0 Hc0) as [y Hy].
    rewrite Hy, rev_app_distr in H. simpl in H.
    injection H as <-. exact Hc0.
  - destruct (trimStart (rev (trimStart s))) as [|c1 x] eqn:Hx;
      [discriminate H|].
    simpl rev in H. rewrite last_snoc in H. injection H as <-.
    apply (trimStart_head (rev (trimStart s))). rewrite Hx. reflexivity.
Qed.

(** X6.  [sanitizeInput] only deletes: its result is the input with some
    code units left out, in the same order.  No angle bracket is left in
    it, and it neither starts nor ends with white space. *)
Theorem sanitizeInput_only_deletes :
  forall input : jsstr,
    SecurityUtils.sanitizeInput input `sublist_of` input
    /\ (forall c, In c (SecurityUtils.sanitizeInput input) ->
                  c <> 60%N /\ c <> 62%N)
    /\ (forall c, head (SecurityUtils.sanitizeInput input) = Some c ->
                  isWhiteSpace c = false)
    /\ (forall c, last (SecurityUtils.sanitizeInput input) = Some c ->
                  isWhiteSpace c = false).
Proof.
  intros input. unfold SecurityUtils.sanitizeInput.
  set (s1 := removeMatches SecurityUtils.matchAngleBracket 0 input).
  set (s2 := removeMatches SecurityUtils.matchJavascript 0 s1).
  set (s3 := removeMatches SecurityUtils.matchEventHandler 0 s2).
  assert (H3 : trim s3 `sublist_of` s3).
  { destruct (trim_infix s3) as (p & q & Hpq). rewrite Hpq at 2.
    apply sublist_inserts_l, sublist_inserts_r. reflexivity. }
  assert (H1 : trim s3 `sublist_of` s1).
  { etransitivity; [exact H3|]. etransitivity; apply removeMatches_sublist. }
  split; [|split; [|split]].
  - etransitivity; [exact H1 | apply removeMatches_sublist].
  - intros c Hc. apply (removeMatches_angle input 0%nat c).
    apply list_elem_of_In. apply (elem_of_sublist _ _ _ (proj2 (list_elem_of_In _ _) Hc) H1).
  - intros c Hc. apply (trim_ends s3). left. exact Hc.
  - intros c Hc. apply (trim_ends s3). right. exact Hc.
Qed.

Lemma substring_prefix (v : Z) (d : jsstr) :
  v <= len d -> substring 0 v d = take (Z.to_nat v) d.
Proof.
  intros Hv. unfold substring, len in *. cbv zeta.
  replace (Z.min (Z.max 0 0) (Z.of_nat (length d))) with 0 by lia.
  rewrite Z.max_r, Z.min_l by lia.
  replace (Z.to_nat (Z.min 0 (Z.max v 0))) with 0%nat by lia.
  simpl drop. f_equal. lia.
Qed.

Lemma substring_suffix (a : Z) (d : jsstr) :
  substring a (len d) d = drop (Z.to_nat a) d.
Proof.
  unfold substring, len. cbv zeta.
  replace (Z.min (Z.max (Z.of_nat (length d)) 0) (Z.of_nat (length d)))
    with (Z.of_nat (length d)) by lia.
  set (A := Z.min (Z.max a 0) (Z.of_nat (length d))).
  rewrite Z.max_r, Z.min_l by (subst A; lia).
  rewrite take_ge by (rewrite length_drop; subst A; lia).
  destruct (Z.le_gt_cases a (Z.of_nat (length d))) as [Hle|Hgt].
  - f_equal. subst A. lia.
  - rewrite !drop_ge; [reflexivity | lia | subst A; lia].
Qed.

(** The mask of a string longer than twice [visibleChars]. *)
Lemma maskSensitiveData_long (d : jsstr) (visibleChars : Z) :
  d <> [] ->
  2 * visibleChars < len d ->
  SecurityUtils.maskSensitiveData (Some d) visibleChars
  = take (Z.to_nat visibleChars) d
    ++ repeat 42%N (Z.to_nat (Z.max 3 (len d - 2 * visibleChars)))
    ++ drop (Z.to_nat (len d - visibleChars)) d.
Proof.
  intros Hd Hlong. unfold SecurityUtils.maskSensitiveData.
  destruct d as [|c d]; [congruence|].
  destruct (Z.leb_spec (len (c :: d)) (visibleChars * 2)) as [Hle|_]; [lia|].
  cbv zeta. rewrite substring_suffix.
  rewrite substring_prefix by (unfold len in *; simpl length in *; lia).
  replace (visibleChars * 2) with (2 * visibleChars) by lia. reflexivity.
Qed.

(** X5.  What [maskSensitiveData] shows.  The mask has at least three
    code units.  Of a string longer than twice [visibleChars] it keeps the
    first and the last [visibleChars] code units and puts asterisks, at
    least three, for everything between; so two strings of one length that
    agree on these two ends have the same mask.  Any other argument is
    masked as three asterisks. *)
Theorem maskSensitiveData_hides :
  forall (data : option jsstr) (visibleChars : Z),
    3 <= len (SecurityUtils.maskSensitiveData data visibleChars)
    /\ (forall d,
          data = Some d -> d <> [] -> 2 * visibleChars < len d ->
          SecurityUtils.maskSensitiveData data visibleChars
          = take (Z.to_nat visibleChars) d
            ++ repeat 42%N (Z.to_nat (Z.max 3 (len d - 2 * visibleChars)))
            ++ drop (Z.to_nat (len d - visibleChars)) d)
    /\ ((forall d, data = Some d -> d = [] \/ len d <= 2 * visibleChars) ->
        SecurityUtils.maskSensitiveData data visibleChars = lit "***")
    /\ (forall d d',
          data = Some d ->
          length d' = length d ->
          take (Z.to_nat visibleChars) d' = take (Z.to_nat visibleChars) d ->
          drop (Z.to_nat (len d - visibleChars)) d'
          = drop (Z.to_nat (len d - visibleChars)) d ->
          SecurityUtils.maskSensitiveData (Some d') visibleChars
          = SecurityUtils.maskSensitiveData data visibleChars).
Proof.
  intros data v.
  assert (Hshort : (forall d, data = Some d -> d = [] \/ len d <= 2 * v) ->
                   SecurityUtils.maskSensitiveData data v = lit "***").
  { intros H. destruct data as [[|c d]|]; try reflexivity.
    destruct (H (c :: d) eq_refl) as [E|Hle]; [discriminate E|].
    unfold SecurityUtils.maskSensitiveData.
    destruct (Z.leb_spec (len (c :: d)) (v * 2)); [reflexivity | lia]. }
  split; [|split; [|split; [exact Hshort|]]].
  - destruct data as [d|]; [|vm_compute; discriminate].
    destruct d as [|c d]; [vm_compute; discriminate|].
    destruct (Z.le_gt_cases (len (c :: d)) (2 * v)) as [Hle|Hgt].
    + rewrite Hshort; [vm_compute; discriminate|].
      intros d0 [= <-]. right. exact Hle.
    + rewrite maskSensitiveData_long by (congruence || lia).
      unfold len. rewrite !length_app, repeat_length. lia.
  - intros d -> Hd Hlong. apply maskSensitiveData_long; assumption.
  - intros d d' -> Hlen Htake Hdrop.
    assert (Hl : len d' = len d) by (unfold len; congruence).
    destruct d as [|c d]; [destruct d'; [reflexivity | discriminate Hlen]|].
    destruct d' as [|c' d']; [discriminate Hlen|].
    destruct (Z.le_gt_cases (len (c :: d)) (2 * v)) as [Hle|Hgt].
    + unfold SecurityUtils.maskSensitiveData.
      destruct (Z.leb_spec (len (c' :: d')) (v * 2)); [|lia].
      destruct (Z.leb_spec (len (c :: d)) (v * 2)); [reflexivity | lia].
    + rewrite !maskSensitiveData_long by (congruence || lia).
      rewrite Hl, Htake, Hdrop. reflexivity.
Qed.

(** ** Issuing, refreshing and reading tokens *)

(** The header form of a token that has no white space in it. *)
Lemma cleanToken_bearer (tok : jsstr) :
  existsb isWhiteSpace tok = false ->
  JWTUtils.cleanToken (lit "Bearer " ++ tok) = tok.
Proof.
  intros H. unfold JWTUtils.cleanToken. simpl.
  apply trimStart_no_space, H.
Qed.

Section Tokens.
Context {lib : JsonWebToken} {spec : JsonWebTokenSpec lib}.
Variable env : Env.

(** A token that [generateToken] returned is one the package signed. *)
Lemma generateToken_Ok (c : Claims) (o : JWTUtils.Options) (now : Z)
    (tok : jsstr) :
  JWTUtils.generateToken env (Some c) o now = Ok tok ->
  jwt_sign c (secret (config_jwt env))
    (mkSignOptions
       (default (configExpiresIn (config_jwt env)) (JWTUtils.optExpiresIn o))
       (default JWTUtils.ISSUER (JWTUtils.optIssuer o))
       (default JWTUtils.AUDIENCE (JWTUtils.optAudience o)))
    now = Ok tok.
Proof.
  unfold JWTUtils.generateToken.
  destruct (userId c =? 0); [discriminate|].
  destruct (jwt_sign _ _ _ _) as [t|e]; [|discriminate].
  intros [= ->]. reflexivity.
Qed.

(** The two generators of user tokens, for a user that has an id and an
    address. *)
Lemma generateAuthToken_signed (u : JWTUtils.TokenUser) (now : Z) :
  JWTUtils.id u <> 0 -> JWTUtils.userEmail u <> [] ->
  exists tok,
    JWTUtils.generateAuthToken env (Some u) now = Ok tok
    /\ jwt_sign (mkClaims (JWTUtils.id u) (JWTUtils.userEmail u) (lit "auth"))
         (secret (config_jwt env))
         (mkSignOptions (configExpiresIn (config_jwt env))
            JWTUtils.ISSUER JWTUtils.AUDIENCE)
         now = Ok tok.
Proof.
  intros Hid Hem. unfold JWTUtils.generateAuthToken.
  apply Z.eqb_neq in Hid. apply streq_neq in Hem. rewrite Hid, Hem.
  cbn [orb]. apply Z.eqb_neq in Hid.
  apply (generateToken_returns env
           (mkClaims (JWTUtils.id u) (JWTUtils.userEmail u) (lit "auth"))
           JWTUtils.noOptions now Hid).
Qed.

Lemma generateRefreshToken_signed (u : JWTUtils.TokenUser) (now : Z) :
  JWTUtils.id u <> 0 -> JWTUtils.userEmail u <> [] ->
  exists tok,
    JWTUtils.generateRefreshToken env (Some u) now = Ok tok
    /\ jwt_sign (mkClaims (JWTUtils.id u) (JWTUtils.userEmail u) (lit "refresh"))
         (secret (config_jwt env))
         (mkSignOptions 604800 JWTUtils.ISSUER JWTUtils.AUDIENCE)
         now = Ok tok.
Proof.
  intros Hid Hem. unfold JWTUtils.generateRefreshToken.
  apply Z.eqb_neq in Hid. apply streq_neq in Hem. rewrite Hid, Hem.
  cbn [orb]. apply Z.eqb_neq in Hid.
  apply (generateToken_returns env
           (mkClaims (JWTUtils.id u) (JWTUtils.userEmail u) (lit "refresh"))
           (JWTUtils.mkOptions (Some 604800) None None) now Hid).
Qed.

(** A user without an id or without an address gets no token. *)
Lemma generators_reject (user : option JWTUtils.TokenUser) (now : Z) :
  (forall u, user = Some u -> JWTUtils.id u = 0 \/ JWTUtils.userEmail u = []) ->
  JWTUtils.generateAuthToken env user now
  = Err (lit "User must have id and email properties")
  /\ JWTUtils.generateRefreshToken env user now
     = Err (lit "User must have id and email properties").
Proof.
  intros H. unfold JWTUtils.generateAuthToken, JWTUtils.generateRefreshToken.
  destruct user as [u|]; [|split; reflexivity].
  destruct (H u eq_refl) as [E|E]; rewrite E.
  - split; reflexivity.
  - rewrite orb_true_r. split; reflexivity.
Qed.

End Tokens.

(** X7.  The [Bearer] prefix is transparent.  A token that [generateToken]
    issued passes the format test with and without the prefix, and
    [verifyToken] and [decodeToken] answer the same for both forms; taking
    the token out of an [Authorization] header gives it back from both
    forms. *)
Theorem bearer_prefix_transparent :
  forall (lib : JsonWebToken),
    JsonWebTokenSpec lib ->
    forall (env : Env) (c : Claims) (o : JWTUtils.Options) (now : Z)
           (tok : jsstr),
      JWTUtils.generateToken env (Some c) o now = Ok tok ->
      JWTUtils.isValidTokenFormat tok = true
      /\ JWTUtils.isValidTokenFormat (lit "Bearer " ++ tok) = true
      /\ (forall o' now',
            JWTUtils.verifyToken env (lit "Bearer " ++ tok) o' now'
            = JWTUtils.verifyToken env tok o' now')
      /\ JWTUtils.decodeToken (lit "Bearer " ++ tok) = JWTUtils.decodeToken tok
      /\ Auth.extractToken (lit "Bearer " ++ tok) = tok
      /\ Auth.extractToken tok = tok.
Proof.
  intros lib spec env c o now tok Hgen.
  apply generateToken_Ok in Hgen.
  destruct (sign_compact _ _ _ _ _ Hgen) as [Hdots Hws].
  pose proof (cleanToken_bearer tok Hws) as Hb.
  pose proof (cleanToken_no_space tok Hws) as Hc.
  destruct tok as [|t0 tok]; [discriminate Hdots|].
  split; [|split; [|split; [|split; [|split]]]].
  - unfold JWTUtils.isValidTokenFormat, split_dot_length.
    rewrite Hc, Hdots. reflexivity.
  - unfold JWTUtils.isValidTokenFormat, split_dot_length.
    cbn [lit app]. cbn [lit app] in Hb. rewrite Hb, Hdots. reflexivity.
  - intros o' now'. unfold JWTUtils.verifyToken.
    cbn [lit app]. cbn [lit app] in Hb. rewrite Hb, Hc. reflexivity.
  - unfold JWTUtils.decodeToken.
    cbn [lit app]. cbn [lit app] in Hb. rewrite Hb, Hc. reflexivity.
  - reflexivity.
  - apply extractToken_plain.
    destruct (startsWith (t0 :: tok) (lit "Bearer ")) eqn:E; [|reflexivity].
    exfalso. unfold startsWith in E. cbn in E.
    repeat match type of E with
           | match ?l with _ => _ end = true =>
               destruct l; [discriminate E|]
           | (_ && _) = true => apply andb_prop in E as [? E]
           end.
    repeat match goal with
           | H : (_ =? _)%N = true |- _ => apply N.eqb_eq in H; subst
           end.
    cbn in Hws. rewrite ?orb_true_r in Hws. discriminate Hws.
Qed.

(** X7 for the access token the idealised package issues to Alice. *)
Lemma bearer_prefix_transparent_witness :
  JWTUtils.isValidTokenFormat (lit "Bearer " ++ aliceAccessToken) = true
  /\ JWTUtils.verifyToken (lib := Ideal.lib) defaultEnv
       (lit "Bearer " ++ aliceAccessToken) JWTUtils.noOptions 2000
     = JWTUtils.verifyToken (lib := Ideal.lib) defaultEnv
         aliceAccessToken JWTUtils.noOptions 2000.
Proof.
  destruct (bearer_prefix_transparent Ideal.lib Ideal_meets_contract defaultEnv
              aliceClaims JWTUtils.noOptions 1000 aliceAccessToken eq_refl)
    as (_ & Hfmt & Hv & _).
  split; [exact Hfmt | apply Hv].
Defined.

(** X8.  Who gets tokens.  For a user that has an id and an address the
    three generators return: the access token verifies, until the
    configured time to live has passed, to the user's id and address with
    type [auth]; the refresh token verifies for seven days to the same with
    type [refresh]; the pair is these two.  For any other argument each of
    the three throws the error of a user without id and email. *)
Theorem user_token_generators :
  forall (lib : JsonWebToken),
    JsonWebTokenSpec lib ->
    forall (env : Env) (user : option JWTUtils.TokenUser) (now : Z),
      (forall u,
          user = Some u ->
          JWTUtils.id u <> 0 -> JWTUtils.userEmail u <> [] ->
          exists access refresh,
            JWTUtils.generateAuthToken env user now = Ok access
            /\ JWTUtils.generateRefreshToken env user now = Ok refresh
            /\ JWTUtils.generateTokenPair env user now
               = Ok (JWTUtils.mkTokenPair access refresh)
            /\ (forall now',
                  JWTUtils.verifyToken env access JWTUtils.noOptions now'
                  = if now + configExpiresIn (config_jwt env) <=? now'
                    then Err (lit "Token has expired")
                    else Ok (mkDecoded
                               (mkClaims (JWTUtils.id u) (JWTUtils.userEmail u)
                                  (lit "auth"))
                               now (now + configExpiresIn (config_jwt env))
                               JWTUtils.ISSUER JWTUtils.AUDIENCE))
            /\ (forall now',
                  JWTUtils.verifyToken env refresh JWTUtils.noOptions now'
                  = if now + 604800 <=? now'
                    then Err (lit "Token has expired")
                    else Ok (mkDecoded
                               (mkClaims (JWTUtils.id u) (JWTUtils.userEmail u)
                                  (lit "refresh"))
                               now (now + 604800)
                               JWTUtils.ISSUER JWTUtils.AUDIENCE)))
      /\ ((forall u,
              user = Some u ->
              JWTUtils.id u = 0 \/ JWTUtils.userEmail u = []) ->
          JWTUtils.generateAuthToken env user now
          = Err (lit "User must have id and email properties")
          /\ JWTUtils.generateRefreshToken env user now
             = Err (lit "User must have id and email properties")
          /\ JWTUtils.generateTokenPair env user now
             = Err (lit "User must have id and email properties")).
Proof.
  intros lib spec env user now. split.
  - intros u -> Hid Hem.
    destruct (generateAuthToken_signed env u now Hid Hem)
      as (access & Ha & Hsa).
    destruct (generateRefreshToken_signed env u now Hid Hem)
      as (refresh & Hr & Hsr).
    exists access, refresh.
    split; [exact Ha|]. split; [exact Hr|]. split; [|split].
    + unfold JWTUtils.generateTokenPair. rewrite Ha, Hr. reflexivity.
    + intros now'. rewrite (verifyToken_signed env _ _ _ _ now' Hsa).
      reflexivity.
    + intros now'. rewrite (verifyToken_signed env _ _ _ _ now' Hsr).
      reflexivity.
  - intros H. destruct (generators_reject env user now H) as [Ha Hr].
    split; [exact Ha|]. split; [exact Hr|].
    unfold JWTUtils.generateTokenPair. rewrite Ha. reflexivity.
Qed.

(** X8 for Alice under the default configuration, at second 1000. *)
Lemma user_token_generators_witness :
  exists access refresh,
    JWTUtils.generateTokenPair (lib := Ideal.lib) defaultEnv
      (Some (JWTUtils.mkTokenUser 7 (lit "alice@example.com"))) 1000
    = Ok (JWTUtils.mkTokenPair access refresh)
    /\ JWTUtils.verifyToken (lib := Ideal.lib) defaultEnv access
         JWTUtils.noOptions 2000
       = Ok (mkDecoded aliceClaims 1000 87400 JWTUtils.ISSUER JWTUtils.AUDIENCE).
Proof.
  destruct (user_token_generators Ideal.lib Ideal_meets_contract defaultEnv
              (Some (JWTUtils.mkTokenUser 7 (lit "alice@example.com"))) 1000)
    as [H _].
  destruct (H _ eq_refl) as (access & refresh & _ & _ & Hp & Hv & _);
    [discriminate | discriminate |].
  exists access, refresh. split; [exact Hp | apply (Hv 2000)].
Defined.

(** X9.  The refresh round trip.  With a refresh token that
    [generateRefreshToken] gave a user, [refreshAccessToken] returns, for
    seven days, the access token [generateAuthToken] gives that user at the
    time of the refresh: it verifies to the user's id and address with type
    [auth], and its time to live starts at the refresh.  From the seventh
    day on the refresh fails as expired. *)
Theorem refresh_round_trip :
  forall (lib : JsonWebToken),
    JsonWebTokenSpec lib ->
    forall (env : Env) (u : JWTUtils.TokenUser) (now : Z) (refresh : jsstr)
           (now' : Z),
      JWTUtils.generateRefreshToken env (Some u) now = Ok refresh ->
      (now' < now + 604800 ->
         exists access,
           JWTUtils.refreshAccessToken env refresh now' = Ok access
           /\ JWTUtils.generateAuthToken env (Some u) now' = Ok access
           /\ forall now'',
                JWTUtils.verifyToken env access JWTUtils.noOptions now''
                = if now' + configExpiresIn (config_jwt env) <=? now''
                  then Err (lit "Token has expired")
                  else Ok (mkDecoded
                             (mkClaims (JWTUtils.id u) (JWTUtils.userEmail u)
                                (lit "auth"))
                             now' (now' + configExpiresIn (config_jwt env))
                             JWTUtils.ISSUER JWTUtils.AUDIENCE))
      /\ (now + 604800 <= now' ->
          JWTUtils.refreshAccessToken env refresh now'
          = Err (lit "Token refresh failed: Token has expired")).
Proof.
  intros lib spec env u now refresh now' Hgen.
  assert (Hu : JWTUtils.id u <> 0 /\ JWTUtils.userEmail u <> []).
  { revert Hgen. unfold JWTUtils.generateRefreshToken.
    destruct (Z.eqb_spec (JWTUtils.id u) 0) as [E|Hid]; [discriminate|].
    destruct (streq (JWTUtils.userEmail u) []) eqn:E; [discriminate|].
    intros _. split; [exact Hid | apply streq_neq, E]. }
  destruct Hu as [Hid Hem].
  destruct (generateRefreshToken_signed env u now Hid Hem)
    as (refresh' & Hr & Hsr).
  rewrite Hgen in Hr. injection Hr as <-.
  pose proof (verifyToken_signed env _ _ _ _ now' Hsr) as Hv.
  split; intros Ht.
  - destruct (Z.leb_spec (now + 604800) now') as [Hle|_]; [lia|].
    destruct (generateAuthToken_signed env u now' Hid Hem)
      as (access & Ha & Hsa).
    exists access. split; [|split; [exact Ha|]].
    + unfold JWTUtils.refreshAccessToken. rewrite Hv.
      cbn [signedPayload claims type userId email negb].
      rewrite streq_refl. cbn [negb].
      destruct u as [i e]. cbn [JWTUtils.id JWTUtils.userEmail] in *.
      rewrite Ha. reflexivity.
    + intros now''. rewrite (verifyToken_signed env _ _ _ _ now'' Hsa).
      reflexivity.
  - destruct (Z.leb_spec (now + 604800) now') as [_|Hlt]; [|lia].
    unfold JWTUtils.refreshAccessToken. rewrite Hv. reflexivity.
Qed.

(** X9 for Alice's refresh token of second 1000, used at second 2000. *)
Lemma refresh_round_trip_witness :
  exists access,
    JWTUtils.refreshAccessToken (lib := Ideal.lib) defaultEnv
      aliceRefreshToken 2000 = Ok access
    /\ JWTUtils.generateAuthToken (lib := Ideal.lib) defaultEnv
         (Some (JWTUtils.mkTokenUser 7 (lit "alice@example.com"))) 2000
       = Ok access.
Proof.
  destruct (refresh_round_trip Ideal.lib Ideal_meets_contract defaultEnv
              (JWTUtils.mkTokenUser 7 (lit "alice@example.com")) 1000
              aliceRefreshToken 2000 eq_refl)
    as [H _].
  destruct H as (access & Hr & Ha & _); [lia|].
  exists access. split; [exact Hr | exact Ha].
Defined.

(** X10.  The helpers that read a token without verifying it agree with
    each other.  When [getTokenExpiration] returns a date, it is the
    second [exp] of the payload in milliseconds, [isTokenExpired] tells
    whether [exp] lies strictly before the current second, and
    [getTokenRemainingTime] is what is left to [exp], or 0.  When it
    returns none, the token counts as expired with no time remaining.  A
    token with time remaining is never reported expired; one reported not
    expired has time remaining, except in the second [exp] itself. *)
Theorem decode_helpers_agree :
  forall (lib : JsonWebToken) (tok : jsstr) (t : Z),
    match JWTUtils.getTokenExpiration tok with
    | Some ms =>
        exists e,
          ms = e * 1000 /\ e <> 0
          /\ JWTUtils.isTokenExpired tok t = (e <? t)
          /\ JWTUtils.getTokenRemainingTime tok t = Z.max 0 (e - t)
    | None =>
        JWTUtils.isTokenExpired tok t = true
        /\ JWTUtils.getTokenRemainingTime tok t = 0
    end
    /\ (0 < JWTUtils.getTokenRemainingTime tok t ->
        JWTUtils.isTokenExpired tok t = false)
    /\ (JWTUtils.isTokenExpired tok t = false ->
        JWTUtils.getTokenRemainingTime tok t = 0 ->
        JWTUtils.getTokenExpiration tok = Some (t * 1000)).
Proof.
  intros lib tok t.
  unfold JWTUtils.getTokenExpiration, JWTUtils.isTokenExpired,
    JWTUtils.getTokenRemainingTime.
  cbv zeta.
  destruct (JWTUtils.decodeToken tok) as [[c|]|m].
  2, 3: split; [split; reflexivity|]; split; [lia | discriminate].
  destruct (Z.eqb_spec (exp (payload c)) 0) as [E|E].
  - split; [split; reflexivity|]. split; [lia | discriminate].
  - split; [exists (exp (payload c)); auto|].
    split.
    + intros H. apply Z.ltb_ge. lia.
    + intros H1 H2. apply Z.ltb_ge in H1. do 2 f_equal. lia.
Qed.

(** ** The gates, one after another *)

(** A user that [findById] returns is a row of the table with the id that
    was asked for, and the id is not 0. *)
Lemma findById_Some (db : Db.t) (i : Z) (u : User.t) :
  User.findById db i = Ok (Some u) ->
  i <> 0 /\ Db.pool db = true /\ User.id u = i
  /\ exists r, In r (Db.users db) /\ u = User.ofRow r.
Proof.
  unfold User.findById, Db.selectById.
  destruct (Z.eqb_spec i 0) as [E|Hi]; [discriminate|].
  destruct (Db.pool db); [|discriminate].
  destruct (List.filter (fun r => Db.id r =? i) (Db.users db)) as [|r rs] eqn:Hf;
    [discriminate|].
  intros [= <-].
  assert (Hin : In r (List.filter (fun r => Db.id r =? i) (Db.users db))).
  { rewrite Hf. left. reflexivity. }
  apply filter_In in Hin as [Hin Hid]. apply Z.eqb_eq in Hid.
  repeat split; try assumption. exists r. split; [exact Hin | reflexivity].
Qed.

Section GateChain.
Context {lib : JsonWebToken}.
Variable env : Env.

(** All that is known of a request the mandatory gate lets through. *)
Lemma authenticateToken_passes (req req' : Auth.Request) (now : Z) (db : Db.t) :
  (Auth.authenticateToken env req now db).2 = Auth.Next req' ->
  exists h d u,
    Auth.authorization req = Some h
    /\ JWTUtils.verifyToken env (Auth.extractToken h) JWTUtils.noOptions now
       = Ok d
    /\ type d = lit "auth"
    /\ User.findById db (userId d) = Ok (Some u)
    /\ (Auth.authenticateToken env req now db).1
       = [Auth.Verify (Auth.extractToken h); Auth.FindById (userId d)]
    /\ req' = Auth.setUserToken req (Some u)
                (Some (Auth.mkTokenInfo (Auth.extractToken h) d)).
Proof.
  unfold Auth.authenticateToken.
  destruct (Auth.authorization req) as [[|c h]|]; try discriminate.
  destruct (Auth.extractToken (c :: h)) as [|t0 tok] eqn:Htok;
    [discriminate|].
  destruct (JWTUtils.isValidTokenFormat (t0 :: tok));
    cbn [negb]; [|discriminate].
  destruct (JWTUtils.verifyToken env (t0 :: tok) JWTUtils.noOptions now)
    as [d|m] eqn:Hv; [|discriminate].
  destruct (streq (type d) (lit "auth")) eqn:Ht;
    cbn [negb]; [|discriminate].
  destruct (User.findById db (userId d)) as [[u|]|e] eqn:Hf; try discriminate.
  cbn [fst snd]. intros [= <-]. exists (c :: h), d, u. rewrite Htok.
  repeat split; try reflexivity; try assumption. apply streq_eq, Ht.
Qed.

End GateChain.

(** X11.  What the mandatory gate establishes, and what the gates after it
    make of it.  A request that [authenticateToken] lets through carried a
    token that verified with type [auth]; the gate verified it and then
    looked up its [userId], and nothing else; the user it attached is a row
    of the users table whose id is the token's [userId], which is not 0;
    nothing else of the request changed.  On that request [requireAuth]
    always goes on, and [requireOwnership] goes on exactly when the path
    parameter reads as the [userId] of the token. *)
Theorem authenticated_request :
  forall (lib : JsonWebToken) (env : Env) (req req' : Auth.Request)
         (now : Z) (db : Db.t),
    (Auth.authenticateToken env req now db).2 = Auth.Next req' ->
    exists h d u,
      Auth.authorization req = Some h
      /\ JWTUtils.verifyToken env (Auth.extractToken h) JWTUtils.noOptions now
         = Ok d
      /\ type d = lit "auth"
      /\ (Auth.authenticateToken env req now db).1
         = [Auth.Verify (Auth.extractToken h); Auth.FindById (userId d)]
      /\ userId d <> 0
      /\ User.id u = userId d
      /\ (exists r, In r (Db.users db) /\ u = User.ofRow r)
      /\ req' = Auth.setUserToken req (Some u)
                  (Some (Auth.mkTokenInfo (Auth.extractToken h) d))
      /\ Auth.requireAuth req' = Auth.Next req'
      /\ Auth.requireOwnership req'
         = match Auth.parseIntParam (Auth.paramUserId req) (Auth.paramId req) with
           | Some v =>
               if v =? userId d then Auth.Next req'
               else Auth.Respond
                      (Auth.mkResponse 403 AUTH_CREDENTIALS_INVALID
                         (lit "Access denied: insufficient permissions"))
           | None =>
               Auth.Respond
                 (Auth.mkResponse 403 AUTH_CREDENTIALS_INVALID
                    (lit "Access denied: insufficient permissions"))
           end.
Proof.
  intros lib env req req' now db H.
  destruct (authenticateToken_passes env req req' now db H)
    as (h & d & u & Hh & Hv & Ht & Hf & Htrace & ->).
  destruct (findById_Some db (userId d) u Hf) as (Hid & _ & Hu & Hrow).
  exists h, d, u. repeat (split; [assumption|]). split; [reflexivity|].
  split; [reflexivity|].
  unfold Auth.requireOwnership. cbn [Auth.setUserToken Auth.user Auth.token
    Auth.paramUserId Auth.paramId]. cbv zeta. rewrite Hu.
  destruct (Auth.parseIntParam (Auth.paramUserId req) (Auth.paramId req))
    as [v|]; [|reflexivity].
  destruct (v =? userId d); reflexivity.
Qed.

(** X11 for Alice's access token on a request for the resources of user 7,
    at second 2000. *)
Lemma authenticated_request_witness :
  let req := requestFor (lit "Bearer " ++ aliceAccessToken) (lit "7") in
  let req' :=
    Auth.setUserToken req
      (Some (User.mkUser 7 (lit "alice@example.com") (Some (lit "$2b$secret1"))
               100 100))
      (Some (Auth.mkTokenInfo aliceAccessToken
               (mkDecoded aliceClaims 1000 87400
                  JWTUtils.ISSUER JWTUtils.AUDIENCE))) in
  Auth.requireAuth req' = Auth.Next req'.
Proof.
  intros req req'.
  destruct (authenticated_request Ideal.lib defaultEnv req req' 2000 aliceDb
              eq_refl)
    as (h & d & u & _ & _ & _ & _ & _ & _ & _ & _ & Hauth & _).
  exact Hauth.
Defined.

(** X12.  [extractUserFromToken] looks at the token only.  It goes on
    exactly for a header whose token verifies, whatever the type of the
    token, a refresh token included: it then has verified the token once,
    looked up no user, and set [req.tokenUser] to the id, address and type
    in the token.  Everything else it answers with 401; the code is
    [AUTH_TOKEN_MISSING] exactly when there is no header, and
    [AUTH_TOKEN_INVALID] otherwise, for an expired token as well. *)
Theorem extractUserFromToken_decisions :
  forall (lib : JsonWebToken),
    JsonWebTokenSpec lib ->
    forall (env : Env) (req : Auth.Request) (now : Z),
      (forall h d,
          Auth.authorization req = Some h ->
          JWTUtils.verifyToken env (Auth.extractToken h) JWTUtils.noOptions now
          = Ok d ->
          Auth.extractUserFromToken env req now
          = ([Auth.Verify (Auth.extractToken h)],
             Ok (Auth.mkTokenUserInfo (userId d) (email d) (type d),
                 Auth.setUserToken req (Auth.user req)
                   (Some (Auth.mkTokenInfo (Auth.extractToken h) d)))))
      /\ (forall tu req',
            (Auth.extractUserFromToken env req now).2 = Ok (tu, req') ->
            exists h d,
              Auth.authorization req = Some h
              /\ JWTUtils.verifyToken env (Auth.extractToken h)
                   JWTUtils.noOptions now = Ok d)
      /\ (forall r,
            (Auth.extractUserFromToken env req now).2 = Err r ->
            Auth.status r = 401
            /\ (Auth.code r = AUTH_TOKEN_MISSING
                /\ (Auth.authorization req = None
                    \/ Auth.authorization req = Some [])
                \/ Auth.code r = AUTH_TOKEN_INVALID
                   /\ exists h, Auth.authorization req = Some h /\ h <> []))
      /\ (forall e, In e (Auth.extractUserFromToken env req now).1 ->
                    exists tok, e = Auth.Verify tok).
Proof.
  intros lib spec env req now. split; [|split; [|split]].
  - intros h d Hh Hv.
    pose proof (verifyToken_format env _ _ _ _ Hv) as Hfmt.
    destruct (verifyToken_Ok env _ _ _ _ Hv) as [Hne _].
    unfold Auth.extractUserFromToken. rewrite Hh.
    destruct h as [|c h]; [exfalso; apply Hne; reflexivity|].
    cbv zeta.
    destruct (Auth.extractToken (c :: h)) as [|t0 tok] eqn:Htok;
      [congruence|].
    rewrite Hfmt. cbn [negb]. unfold JWTUtils.getUserFromToken.
    rewrite Hv. reflexivity.
  - intros tu req'. unfold Auth.extractUserFromToken.
    destruct (Auth.authorization req) as [[|c h]|]; try discriminate.
    cbv zeta.
    destruct (Auth.extractToken (c :: h)) as [|t0 tok] eqn:Htok;
      [discriminate|].
    destruct (JWTUtils.isValidTokenFormat (t0 :: tok));
      cbn [negb]; [|discriminate].
    unfold JWTUtils.getUserFromToken.
    destruct (JWTUtils.verifyToken env (t0 :: tok) JWTUtils.noOptions now)
      as [d|m] eqn:Hv; [|discriminate].
    intros _. exists (c :: h), d. rewrite Htok. auto.
  - intros r. unfold Auth.extractUserFromToken.
    destruct (Auth.authorization req) as [[|c h]|];
      try (intros [= <-]; split; [reflexivity|]; left; auto).
    cbv zeta.
    assert (Hh : exists h0, Some (c :: h) = Some h0 /\ h0 <> []).
    { exists (c :: h). split; [reflexivity | discriminate]. }
    destruct (Auth.extractToken (c :: h)) as [|t0 tok];
      [intros [= <-]; split; [reflexivity|]; right; auto|].
    destruct (JWTUtils.isValidTokenFormat (t0 :: tok)); cbn [negb];
      [|intros [= <-]; split; [reflexivity|]; right; auto].
    destruct (JWTUtils.getUserFromToken env (t0 :: tok) now);
      [discriminate|].
    intros [= <-]. split; [reflexivity|]. right. auto.
  - intros e. unfold Auth.extractUserFromToken.
    destruct (Auth.authorization req) as [[|c h]|]; try contradiction.
    cbv zeta.
    destruct (match Auth.extractToken (c :: h) with
              | [] => true
              | _ => negb (JWTUtils.isValidTokenFormat (Auth.extractToken (c :: h)))
              end); [contradiction|].
    destruct (JWTUtils.getUserFromToken env (Auth.extractToken (c :: h)) now);
      (intros [<-|[]]; eexists; reflexivity).
Qed.

(** X12 for Alice's refresh token in the header, at second 2000. *)
Lemma extractUserFromToken_decisions_witness :
  (Auth.extractUserFromToken (lib := Ideal.lib) defaultEnv
     (request (Some (lit "Bearer " ++ aliceRefreshToken)) None) 2000).1
  = [Auth.Verify aliceRefreshToken].
Proof.
  destruct (extractUserFromToken_decisions Ideal.lib Ideal_meets_contract
              defaultEnv
              (request (Some (lit "Bearer " ++ aliceRefreshToken)) None) 2000)
    as (H & _).
  rewrite (H (lit "Bearer " ++ aliceRefreshToken)
             (mkDecoded (mkClaims 7 (lit "alice@example.com") (lit "refresh"))
                1000 605800 JWTUtils.ISSUER JWTUtils.AUDIENCE)
             eq_refl eq_refl).
  reflexivity.
Defined.

(** X13.  [optionalAuth] is optional only about the header.  Without an
    [Authorization] header the request goes on with no user and no token,
    and nothing is called; with one, the gate is [authenticateToken]: a
    token that does not pass there is answered there, and a request that
    goes on is either without user and token or carries a user and a
    verified token of type [auth] with that user's id. *)
Theorem optionalAuth_decisions :
  forall (lib : JsonWebToken) (env : Env) (req : Auth.Request) (now : Z)
         (db : Db.t),
    ((Auth.authorization req = None \/ Auth.authorization req = Some []) ->
     Auth.optionalAuth env req now db
     = ([], Auth.Next (Auth.setUserToken req None None)))
    /\ (forall h,
          Auth.authorization req = Some h -> h <> [] ->
          Auth.optionalAuth env req now db
          = Auth.authenticateToken env req now db)
    /\ (forall req',
          (Auth.optionalAuth env req now db).2 = Auth.Next req' ->
          (Auth.user req' = None /\ Auth.token req' = None
           /\ (Auth.optionalAuth env req now db).1 = [])
          \/ exists u t,
               Auth.user req' = Some u /\ Auth.token req' = Some t
               /\ type (Auth.decoded t) = lit "auth"
               /\ User.id u = userId (Auth.decoded t)
               /\ JWTUtils.verifyToken env (Auth.raw t) JWTUtils.noOptions now
                  = Ok (Auth.decoded t)).
Proof.
  intros lib env req now db. split; [|split].
  - unfold Auth.optionalAuth. intros [-> | ->]; reflexivity.
  - intros h Hh Hne. unfold Auth.optionalAuth. rewrite Hh.
    destruct h; [congruence | reflexivity].
  - intros req'. unfold Auth.optionalAuth.
    destruct (Auth.authorization req) as [[|c h]|] eqn:Hh;
      try (intros [= <-]; left; auto).
    intros H.
    destruct (authenticateToken_passes env req req' now db H)
      as (h0 & d & u & _ & Hv & Ht & Hf & _ & ->).
    destruct (findById_Some db (userId d) u Hf) as (_ & _ & Hu & _).
    right. exists u, (Auth.mkTokenInfo (Auth.extractToken h0) d).
    cbn. auto.
Qed.

(** X14.  The answers of the refresh gate.  It answers 400 exactly when
    the body has no refresh token, and then has called nothing; a token
    that does not verify, for whatever reason, expiry included, is
    answered 401 [AUTH_TOKEN_INVALID] with one message; no answer carries
    [AUTH_TOKEN_EXPIRED]; the answer is 500 exactly when the token verified
    with type [refresh] and the lookup of its user threw.
    When the gate goes on, it has set [req.user] to the user whose id is in
    the token and [req.refreshToken] to the token, and [req.token] is what
    it was. *)
Theorem validateRefreshToken_decisions :
  forall (lib : JsonWebToken) (env : Env) (req : Auth.Request) (now : Z)
         (db : Db.t),
    (forall r,
        (Auth.validateRefreshToken env req now db).2 = Auth.Respond r ->
        (Auth.status r = 400
         <-> Auth.bodyRefreshToken req = None
             \/ Auth.bodyRefreshToken req = Some [])
        /\ (Auth.status r = 400 ->
            (Auth.validateRefreshToken env req now db).1 = [])
        /\ Auth.code r <> AUTH_TOKEN_EXPIRED
        /\ (Auth.status r = 500
            <-> exists tok d e,
                  Auth.bodyRefreshToken req = Some tok
                  /\ JWTUtils.verifyToken env tok JWTUtils.noOptions now = Ok d
                  /\ type d = lit "refresh"
                  /\ User.findById db (userId d) = Err e))
    /\ (forall tok m,
          Auth.bodyRefreshToken req = Some tok -> tok <> [] ->
          JWTUtils.verifyToken env tok JWTUtils.noOptions now = Err m ->
          Auth.validateRefreshToken env req now db
          = ([Auth.Verify tok],
             Auth.Respond (Auth.mkResponse 401 AUTH_TOKEN_INVALID
                             (lit "Invalid refresh token"))))
    /\ (forall req',
          (Auth.validateRefreshToken env req now db).2 = Auth.Next req' ->
          exists tok d u,
            Auth.bodyRefreshToken req = Some tok
            /\ JWTUtils.verifyToken env tok JWTUtils.noOptions now = Ok d
            /\ type d = lit "refresh"
            /\ User.id u = userId d
            /\ req' = Auth.setUserRefresh req (Some u)
                        (Some (Auth.mkTokenInfo tok d))
            /\ Auth.token req' = Auth.token req).
Proof.
  intros lib env req now db. split; [|split].
  - intros r. unfold Auth.validateRefreshToken.
    destruct (Auth.bodyRefreshToken req) as [[|c tok]|].
    1, 3: intros [= <-]; cbn; repeat split; auto; try discriminate;
      intros (tok0 & d & e & Hb & Hv & _); try discriminate Hb;
      injection Hb as <-; discriminate Hv.
    assert (Hno : ~ (Some (c :: tok) = None \/ Some (c :: tok) = Some [])).
    { intros [H|H]; discriminate H. }
    destruct (JWTUtils.verifyToken env (c :: tok) JWTUtils.noOptions now)
      as [d|m] eqn:Hv.
    2: { intros [= <-]; cbn; repeat split; try discriminate; try tauto.
         intros (tok0 & d & e & [= <-] & Hv' & _). congruence. }
    destruct (streq (type d) (lit "refresh")) eqn:Ht; cbn [negb].
    2: { intros [= <-]; cbn; repeat split; try discriminate; try tauto.
         intros (tok0 & d0 & e & [= <-] & Hv' & Ht' & _).
         rewrite Hv in Hv'. injection Hv' as <-.
         apply streq_neq in Ht. contradiction. }
    destruct (User.findById db (userId d)) as [[u|]|e] eqn:Hf;
      [discriminate | |].
    + intros [= <-]; cbn; repeat split; try discriminate; try tauto.
      intros (tok0 & d0 & e & [= <-] & Hv' & _ & Hf').
      rewrite Hv in Hv'. injection Hv' as <-. congruence.
    + intros [= <-]; cbn; repeat split; try discriminate; try tauto.
      intros _. exists (c :: tok), d, e.
      repeat split; try assumption. apply streq_eq, Ht.
  - intros tok m Hb Hne Hv. unfold Auth.validateRefreshToken. rewrite Hb.
    destruct tok as [|c tok]; [congruence|]. rewrite Hv. reflexivity.
  - intros req'. unfold Auth.validateRefreshToken.
    destruct (Auth.bodyRefreshToken req) as [[|c tok]|]; try discriminate.
    destruct (JWTUtils.verifyToken env (c :: tok) JWTUtils.noOptions now)
      as [d|m] eqn:Hv; [|discriminate].
    destruct (streq (type d) (lit "refresh")) eqn:Ht; cbn [negb];
      [|discriminate].
    destruct (User.findById db (userId d)) as [[u|]|e] eqn:Hf;
      try discriminate.
    cbn [snd]. intros [= <-].
    destruct (findById_Some db (userId d) u Hf) as (_ & _ & Hu & _).
    exists (c :: tok), d, u. repeat split; try reflexivity; try assumption.
    apply streq_eq, Ht.
Qed.

(** ** The e-mail pattern *)

Lemma forallb_addrChar (s : jsstr) :
  forallb User.isAddrChar s = true <-> Forall EmailPattern.addrChar s.
Proof.
  induction s as [|c s IH]; simpl.
  - split; [constructor | reflexivity].
  - rewrite andb_true_iff, Forall_cons, IH.
    unfold User.isAddrChar, EmailPattern.addrChar.
    rewrite andb_true_iff, !negb_true_iff, N.eqb_neq. reflexivity.
Qed.

Lemma splitAtSign_first (l d : jsstr) :
  Forall EmailPattern.addrChar l ->
  User.splitAtSign (l ++ User.at_sign :: d) = Some (l, d).
Proof.
  induction l as [|c l IH]; intros H; simpl.
  - reflexivity.
  - apply Forall_cons in H as [[_ Hc] Hl].
    apply N.eqb_neq in Hc. rewrite Hc, (IH Hl). reflexivity.
Qed.

(** A dot with something on each side of it. *)
Lemma hasInnerDot_iff (d : jsstr) :
  User.hasInnerDot d = true
  <-> exists x y, d = x ++ dot :: y /\ x <> [] /\ y <> [].
Proof.
  unfold User.hasInnerDot. split.
  - intros H. apply existsb_exists in H as (c & Hin & Hc).
    apply N.eqb_eq in Hc. subst c.
    destruct d as [|c0 t]; [contradiction|]. simpl tail in Hin.
    destruct t as [|c1 t]; [contradiction|].
    pose proof (app_removelast_last 0%N (l := c1 :: t) ltac:(discriminate))
      as Ht.
    apply in_split in Hin as (m1 & m2 & Hm). rewrite Hm in Ht.
    set (z := List.last (c1 :: t) 0%N) in Ht.
    exists (c0 :: m1), (m2 ++ [z]).
    split; [|split; [discriminate | intros E; destruct m2; discriminate E]].
    rewrite Ht. simpl. rewrite <- app_assoc. reflexivity.
  - intros (x & y & -> & Hx & Hy).
    destruct x as [|x0 x]; [congruence|]. simpl tail.
    rewrite removelast_app by discriminate.
    rewrite existsb_app. apply orb_true_iff. right.
    destruct y as [|y0 y]; [congruence|]. reflexivity.
Qed.

(** What [isValidEmail] accepts is matched by the pattern. *)
Lemma isValidEmail_matched (e : jsstr) :
  User.isValidEmail e = true -> EmailPattern.matched e.
Proof.
  unfold User.isValidEmail, EmailPattern.matched.
  destruct (User.splitAtSign e) as [[l d]|] eqn:Hs; [|discriminate].
  intros H. apply splitAtSign_app in Hs.
  apply andb_prop in H as [H Hdot]. apply andb_prop in H as [H Hd].
  apply andb_prop in H as [Hl Hfl].
  apply negb_true_iff, streq_neq in Hl.
  apply forallb_addrChar in Hfl. apply forallb_addrChar in Hd.
  apply hasInnerDot_iff in Hdot as (x & y & -> & Hx & Hy).
  apply Forall_app in Hd as [Hfx Hfy]. apply Forall_cons in Hfy as [_ Hfy].
  exists l, x, y. subst e. simpl. repeat split; assumption.
Qed.

(** What the pattern matches, [isValidEmail] accepts. *)
Lemma matched_isValidEmail (e : jsstr) :
  EmailPattern.matched e -> User.isValidEmail e = true.
Proof.
  unfold User.isValidEmail, EmailPattern.matched.
  intros (l & x & y & -> & Hl & Hx & Hy & Hfl & Hfx & Hfy).
  simpl. rewrite (splitAtSign_first l (x ++ dot :: y) Hfl).
  apply streq_neq in Hl. rewrite Hl. cbn [negb andb].
  rewrite (proj2 (forallb_addrChar l) Hfl). cbn [andb].
  rewrite (proj2 (forallb_addrChar (x ++ dot :: y))).
  - cbn [andb]. apply hasInnerDot_iff. exists x, y. auto.
  - apply Forall_app. split; [exact Hfx|]. apply Forall_cons.
    split; [|exact Hfy]. split; [reflexivity | discriminate].
Qed.

(** X15.  [isValidEmail] decides the pattern of the source: it is true
    exactly of the strings made of a non-empty part, an at sign, a non-empty
    part, a dot and a non-empty part, the three parts free of white space
    and of at signs. *)
Theorem isValidEmail_iff_matched :
  forall e : jsstr, User.isValidEmail e = true <-> EmailPattern.matched e.
Proof.
  intros e. split.
  - apply isValidEmail_matched.
  - apply matched_isValidEmail.
Qed.

(** ** Creating and finding users *)

Lemma filter_none {A} (f : A -> bool) (l : list A) :
  Forall (fun r => f r = false) l -> List.filter f l = [].
Proof.
  induction l as [|x l IH]; intros H; simpl; [reflexivity|].
  apply Forall_cons in H as [Hx Hl]. rewrite Hx. apply IH, Hl.
Qed.

Section UserStore.
Variable toLowerCase : jsstr -> jsstr.
Variable bcrypt_hash : jsstr -> Z -> jsstr.

(** A successful [create], in full: the user it returns, and the store it
    leaves. *)
Lemma create_Ok_row (e pw : jsstr) (now : Z) (db db' : Db.t) (u : User.t) :
  User.create toLowerCase bcrypt_hash (Some e) (Some pw) now db = (Ok u, db') ->
  e <> [] /\ pw <> [] /\ User.isValidEmail e = true /\ Db.pool db = true
  /\ u = User.mkUser (Db.users_id_seq db + 1) e None now now
  /\ db' = Db.mkDb true
             (Db.users db
              ++ [Db.mkRow (Db.users_id_seq db + 1) e
                    (User.hashPassword bcrypt_hash pw) now now])
             (Db.users_id_seq db + 1)
  /\ Forall (fun r => streq (Db.email r) e = false) (Db.users db).
Proof.
  unfold User.create.
  destruct e as [|c e]; [discriminate|].
  destruct pw as [|p pw]; [discriminate|].
  destruct (User.isValidEmail (c :: e)) eqn:Hv; cbn [negb]; [|discriminate].
  destruct (User.isValidPassword (p :: pw)); cbn [negb]; [|discriminate].
  destruct (User.findByEmail toLowerCase db (c :: e)) as [[u0|]|err];
    try discriminate.
  unfold Db.insertUser.
  destruct (Db.pool db) eqn:Hpool; [|discriminate].
  destruct (existsb _ (Db.users db)) eqn:Hex; [discriminate|].
  intros [= <- <-]. cbn [Db.id Db.email Db.created_at Db.updated_at].
  repeat split; try discriminate.
  apply List.Forall_forall. intros r Hr.
  destruct (streq (Db.email r) (c :: e)) eqn:E; [|reflexivity].
  assert (Ht : existsb (fun r => streq (Db.email r) (c :: e)) (Db.users db)
               = true).
  { apply existsb_exists. exists r. split; [exact Hr | exact E]. }
  congruence.
Qed.

End UserStore.

(** X16.  Create, then find.  In a store whose ids were given out by the
    sequence, a successful [create] takes the next id; [findById] with that
    id and [findByEmail] with any string whose lower-casing is the address
    passed both return the new user, with the hash of the password;
    lookups by another id or address answer as before the [create]; and
    the ids of the new store are again given out by the sequence, each
    once. *)
Theorem create_then_find :
  forall (toLowerCase : jsstr -> jsstr) (bcrypt_hash : jsstr -> Z -> jsstr)
         (e pw : jsstr) (now : Z) (db db' : Db.t) (u : User.t),
    StoreInvariant.wellFormed db ->
    User.create toLowerCase bcrypt_hash (Some e) (Some pw) now db = (Ok u, db') ->
    let stored :=
      User.mkUser (User.id u) e (Some (User.hashPassword bcrypt_hash pw))
        now now in
    StoreInvariant.wellFormed db'
    /\ User.id u = Db.users_id_seq db + 1
    /\ User.findById db' (User.id u) = Ok (Some stored)
    /\ (forall e',
          e' <> [] -> toLowerCase e' = e ->
          User.findByEmail toLowerCase db' e' = Ok (Some stored))
    /\ (forall i,
          i <> User.id u -> User.findById db' i = User.findById db i)
    /\ (forall e',
          toLowerCase e' <> e ->
          User.findByEmail toLowerCase db' e'
          = User.findByEmail toLowerCase db e').
Proof.
  intros toLowerCase bcrypt_hash e pw now db db' u (Hseq & Hids & Hnd) Hc stored.
  destruct (create_Ok_row toLowerCase bcrypt_hash e pw now db db' u Hc)
    as (He & Hpw & Hv & Hpool & -> & -> & Hfresh).
  subst stored. cbn [User.id].
  assert (Hold : Forall (fun r => (Db.id r =? Db.users_id_seq db + 1) = false)
                   (Db.users db)).
  { eapply Forall_impl; [exact Hids|]. cbn. intros r Hr. apply Z.eqb_neq. lia. }
  split; [|split; [reflexivity|split; [|split; [|split]]]].
  - unfold StoreInvariant.wellFormed. cbn [Db.users Db.users_id_seq].
    split; [lia|]. split.
    + apply Forall_app. split.
      * eapply Forall_impl; [exact Hids|]. cbn. intros r Hr. lia.
      * constructor; [cbn; lia | constructor].
    + rewrite map_app. cbn [map Db.id]. apply NoDup_app.
      split; [exact Hnd|]. split; [|apply NoDup_singleton].
      intros x Hx Hx'. apply list_elem_of_singleton in Hx'. subst x.
      apply list_elem_of_In, in_map_iff in Hx as (r & Hr & Hin).
      rewrite List.Forall_forall in Hids. specialize (Hids r Hin). lia.
  - unfold User.findById, Db.selectById. cbn [Db.pool Db.users].
    destruct (Z.eqb_spec (Db.users_id_seq db + 1) 0) as [E|_]; [lia|].
    rewrite List.filter_app, (filter_none _ _ Hold). cbn [List.filter Db.id].
    rewrite Z.eqb_refl. reflexivity.
  - intros e' He' Hlow. unfold User.findByEmail, Db.selectByEmail.
    destruct e' as [|c e']; [congruence|]. rewrite Hlow.
    cbn [Db.pool Db.users].
    rewrite List.filter_app, (filter_none _ _ Hfresh).
    cbn [List.filter Db.email]. rewrite streq_refl. reflexivity.
  - intros i Hi. unfold User.findById, Db.selectById.
    cbn [Db.pool Db.users]. rewrite Hpool.
    rewrite List.filter_app. cbn [List.filter Db.id].
    apply Z.eqb_neq in Hi.
    rewrite (Z.eqb_sym (Db.users_id_seq db + 1) i), Hi, app_nil_r.
    reflexivity.
  - intros e' Hne. unfold User.findByEmail, Db.selectByEmail.
    cbn [Db.pool Db.users]. rewrite Hpool.
    rewrite List.filter_app. cbn [List.filter Db.email].
    assert (E : streq e (toLowerCase e') = false).
    { apply streq_neq. congruence. }
    rewrite E, app_nil_r. reflexivity.
Qed.

(** X16 for the registration of bob@example.com in the store that holds
    Alice. *)
Lemma create_then_find_witness :
  User.findById
    (User.create JS.toLowerCase exampleHash (Some (lit "bob@example.com"))
       (Some (lit "secret2")) 200 aliceDb).2 8
  = Ok (Some (User.mkUser 8 (lit "bob@example.com")
                (Some (lit "$2b$secret2")) 200 200)).
Proof.
  destruct (create_then_find JS.toLowerCase exampleHash (lit "bob@example.com")
              (lit "secret2") 200 aliceDb
              (Db.mkDb true
                 (Db.users aliceDb
                  ++ [Db.mkRow 8 (lit "bob@example.com") (lit "$2b$secret2")
                        200 200]) 8)
              (User.mkUser 8 (lit "bob@example.com") None 200 200))
    as (_ & _ & Hfind & _).
  - unfold StoreInvariant.wellFormed, aliceDb. cbn.
    split; [lia|]. split; [|apply NoDup_singleton].
    apply Forall_cons. split; [cbn; lia | constructor].
  - reflexivity.
  - exact Hfind.
Defined.

(** X17.  Who can verify a password.  The instance that [create] returns
    carries no hash, and [verifyPassword] on it is false for every
    password, the right one included.  The instance that [findByEmail]
    returns for the same address carries the hash, and verifies the
    password given to [create]; an absent or empty password is never
    verified. *)
Theorem verifyPassword_after_create :
  forall (toLowerCase : jsstr -> jsstr) (bcrypt_hash : jsstr -> Z -> jsstr)
         (bcrypt_compare : jsstr -> jsstr -> bool),
    (forall p r, bcrypt_compare p (bcrypt_hash p r) = true) ->
    (forall p r, bcrypt_hash p r <> []) ->
    forall (e pw : jsstr) (now : Z) (db db' : Db.t) (u : User.t),
      User.create toLowerCase bcrypt_hash (Some e) (Some pw) now db
      = (Ok u, db') ->
      toLowerCase e = e ->
      (forall p, User.verifyPassword bcrypt_compare u p = false)
      /\ exists found,
           User.findByEmail toLowerCase db' e = Ok (Some found)
           /\ User.id found = User.id u
           /\ User.verifyPassword bcrypt_compare found (Some pw) = true
           /\ User.verifyPassword bcrypt_compare found None = false
           /\ User.verifyPassword bcrypt_compare found (Some []) = false.
Proof.
  intros toLowerCase bcrypt_hash bcrypt_compare Hcmp Hhash
         e pw now db db' u Hc Hlow.
  destruct (create_Ok_row toLowerCase bcrypt_hash e pw now db db' u Hc)
    as (He & Hpw & Hv & Hpool & -> & -> & Hfresh).
  split.
  - intros [[|c p]|]; reflexivity.
  - eexists. split; [|split; [|split; [|split]]].
    + unfold User.findByEmail, Db.selectByEmail.
      destruct e as [|c e]; [congruence|]. rewrite Hlow.
      cbn [Db.pool Db.users].
      rewrite List.filter_app, (filter_none _ _ Hfresh).
      cbn [List.filter Db.email]. rewrite streq_refl. reflexivity.
    + reflexivity.
    + unfold User.verifyPassword, User.ofRow, User.hashPassword.
      cbn [User.passwordHash Db.password_hash].
      destruct pw as [|p pw]; [congruence|].
      pose proof (Hhash (p :: pw) 12) as Hne.
      pose proof (Hcmp (p :: pw) 12) as Ht.
      destruct (bcrypt_hash (p :: pw) 12); [congruence | exact Ht].
    + reflexivity.
    + reflexivity.
Qed.

(** X17 for the registration of bob@example.com with the stand-in hash. *)
Lemma verifyPassword_after_create_witness :
  User.verifyPassword exampleCompare
    (User.mkUser 8 (lit "bob@example.com") None 200 200)
    (Some (lit "secret2")) = false.
Proof.
  apply (verifyPassword_after_create JS.toLowerCase exampleHash exampleCompare
           (fun p r => streq_refl (lit "$2b$" ++ p))
           (fun p r => ltac:(discriminate))
           (lit "bob@example.com") (lit "secret2") 200 aliceDb
           (Db.mkDb true
              (Db.users aliceDb
               ++ [Db.mkRow 8 (lit "bob@example.com") (lit "$2b$secret2")
                     200 200]) 8)
           (User.mkUser 8 (lit "bob@example.com") None 200 200)
           eq_refl eq_refl).
Defined.

(** ** Registration *)

Lemma trim_no_space (s : jsstr) :
  existsb isWhiteSpace s = false -> trim s = s.
Proof.
  intros E. unfold trim. rewrite (trimStart_no_space s E).
  rewrite trimStart_no_space; [apply rev_involutive|].
  rewrite existsb_rev. exact E.
Qed.

(** The lower-casing of the closed examples meets what the properties of
    the routes ask of [String.prototype.toLowerCase]. *)
Lemma lowerChar_idempotent (c : N) : lowerChar (lowerChar c) = lowerChar c.
Proof.
  unfold lowerChar. destruct (isUpper c) eqn:E; [|rewrite E; reflexivity].
  unfold isUpper in *. apply andb_prop in E as [E1 E2].
  apply N.leb_le in E1. apply N.leb_le in E2.
  destruct (N.leb_spec 65 (c + 32)); destruct (N.leb_spec (c + 32) 90);
    simpl; try reflexivity; lia.
Qed.

Lemma toLowerCase_idempotent (s : jsstr) :
  JS.toLowerCase (JS.toLowerCase s) = JS.toLowerCase s.
Proof.
  unfold JS.toLowerCase. rewrite map_map. apply map_ext.
  intros c. apply lowerChar_idempotent.
Qed.

Lemma lowerChar_addrChar (c : N) :
  EmailPattern.addrChar c -> EmailPattern.addrChar (lowerChar c).
Proof.
  unfold EmailPattern.addrChar, lowerChar, isUpper, User.at_sign.
  intros [Hws Hat].
  destruct (N.leb_spec 65 c); destruct (N.leb_spec c 90); simpl;
    try (split; assumption).
  split; [|lia]. unfold isWhiteSpace.
  repeat match goal with
         | |- context [(?a =? ?b)%N] =>
             destruct (N.eqb_spec a b); [lia|]
         | |- context [(?a <=? ?b)%N] =>
             destruct (N.leb_spec a b)
         end; simpl; try reflexivity; lia.
Qed.

Lemma toLowerCase_valid (s : jsstr) :
  User.isValidEmail s = true -> User.isValidEmail (JS.toLowerCase s) = true.
Proof.
  intros H. apply matched_isValidEmail.
  apply isValidEmail_matched in H.
  destruct H as (l & x & y & -> & Hl & Hx & Hy & Hfl & Hfx & Hfy).
  exists (JS.toLowerCase l), (JS.toLowerCase x), (JS.toLowerCase y).
  unfold JS.toLowerCase. rewrite !map_app. cbn [map].
  assert (Hmap : forall k, Forall EmailPattern.addrChar k ->
                           Forall EmailPattern.addrChar (map lowerChar k)).
  { intros k Hk. apply Forall_map. eapply Forall_impl; [exact Hk|].
    intros c. apply lowerChar_addrChar. }
  split; [reflexivity|].
  repeat split; auto; intros E; apply map_eq_nil in E; contradiction.
Qed.

Section Registration.
Context {lib : JsonWebToken}.
Variable env : Env.
Variable toLowerCase : jsstr -> jsstr.
Variable bcrypt_hash : jsstr -> Z -> jsstr.

Hypothesis lower_idempotent :
  forall s, toLowerCase (toLowerCase s) = toLowerCase s.
Hypothesis lower_valid :
  forall s, User.isValidEmail s = true ->
            User.isValidEmail (toLowerCase s) = true.

Local Abbreviation register := (AuthRoutes.register env toLowerCase bcrypt_hash).
Local Abbreviation create := (User.create toLowerCase bcrypt_hash).

(** The address the handler passes on is the lower-cased one. *)
Lemma register_normalized (e : jsstr) :
  User.isValidEmail e = true -> trim (toLowerCase e) = toLowerCase e.
Proof.
  intros H. apply trim_no_space, isValidEmail_no_space, lower_valid, H.
Qed.

(** The handler touches the store only through [create], called with the
    lower-cased address. *)
Lemma register_store (email pw cp : option jsstr) (now nowSec : Z) (db : Db.t) :
  (register email pw cp now nowSec db).2 = db
  \/ exists e,
       email = Some e
       /\ (register email pw cp now nowSec db).2
          = (create (Some (toLowerCase e)) pw now db).2.
Proof.
  unfold AuthRoutes.register.
  destruct email as [[|c e]|]; try (left; reflexivity).
  destruct pw as [[|p pw]|]; try (left; reflexivity).
  destruct (User.isValidEmail (c :: e)) eqn:Hv; cbn [negb];
    [|left; reflexivity].
  destruct (User.isValidPassword (p :: pw)); cbn [negb]; [|left; reflexivity].
  destruct (AuthRoutes.confirmationFails (p :: pw) cp); [left; reflexivity|].
  right. exists (c :: e). split; [reflexivity|].
  rewrite (register_normalized _ Hv). cbv zeta.
  destruct (create _ _ now db) as [[u|[m|err]] db']; cbv beta iota.
  - destruct (JWTUtils.generateTokenPair env _ nowSec) as [t|m];
      [reflexivity|].
    destruct (includes _ _); reflexivity.
  - destruct (includes _ _); reflexivity.
  - destruct (includes _ _); reflexivity.
Qed.

(** A registration that succeeds went through a [create] that did. *)
Lemma register_Ok (e pw : jsstr) (cp : option jsstr) (now nowSec : Z)
    (db db' : Db.t) (d : AuthRoutes.RegisterData) :
  register (Some e) (Some pw) cp now nowSec db = (Ok d, db') ->
  exists u,
    create (Some (toLowerCase e)) (Some pw) now db = (Ok u, db')
    /\ AuthRoutes.registeredUser d = User.toPublicJSON u.
Proof.
  unfold AuthRoutes.register.
  destruct e as [|c e]; [discriminate|].
  destruct pw as [|p pw]; [discriminate|].
  destruct (User.isValidEmail (c :: e)) eqn:Hv; cbn [negb]; [|discriminate].
  destruct (User.isValidPassword (p :: pw)); cbn [negb]; [|discriminate].
  destruct (AuthRoutes.confirmationFails (p :: pw) cp); [discriminate|].
  rewrite (register_normalized _ Hv). cbv zeta.
  destruct (create _ _ now db) as [[u|[m|err]] db1]; cbv beta iota.
  - destruct (JWTUtils.generateTokenPair env _ nowSec) as [t|m].
    + intros [= <- <-]. exists u. split; reflexivity.
    + destruct (includes _ _); discriminate.
  - destruct (includes _ _); discriminate.
  - destruct (includes _ _); discriminate.
Qed.

(** With a row for the lower-cased address in the store, the handler
    fails and leaves the store as it is; with arguments that pass its
    validation, the failure is the conflict of an existing user. *)
Lemma register_existing (e : jsstr) (pw cp : option jsstr) (now nowSec : Z)
    (db : Db.t) (r : Db.Row) :
  Db.pool db = true ->
  In r (Db.users db) ->
  Db.email r = toLowerCase e ->
  (exists t, register (Some e) pw cp now nowSec db = (Err t, db))
  /\ (User.isValidEmail e = true ->
      forall p,
        pw = Some p -> User.isValidPassword p = true ->
        (cp = None \/ cp = Some p) ->
        register (Some e) pw cp now nowSec db
        = (Err (AuthRoutes.App (Errors.userAlreadyExists e)), db)).
Proof.
  intros Hpool Hin Hr.
  assert (Hmain : User.isValidEmail e = true ->
            forall p, pw = Some p -> p <> [] ->
            User.isValidPassword p = true ->
            AuthRoutes.confirmationFails p cp = false ->
            register (Some e) pw cp now nowSec db
            = (Err (AuthRoutes.App (Errors.userAlreadyExists e)), db)).
  { intros Hv p -> Hp Hpv Hcp. unfold AuthRoutes.register.
    destruct e as [|c e]; [discriminate Hv|].
    destruct p as [|p0 p]; [congruence|].
    rewrite Hv, Hpv, Hcp. cbn [negb].
    rewrite (register_normalized _ Hv). cbv zeta.
    destruct (create_existing toLowerCase bcrypt_hash (toLowerCase (c :: e))
                (Some (p0 :: p)) now db r Hpool Hin)
      as (m & Hm & Hmsg).
    { rewrite lower_idempotent. exact Hr. }
    rewrite (Hmsg (lower_valid _ Hv) _ eq_refl Hpv) in Hm.
    match goal with
    | |- context [User.create ?a ?b ?x ?y ?t ?d] =>
        replace (User.create a b x y t d)
          with (Err (A := User.t)
                  (User.Message (lit "User with this email already exists")),
                db)
          by (symmetry; exact Hm)
    end.
    reflexivity. }
  split.
  - unfold AuthRoutes.register.
    destruct e as [|c e]; [eexists; reflexivity|].
    destruct pw as [[|p0 p]|]; try (eexists; reflexivity).
    destruct (User.isValidEmail (c :: e)) eqn:Hv; cbn [negb];
      [|eexists; reflexivity].
    destruct (User.isValidPassword (p0 :: p)) eqn:Hpv; cbn [negb];
      [|eexists; reflexivity].
    destruct (AuthRoutes.confirmationFails (p0 :: p) cp) eqn:Hcp;
      [eexists; reflexivity|].
    exists (AuthRoutes.App (Errors.userAlreadyExists (c :: e))).
    pose proof (Hmain eq_refl (p0 :: p) eq_refl ltac:(discriminate) Hpv Hcp)
      as H.
    unfold AuthRoutes.register in H. rewrite Hv, Hpv, Hcp in H. exact H.
  - intros Hv p Hpw Hpv Hcp. apply (Hmain Hv p Hpw); [|exact Hpv|].
    + intros ->. discriminate Hpv.
    + unfold AuthRoutes.confirmationFails.
      destruct Hcp as [-> | ->]; [reflexivity|].
      destruct p; [reflexivity|]. rewrite streq_refl. reflexivity.
Qed.

End Registration.

(** X18.  One account per address, whatever the letter case.  After a
    registration that succeeded for an address, the store has one new row,
    with the lower-cased address, and so has the user in the response;
    every later registration with a string whose lower-casing is the same
    fails and leaves the store as it is, and with arguments that pass the
    validation of the handler it fails with the conflict of an existing
    user for the address as it was sent. *)
Theorem register_refuses_duplicates :
  forall (lib : JsonWebToken) (env : Env)
         (toLowerCase : jsstr -> jsstr) (bcrypt_hash : jsstr -> Z -> jsstr),
    (forall s, toLowerCase (toLowerCase s) = toLowerCase s) ->
    (forall s, User.isValidEmail s = true ->
               User.isValidEmail (toLowerCase s) = true) ->
    forall (e pw : jsstr) (cp : option jsstr) (now nowSec : Z)
           (db db' : Db.t) (d : AuthRoutes.RegisterData),
      AuthRoutes.register env toLowerCase bcrypt_hash (Some e) (Some pw) cp
        now nowSec db = (Ok d, db') ->
      User.publicEmail (AuthRoutes.registeredUser d) = toLowerCase e
      /\ (exists row,
            Db.users db' = Db.users db ++ [row]
            /\ Db.email row = toLowerCase e)
      /\ forall (e2 : jsstr) (pw2 cp2 : option jsstr) (now2 nowSec2 : Z),
           toLowerCase e2 = toLowerCase e ->
           (exists t,
               AuthRoutes.register env toLowerCase bcrypt_hash (Some e2) pw2 cp2
                 now2 nowSec2 db' = (Err t, db'))
           /\ (User.isValidEmail e2 = true ->
               forall p,
                 pw2 = Some p -> User.isValidPassword p = true ->
                 (cp2 = None \/ cp2 = Some p) ->
                 AuthRoutes.register env toLowerCase bcrypt_hash (Some e2) pw2
                   cp2 now2 nowSec2 db'
                 = (Err (AuthRoutes.App (Errors.userAlreadyExists e2)), db')).
Proof.
  intros lib env toLowerCase bcrypt_hash Hidem Hvalid
         e pw cp now nowSec db db' d Hreg.
  destruct (register_Ok env toLowerCase bcrypt_hash Hvalid
              e pw cp now nowSec db db' d Hreg) as (u & Hc & Hd).
  destruct (create_Ok_row toLowerCase bcrypt_hash _ _ _ _ _ _ Hc)
    as (_ & _ & _ & _ & -> & -> & _).
  split; [rewrite Hd; reflexivity|].
  split; [eexists; split; reflexivity|].
  intros e2 pw2 cp2 now2 nowSec2 He2.
  apply (register_existing env toLowerCase bcrypt_hash Hidem Hvalid
           e2 pw2 cp2 now2 nowSec2 _
           (Db.mkRow (Db.users_id_seq db + 1) (toLowerCase e)
              (User.hashPassword bcrypt_hash pw) now now)).
  - reflexivity.
  - cbn [Db.users]. apply in_or_app. right. left. reflexivity.
  - cbn [Db.email]. symmetry. exact He2.
Qed.

(** X18 for Bob, who registers as Bob@Example.com and then again as
    bob@example.com, in the store that holds Alice. *)
Lemma register_refuses_duplicates_witness :
  let db' :=
    (AuthRoutes.register (lib := Ideal.lib) defaultEnv JS.toLowerCase
       exampleHash (Some (lit "Bob@Example.com")) (Some (lit "secret2")) None
       200 1000 aliceDb).2 in
  AuthRoutes.register (lib := Ideal.lib) defaultEnv JS.toLowerCase exampleHash
    (Some (lit "bob@example.com")) (Some (lit "secret3")) None 300 2000 db'
  = (Err (AuthRoutes.App (Errors.userAlreadyExists (lit "bob@example.com"))),
     db').
Proof.
  destruct (AuthRoutes.register (lib := Ideal.lib) defaultEnv JS.toLowerCase
              exampleHash (Some (lit "Bob@Example.com")) (Some (lit "secret2"))
              None 200 1000 aliceDb) as [[d|t] db1] eqn:E;
    [|vm_compute in E; discriminate E].
  cbn [snd]. cbv zeta.
  destruct (register_refuses_duplicates Ideal.lib defaultEnv JS.toLowerCase
              exampleHash toLowerCase_idempotent toLowerCase_valid
              _ _ _ _ _ _ _ _ E) as (_ & _ & H).
  destruct (H (lit "bob@example.com") (Some (lit "secret3")) None 300 2000
              eq_refl) as [_ H2].
  apply (H2 eq_refl (lit "secret3") eq_refl eq_refl). left. reflexivity.
Defined.

(** X19.  The handler keeps the store normalized.  Whatever the body of
    the request and whether or not the registration succeeds, a store in
    which every address is in lower case and no two rows have the same
    lower-cased address is again such a store afterwards. *)
Theorem register_keeps_store_normalized :
  forall (lib : JsonWebToken) (env : Env)
         (toLowerCase : jsstr -> jsstr) (bcrypt_hash : jsstr -> Z -> jsstr),
    (forall s, toLowerCase (toLowerCase s) = toLowerCase s) ->
    (forall s, User.isValidEmail s = true ->
               User.isValidEmail (toLowerCase s) = true) ->
    forall (email pw cp : option jsstr) (now nowSec : Z) (db : Db.t),
      StoreInvariant.normalizedStore toLowerCase db ->
      StoreInvariant.onePerNormalizedEmail toLowerCase db ->
      StoreInvariant.normalizedStore toLowerCase
        (AuthRoutes.register env toLowerCase bcrypt_hash email pw cp
           now nowSec db).2
      /\ StoreInvariant.onePerNormalizedEmail toLowerCase
           (AuthRoutes.register env toLowerCase bcrypt_hash email pw cp
              now nowSec db).2.
Proof.
  intros lib env toLowerCase bcrypt_hash Hidem Hvalid
         email pw cp now nowSec db Hnorm Hone.
  destruct (register_store env toLowerCase bcrypt_hash Hvalid
              email pw cp now nowSec db) as [-> | (e & _ & ->)];
    [split; assumption|].
  apply create_preserves_invariant; [|exact Hnorm|exact Hone].
  intros e0 [= <-]. apply Hidem.
Qed.

(** X19 for the registration of Bob@Example.com in the store that holds
    Alice. *)
Lemma register_keeps_store_normalized_witness :
  StoreInvariant.normalizedStore JS.toLowerCase
    (AuthRoutes.register (lib := Ideal.lib) defaultEnv JS.toLowerCase
       exampleHash (Some (lit "Bob@Example.com")) (Some (lit "secret2")) None
       200 1000 aliceDb).2
  /\ StoreInvariant.onePerNormalizedEmail JS.toLowerCase
       (AuthRoutes.register (lib := Ideal.lib) defaultEnv JS.toLowerCase
          exampleHash (Some (lit "Bob@Example.com")) (Some (lit "secret2"))
          None 200 1000 aliceDb).2.
Proof.
  apply (register_keeps_store_normalized Ideal.lib defaultEnv JS.toLowerCase
           exampleHash toLowerCase_idempotent toLowerCase_valid).
  - constructor; [reflexivity | constructor].
  - apply NoDup_singleton.
Defined.

(** ** Logging in *)

Section LoginRoute.
Context {lib : JsonWebToken}.
Variable env : Env.
Variable toLowerCase : jsstr -> jsstr.
Variable bcrypt_compare : jsstr -> jsstr -> bool.

Local Abbreviation login := (AuthRoutes.login env toLowerCase bcrypt_compare).
Local Abbreviation limit key now store :=
  (SecurityUtils.checkRateLimit key 5 (15 * 60 * 1000) now store).

(** A login the rate limiter does not allow. *)
Lemma login_limited (e pw : jsstr) (rememberMe : bool) (clientIP : jsstr)
    (now nowSec : Z) (store : SecurityUtils.RateLimitStore) (db : Db.t) :
  User.isValidEmail e = true -> pw <> [] ->
  SecurityUtils.allowed (limit (lit "login:" ++ clientIP) now store).1 = false ->
  login (Some e) (Some pw) rememberMe clientIP now nowSec store db
  = (Err (AuthRoutes.App
            (Errors.rateLimitExceeded
               (lit "Too many login attempts. Please try again later.")
               (SecurityUtils.retryAfter
                  (limit (lit "login:" ++ clientIP) now store).1))),
     (limit (lit "login:" ++ clientIP) now store).2).
Proof.
  intros Hv Hpw Hden. unfold AuthRoutes.login.
  destruct e as [|c e]; [discriminate Hv|].
  destruct pw as [|p pw]; [congruence|].
  rewrite Hv. cbn [negb]. cbv zeta. rewrite Hden. reflexivity.
Qed.

(** A login the rate limiter allows, with credentials that open no
    account. *)
Lemma login_wrong (e pw : jsstr) (rememberMe : bool) (clientIP : jsstr)
    (now nowSec : Z) (store : SecurityUtils.RateLimitStore) (db : Db.t) :
  User.isValidEmail e = true -> pw <> [] ->
  SecurityUtils.allowed (limit (lit "login:" ++ clientIP) now store).1 = true ->
  wrongCredentials toLowerCase bcrypt_compare db e pw ->
  login (Some e) (Some pw) rememberMe clientIP now nowSec store db
  = (Err (AuthRoutes.App
            (Errors.authenticationFailed (lit "Invalid email or password"))),
     (limit (lit "login:" ++ clientIP) now store).2).
Proof.
  intros Hv Hpw Hall Hwrong. unfold AuthRoutes.login.
  destruct e as [|c e]; [discriminate Hv|].
  destruct pw as [|p pw]; [congruence|].
  rewrite Hv. cbn [negb]. cbv zeta. rewrite Hall. cbn [negb].
  destruct Hwrong as [Hnone | (u & Hsome & Hpass)].
  - rewrite Hnone. reflexivity.
  - rewrite Hsome, Hpass. reflexivity.
Qed.

(** Logins inside the window of a record: those that are made before the
    fifth attempt is used up fail on their credentials, the later ones on
    the limit, whatever their credentials. *)
Lemma loginEach_counted (clientIP : jsstr) (nowSec : Z) (db : Db.t) (rt : Z)
    (attempts : list (jsstr * jsstr * Z)) :
  forall (a : Z) (store : SecurityUtils.RateLimitStore),
    store !! (lit "login:" ++ clientIP) = Some (SecurityUtils.mkRate a rt) ->
    Forall (fun '(e, pw, t) =>
              User.isValidEmail e = true /\ pw <> [] /\ t <= rt) attempts ->
    (forall i e pw t,
        attempts !! i = Some (e, pw, t) -> a + Z.of_nat i < 5 ->
        wrongCredentials toLowerCase bcrypt_compare db e pw) ->
    forall (i : nat) (e pw : jsstr) (t : Z),
      attempts !! i = Some (e, pw, t) ->
      (loginEach env toLowerCase bcrypt_compare clientIP nowSec db
         attempts store).1 !! i
      = Some (if a + Z.of_nat i <? 5
              then Err (AuthRoutes.App
                          (Errors.authenticationFailed
                             (lit "Invalid email or password")))
              else Err (AuthRoutes.App
                          (Errors.rateLimitExceeded
                             (lit "Too many login attempts. Please try again later.")
                             (ceil_div_1000 (rt - t))))).
Proof.
  induction attempts as [|[[e0 pw0] t0] rest IH];
    intros a store Hs Hall Hwrong i e pw t Hi; [discriminate Hi|].
  apply Forall_cons in Hall as [(Hv & Hpw & Ht) Hrest].
  cbn [loginEach fst]. cbv zeta.
  destruct (Z.leb_spec 5 a) as [Hge|Hlt].
  - pose proof (checkRateLimit_denied (lit "login:" ++ clientIP) 5
                  (15 * 60 * 1000) t0 a rt store Hs Ht Hge) as Hc.
    rewrite (login_limited e0 pw0 false clientIP t0 nowSec store db Hv Hpw)
      by (rewrite Hc; reflexivity).
    rewrite Hc. cbn [fst snd SecurityUtils.retryAfter].
    destruct i as [|i]; rewrite lookup_cons in Hi; rewrite lookup_cons.
    + injection Hi as <- <- <-.
      destruct (Z.ltb_spec (a + Z.of_nat 0) 5); [lia | reflexivity].
    + rewrite (IH a store Hs Hrest) with (e := e) (pw := pw) (t := t);
        [| |exact Hi].
      * destruct (Z.ltb_spec (a + Z.of_nat i) 5); [lia|].
        destruct (Z.ltb_spec (a + Z.of_nat (S i)) 5); [lia | reflexivity].
      * intros j e' pw' t' Hj Hlt. lia.
  - pose proof (checkRateLimit_counted (lit "login:" ++ clientIP) 5
                  (15 * 60 * 1000) t0 a rt store Hs Ht Hlt) as Hc.
    rewrite (login_wrong e0 pw0 false clientIP t0 nowSec store db Hv Hpw).
    2: { rewrite Hc. reflexivity. }
    2: { apply (Hwrong 0%nat e0 pw0 t0 eq_refl). lia. }
    rewrite Hc. cbn [fst snd].
    destruct i as [|i]; rewrite lookup_cons in Hi; rewrite lookup_cons.
    + injection Hi as <- <- <-.
      destruct (Z.ltb_spec (a + Z.of_nat 0) 5); [reflexivity | lia].
    + rewrite (IH (a + 1) _ (lookup_insert_eq _ _ _) Hrest)
        with (e := e) (pw := pw) (t := t); [| |exact Hi].
      * replace (a + 1 + Z.of_nat i) with (a + Z.of_nat (S i)) by lia.
        reflexivity.
      * intros j e' pw' t' Hj Hlt'.
        apply (Hwrong (S j) e' pw' t' Hj). lia.
Qed.

End LoginRoute.

(** X20.  A locked address is locked for everyone.  While the record of
    an address holds five attempts and its window lasts, a login from that
    address with a well-formed e-mail address and a password is refused
    with 429 and the seconds left in the window, whatever the credentials
    and whatever the users table holds, the right password included; the
    record is left as it is, so that asking again does not prolong the
    lock. *)
Theorem login_locked_out :
  forall (lib : JsonWebToken) (env : Env) (toLowerCase : jsstr -> jsstr)
         (bcrypt_compare : jsstr -> jsstr -> bool)
         (e pw : jsstr) (rememberMe : bool) (clientIP : jsstr)
         (now nowSec : Z) (store : SecurityUtils.RateLimitStore) (db : Db.t)
         (a rt : Z),
    User.isValidEmail e = true -> pw <> [] ->
    store !! (lit "login:" ++ clientIP) = Some (SecurityUtils.mkRate a rt) ->
    5 <= a -> now <= rt ->
    AuthRoutes.login env toLowerCase bcrypt_compare (Some e) (Some pw)
      rememberMe clientIP now nowSec store db
    = (Err (AuthRoutes.App
              (Errors.mkAppError
                 (lit "Too many login attempts. Please try again later.")
                 429 Errors.RATE_LIMIT_EXCEEDED []
                 (Some (ceil_div_1000 (rt - now))))),
       store).
Proof.
  intros lib env toLowerCase bcrypt_compare e pw rememberMe clientIP
         now nowSec store db a rt Hv Hpw Hs Ha Hnow.
  pose proof (checkRateLimit_denied (lit "login:" ++ clientIP) 5
                (15 * 60 * 1000) now a rt store Hs Hnow Ha) as Hc.
  rewrite (login_limited env toLowerCase bcrypt_compare e pw rememberMe
             clientIP now nowSec store db Hv Hpw)
    by (rewrite Hc; reflexivity).
  rewrite Hc. reflexivity.
Qed.

(** X20 for Alice, who logs in with her password from the locked
    address. *)
Lemma login_locked_out_witness :
  AuthRoutes.login (lib := Ideal.lib) defaultEnv JS.toLowerCase exampleCompare
    (Some (lit "alice@example.com")) (Some (lit "secret1")) false
    (lit "10.0.0.7") 600500 600 lockedStore aliceDb
  = (Err (AuthRoutes.App
            (Errors.mkAppError
               (lit "Too many login attempts. Please try again later.")
               429 Errors.RATE_LIMIT_EXCEEDED []
               (Some (ceil_div_1000 (900000 - 600500))))),
     lockedStore).
Proof.
  apply (login_locked_out Ideal.lib defaultEnv JS.toLowerCase exampleCompare
           (lit "alice@example.com") (lit "secret1") false (lit "10.0.0.7")
           600500 600 lockedStore aliceDb 5 900000).
  - reflexivity.
  - discriminate.
  - apply lookup_insert_eq.
  - lia.
  - lia.
Defined.

(** X21.  Failed logins are alike, and each is counted.  A login that the
    rate limiter allows and whose credentials open no account is answered
    with 401 and one message, the same whether no user has the address or
    the password is wrong; the store of the rate limiter is left as the
    limiter's count of the attempt made it. *)
Theorem login_failures_alike :
  forall (lib : JsonWebToken) (env : Env) (toLowerCase : jsstr -> jsstr)
         (bcrypt_compare : jsstr -> jsstr -> bool)
         (e pw : jsstr) (rememberMe : bool) (clientIP : jsstr)
         (now nowSec : Z) (store : SecurityUtils.RateLimitStore) (db : Db.t),
    User.isValidEmail e = true -> pw <> [] ->
    SecurityUtils.allowed
      (SecurityUtils.checkRateLimit (lit "login:" ++ clientIP) 5
         (15 * 60 * 1000) now store).1 = true ->
    wrongCredentials toLowerCase bcrypt_compare db e pw ->
    AuthRoutes.login env toLowerCase bcrypt_compare (Some e) (Some pw)
      rememberMe clientIP now nowSec store db
    = (Err (AuthRoutes.App
              (Errors.mkAppError (lit "Invalid email or password") 401
                 (Errors.Known AUTH_TOKEN_INVALID) [] None)),
       (SecurityUtils.checkRateLimit (lit "login:" ++ clientIP) 5
          (15 * 60 * 1000) now store).2).
Proof.
  intros lib env toLowerCase bcrypt_compare e pw rememberMe clientIP
         now nowSec store db Hv Hpw Hall Hwrong.
  apply (login_wrong env toLowerCase bcrypt_compare e pw rememberMe clientIP
           now nowSec store db Hv Hpw Hall Hwrong).
Qed.

(** X21 for a login as Alice with a wrong password and a login with an
    address nobody has, both from an address with no record. *)
Lemma login_failures_alike_witness :
  AuthRoutes.login (lib := Ideal.lib) defaultEnv JS.toLowerCase exampleCompare
    (Some (lit "alice@example.com")) (Some (lit "guess1")) false
    (lit "10.0.0.7") 1000 1 ∅ aliceDb
  = AuthRoutes.login (lib := Ideal.lib) defaultEnv JS.toLowerCase exampleCompare
      (Some (lit "nobody@example.com")) (Some (lit "guess1")) false
      (lit "10.0.0.7") 1000 1 ∅ aliceDb.
Proof.
  assert (Hall : SecurityUtils.allowed
                   (SecurityUtils.checkRateLimit (lit "login:" ++ lit "10.0.0.7")
                      5 (15 * 60 * 1000) 1000 ∅).1 = true).
  { rewrite (checkRateLimit_fresh (lit "login:" ++ lit "10.0.0.7") 5
               (15 * 60 * 1000) 1000 ∅ (lookup_empty _)) by lia.
    reflexivity. }
  rewrite (login_failures_alike Ideal.lib defaultEnv JS.toLowerCase
             exampleCompare (lit "alice@example.com") (lit "guess1") false
             (lit "10.0.0.7") 1000 1 ∅ aliceDb eq_refl
             ltac:(discriminate) Hall).
  - rewrite (login_failures_alike Ideal.lib defaultEnv JS.toLowerCase
               exampleCompare (lit "nobody@example.com") (lit "guess1") false
               (lit "10.0.0.7") 1000 1 ∅ aliceDb eq_refl
               ltac:(discriminate) Hall).
    + reflexivity.
    + left. reflexivity.
  - right. eexists. split; reflexivity.
Defined.

(** X22.  A login that succeeds.  With an address the rate limiter allows
    and credentials that open the account of a user with an id and an
    address, the handler returns that user and the two tokens the
    generators give the user at that second, and the record of the address
    is gone from the store of the rate limiter.  [rememberMe] changes the
    [expiresIn] of the response and nothing else: the tokens are the same
    with and without it, and the access token expires after the configured
    time to live in both cases. *)
Theorem login_success :
  forall (lib : JsonWebToken),
    JsonWebTokenSpec lib ->
    forall (env : Env) (toLowerCase : jsstr -> jsstr)
           (bcrypt_compare : jsstr -> jsstr -> bool)
           (e pw : jsstr) (clientIP : jsstr) (now nowSec : Z)
           (store : SecurityUtils.RateLimitStore) (db : Db.t) (u : User.t),
      User.isValidEmail e = true ->
      SecurityUtils.allowed
        (SecurityUtils.checkRateLimit (lit "login:" ++ clientIP) 5
           (15 * 60 * 1000) now store).1 = true ->
      User.findByEmail toLowerCase db (trim (toLowerCase e)) = Ok (Some u) ->
      User.verifyPassword bcrypt_compare u (Some pw) = true ->
      User.id u <> 0 -> User.email u <> [] ->
      exists access refresh,
        JWTUtils.generateAuthToken env
          (Some (JWTUtils.mkTokenUser (User.id u) (User.email u))) nowSec
        = Ok access
        /\ JWTUtils.generateRefreshToken env
             (Some (JWTUtils.mkTokenUser (User.id u) (User.email u))) nowSec
           = Ok refresh
        /\ (forall rememberMe,
              AuthRoutes.login env toLowerCase bcrypt_compare (Some e) (Some pw)
                rememberMe clientIP now nowSec store db
              = (Ok (AuthRoutes.mkLoginData (User.toPublicJSON u)
                       (AuthRoutes.mkTokens access refresh (lit "Bearer")
                          (if rememberMe then lit "30d" else lit "24h"))
                       rememberMe),
                 SecurityUtils.resetRateLimit (lit "login:" ++ clientIP)
                   (SecurityUtils.checkRateLimit (lit "login:" ++ clientIP) 5
                      (15 * 60 * 1000) now store).2))
        /\ SecurityUtils.resetRateLimit (lit "login:" ++ clientIP)
             (SecurityUtils.checkRateLimit (lit "login:" ++ clientIP) 5
                (15 * 60 * 1000) now store).2
           !! (lit "login:" ++ clientIP) = None
        /\ (forall now',
              JWTUtils.verifyToken env access JWTUtils.noOptions now'
              = if nowSec + configExpiresIn (config_jwt env) <=? now'
                then Err (lit "Token has expired")
                else Ok (mkDecoded
                           (mkClaims (User.id u) (User.email u) (lit "auth"))
                           nowSec (nowSec + configExpiresIn (config_jwt env))
                           JWTUtils.ISSUER JWTUtils.AUDIENCE)).
Proof.
  intros lib spec env toLowerCase bcrypt_compare e pw clientIP now nowSec
         store db u Hv Hall Hfind Hpass Hid Hem.
  destruct (generateAuthToken_signed env
              (JWTUtils.mkTokenUser (User.id u) (User.email u)) nowSec Hid Hem)
    as (access & Ha & Hsa).
  destruct (generateRefreshToken_signed env
              (JWTUtils.mkTokenUser (User.id u) (User.email u)) nowSec Hid Hem)
    as (refresh & Hr & Hsr).
  exists access, refresh.
  split; [exact Ha|]. split; [exact Hr|]. split; [|split].
  - intros rememberMe. unfold AuthRoutes.login.
    destruct e as [|c e]; [discriminate Hv|].
    destruct pw as [|p pw]; [discriminate Hpass|].
    rewrite Hv. cbn [negb]. cbv zeta. rewrite Hall. cbn [negb].
    rewrite Hfind, Hpass. cbn [negb]. rewrite Ha, Hr. reflexivity.
  - apply lookup_delete_eq.
  - intros now'. rewrite (verifyToken_signed env _ _ _ _ now' Hsa).
    reflexivity.
Qed.

(** X22 for Alice, who logs in with her password. *)
Lemma login_success_witness :
  exists access refresh,
    JWTUtils.generateAuthToken (lib := Ideal.lib) defaultEnv
      (Some (JWTUtils.mkTokenUser 7 (lit "alice@example.com"))) 1000
    = Ok access
    /\ forall rememberMe,
         (AuthRoutes.login (lib := Ideal.lib) defaultEnv JS.toLowerCase
            exampleCompare (Some (lit "Alice@Example.com"))
            (Some (lit "secret1")) rememberMe (lit "10.0.0.7")
            1000000 1000 ∅ aliceDb).1
         = Ok (AuthRoutes.mkLoginData
                 (User.mkPublicJSON 7 (lit "alice@example.com") 100)
                 (AuthRoutes.mkTokens access refresh (lit "Bearer")
                    (if rememberMe then lit "30d" else lit "24h"))
                 rememberMe).
Proof.
  destruct (login_success Ideal.lib Ideal_meets_contract defaultEnv
              JS.toLowerCase exampleCompare (lit "Alice@Example.com")
              (lit "secret1") (lit "10.0.0.7") 1000000 1000 ∅ aliceDb
              (User.mkUser 7 (lit "alice@example.com")
                 (Some (lit "$2b$secret1")) 100 100))
    as (access & refresh & Ha & _ & Hlogin & _).
  - reflexivity.
  - rewrite (checkRateLimit_fresh (lit "login:" ++ lit "10.0.0.7") 5
               (15 * 60 * 1000) 1000000 ∅ (lookup_empty _)) by lia.
    reflexivity.
  - reflexivity.
  - reflexivity.
  - discriminate.
  - discriminate.
  - exists access, refresh. split; [exact Ha|].
    intros rememberMe. rewrite Hlogin. reflexivity.
Defined.

(** X23.  Five wrong guesses lock the address.  For an address with no
    record and any number of logins from it, each with a well-formed e-mail
    address and a password, the later ones not after the end of the
    fifteen minutes that start with the first: when the first five open no
    account, each of them is answered 401, and every login after them is
    answered 429 with the seconds left of the fifteen minutes, whatever its
    credentials. *)
Theorem login_lockout_after_five :
  forall (lib : JsonWebToken) (env : Env) (toLowerCase : jsstr -> jsstr)
         (bcrypt_compare : jsstr -> jsstr -> bool)
         (clientIP : jsstr) (nowSec : Z) (db : Db.t)
         (e1 pw1 : jsstr) (t1 : Z) (rest : list (jsstr * jsstr * Z))
         (store : SecurityUtils.RateLimitStore),
    store !! (lit "login:" ++ clientIP) = None ->
    Forall (fun '(e, pw, t) =>
              User.isValidEmail e = true /\ pw <> [] /\ t <= t1 + 900000)
           ((e1, pw1, t1) :: rest) ->
    (forall i e pw t,
        ((e1, pw1, t1) :: rest) !! i = Some (e, pw, t) -> (i < 5)%nat ->
        wrongCredentials toLowerCase bcrypt_compare db e pw) ->
    forall (i : nat) (e pw : jsstr) (t : Z),
      ((e1, pw1, t1) :: rest) !! i = Some (e, pw, t) ->
      (loginEach env toLowerCase bcrypt_compare clientIP nowSec db
         ((e1, pw1, t1) :: rest) store).1 !! i
      = Some (if (i <? 5)%nat
              then Err (AuthRoutes.App
                          (Errors.mkAppError (lit "Invalid email or password")
                             401 (Errors.Known AUTH_TOKEN_INVALID) [] None))
              else Err (AuthRoutes.App
                          (Errors.mkAppError
                             (lit "Too many login attempts. Please try again later.")
                             429 Errors.RATE_LIMIT_EXCEEDED []
                             (Some (ceil_div_1000 (t1 + 900000 - t)))))).
Proof.
  intros lib env toLowerCase bcrypt_compare clientIP nowSec db e1 pw1 t1 rest
         store Hfresh Hall Hwrong i e pw t Hi.
  apply Forall_cons in Hall as [(Hv & Hpw & _) Hrest].
  pose proof (checkRateLimit_fresh (lit "login:" ++ clientIP) 5
                (15 * 60 * 1000) t1 store Hfresh ltac:(lia)) as Hc.
  cbn [loginEach fst]. cbv zeta.
  rewrite (login_wrong env toLowerCase bcrypt_compare e1 pw1 false clientIP
             t1 nowSec store db Hv Hpw).
  2: { rewrite Hc. reflexivity. }
  2: { apply (Hwrong 0%nat e1 pw1 t1 eq_refl). lia. }
  rewrite Hc. cbn [fst snd].
  destruct i as [|i]; rewrite lookup_cons in Hi; rewrite lookup_cons.
  - reflexivity.
  - assert (Hwrong' : forall j e' pw' t',
               rest !! j = Some (e', pw', t') -> 1 + Z.of_nat j < 5 ->
               wrongCredentials toLowerCase bcrypt_compare db e' pw').
    { intros j e' pw' t' Hj Hlt. apply (Hwrong (S j) e' pw' t' Hj). lia. }
    rewrite (loginEach_counted env toLowerCase bcrypt_compare clientIP nowSec
               db (t1 + 15 * 60 * 1000) rest 1 _ (lookup_insert_eq _ _ _)
               Hrest Hwrong' i e pw t Hi).
    change (15 * 60 * 1000) with 900000.
    destruct (Z.ltb_spec (1 + Z.of_nat i) 5);
      destruct (Nat.ltb_spec (S i) 5); try lia; reflexivity.
Qed.

(** X23 for six logins as Alice a second apart, five with wrong guesses
    and the sixth with her password. *)
Lemma login_lockout_after_five_witness :
  (loginEach (lib := Ideal.lib) defaultEnv JS.toLowerCase exampleCompare
     (lit "10.0.0.7") 1 aliceDb
     [(lit "alice@example.com", lit "guess1", 1000);
      (lit "alice@example.com", lit "guess2", 2000);
      (lit "alice@example.com", lit "guess3", 3000);
      (lit "alice@example.com", lit "guess4", 4000);
      (lit "alice@example.com", lit "guess5", 5000);
      (lit "alice@example.com", lit "secret1", 6000)] ∅).1 !! 5%nat
  = Some (Err (AuthRoutes.App
                 (Errors.mkAppError
                    (lit "Too many login attempts. Please try again later.")
                    429 Errors.RATE_LIMIT_EXCEEDED []
                    (Some (ceil_div_1000 (1000 + 900000 - 6000)))))).
Proof.
  apply (fun Hfresh Hall Hwrong =>
           login_lockout_after_five Ideal.lib defaultEnv JS.toLowerCase
             exampleCompare (lit "10.0.0.7") 1 aliceDb
             (lit "alice@example.com") (lit "guess1") 1000
             [(lit "alice@example.com", lit "guess2", 2000);
              (lit "alice@example.com", lit "guess3", 3000);
              (lit "alice@example.com", lit "guess4", 4000);
              (lit "alice@example.com", lit "guess5", 5000);
              (lit "alice@example.com", lit "secret1", 6000)] ∅
             Hfresh Hall Hwrong 5%nat (lit "alice@example.com")
             (lit "secret1") 6000 eq_refl).
  - apply lookup_empty.
  - repeat (apply Forall_cons; split;
            [split; [reflexivity | split; [discriminate | lia]]|]).
    constructor.
  - intros i e pw t Hi Hlt.
    do 5 (destruct i as [|i];
          [injection Hi as <- <- <-; right; eexists; split; reflexivity|]).
    lia.
Defined.

(** ** Refreshing over HTTP *)

(** Every message [refreshAccessToken] throws names the refresh. *)
Lemma refreshAccessToken_Err {lib : JsonWebToken} (env : Env) (tok m : jsstr)
    (now : Z) :
  JWTUtils.refreshAccessToken env tok now = Err m ->
  includes m (lit "refresh") = true.
Proof.
  unfold JWTUtils.refreshAccessToken.
  destruct (match JWTUtils.verifyToken env tok JWTUtils.noOptions now with
            | Ok decoded => _
            | Err e => _
            end) as [t|e]; [discriminate|].
  intros [= <-]. reflexivity.
Qed.

(** X24.  The answers of the refresh route.  Without a refresh token in
    the body the handler throws the error of a missing field.  With one,
    whatever makes [refreshAccessToken] throw, a malformed token, a wrong
    signature, an expired token or a token of another type, the handler
    throws one and the same 401 error; when [refreshAccessToken] returns,
    the response carries the access token it returned.  Read at one
    second, the handler has no other outcome. *)
Theorem refresh_route_answers :
  forall (lib : JsonWebToken) (env : Env) (body : option jsstr) (now now' : Z),
    ((body = None \/ body = Some []) ->
     AuthRoutes.refresh env body now now'
     = Err (AuthRoutes.App
              (Errors.mkAppError (lit "Missing required fields: refreshToken")
                 400 (Errors.Known MISSING_REQUIRED_FIELDS)
                 [lit "refreshToken"] None)))
    /\ (forall tok m,
          body = Some tok -> tok <> [] ->
          JWTUtils.refreshAccessToken env tok now = Err m ->
          AuthRoutes.refresh env body now now'
          = Err (AuthRoutes.App
                   (Errors.mkAppError (lit "Invalid refresh token") 401
                      (Errors.Known AUTH_TOKEN_INVALID) [] None)))
    /\ (forall tok access d,
          body = Some tok -> tok <> [] ->
          JWTUtils.refreshAccessToken env tok now = Ok access ->
          JWTUtils.verifyToken env tok JWTUtils.noOptions now' = Ok d ->
          AuthRoutes.refresh env body now now'
          = Ok (AuthRoutes.mkRefreshData access (lit "Bearer") (lit "24h")))
    /\ (forall tok,
          body = Some tok -> tok <> [] ->
          AuthRoutes.refresh env body now now
          = Err (AuthRoutes.App
                   (Errors.mkAppError (lit "Invalid refresh token") 401
                      (Errors.Known AUTH_TOKEN_INVALID) [] None))
          \/ exists access,
               JWTUtils.refreshAccessToken env tok now = Ok access
               /\ AuthRoutes.refresh env body now now
                  = Ok (AuthRoutes.mkRefreshData access (lit "Bearer")
                          (lit "24h"))).
Proof.
  intros lib env body now now'.
  assert (Hthrow : forall n' tok m,
             body = Some tok -> tok <> [] ->
             JWTUtils.refreshAccessToken env tok now = Err m ->
             AuthRoutes.refresh env body now n'
             = Err (AuthRoutes.App
                      (Errors.mkAppError (lit "Invalid refresh token") 401
                         (Errors.Known AUTH_TOKEN_INVALID) [] None))).
  { intros n' tok m -> Hne Hr. unfold AuthRoutes.refresh.
    destruct tok as [|c tok]; [congruence|]. cbv zeta. rewrite Hr.
    cbn [AuthRoutes.thrownMessage].
    rewrite (refreshAccessToken_Err env _ _ _ Hr). reflexivity. }
  assert (Hok : forall n' tok access d,
             body = Some tok -> tok <> [] ->
             JWTUtils.refreshAccessToken env tok now = Ok access ->
             JWTUtils.verifyToken env tok JWTUtils.noOptions n' = Ok d ->
             AuthRoutes.refresh env body now n'
             = Ok (AuthRoutes.mkRefreshData access (lit "Bearer") (lit "24h"))).
  { intros n' tok access d -> Hne Hr Hv. unfold AuthRoutes.refresh.
    destruct tok as [|c tok]; [congruence|]. cbv zeta. rewrite Hr.
    unfold JWTUtils.getUserFromToken. rewrite Hv. reflexivity. }
  split; [|split; [apply Hthrow|split; [apply Hok|]]].
  - intros [-> | ->]; reflexivity.
  - intros tok Hb Hne.
    destruct (JWTUtils.refreshAccessToken env tok now) as [access|m] eqn:Hr.
    + right. exists access. split; [reflexivity|].
      destruct (refreshAccessToken_Ok env tok access now Hr) as (d & Hv & _).
      apply (Hok now tok access d Hb Hne Hr Hv).
    + left. apply (Hthrow now tok m Hb Hne Hr).
Qed.

(** ** Changing and deleting users *)

Lemma filter_map_invariant {A} (f : A -> bool) (g : A -> A) (l : list A) :
  (forall r, f (g r) = f r) ->
  List.filter f (map g l) = map g (List.filter f l).
Proof.
  intros H. induction l as [|x l IH]; simpl; [reflexivity|].
  rewrite H. destruct (f x); simpl; rewrite IH; reflexivity.
Qed.

Lemma map_filter_fixed {A} (f : A -> bool) (g : A -> A) (l : list A) :
  (forall r, f r = true -> g r = r) ->
  map g (List.filter f l) = List.filter f l.
Proof.
  intros H. induction l as [|x l IH]; simpl; [reflexivity|].
  destruct (f x) eqn:E; simpl; [rewrite (H x E), IH|]; auto.
Qed.

(** A lookup by id in a table whose rows were changed without changing
    their ids, and only where the id is [i]. *)
Lemma filter_id_other (set : Db.Row -> Db.Row) (i j : Z) (l : list Db.Row) :
  (forall r, Db.id (set r) = Db.id r) ->
  (forall r, Db.id r <> i -> set r = r) ->
  j <> i ->
  List.filter (fun r => Db.id r =? j) (map set l)
  = List.filter (fun r => Db.id r =? j) l.
Proof.
  intros Hid Hfix Hne.
  rewrite (filter_map_invariant (fun r => Db.id r =? j) set l)
    by (intros r; rewrite Hid; reflexivity).
  apply map_filter_fixed. intros r Hr. apply Z.eqb_eq in Hr.
  apply Hfix. congruence.
Qed.

Lemma filter_In_cons {A} (f : A -> bool) (l : list A) (x : A) :
  In x l -> f x = true -> exists y ys, List.filter f l = y :: ys.
Proof.
  intros Hin Hf.
  assert (H : In x (List.filter f l)) by (apply filter_In; auto).
  destruct (List.filter f l) as [|y ys]; [contradiction|]. eauto.
Qed.

(** X25.  Changing a password.  For a user that has a row in the store,
    [updatePassword] with a password of six or more code units returns the
    instance with the new hash, and the row of that id carries the new
    hash: the instance, and the user [findById] then returns, both verify
    the new password.  The rows of the other ids are as before.  A shorter
    or absent password is refused and the store is not touched. *)
Theorem updatePassword_then_verify :
  forall (bcrypt_hash : jsstr -> Z -> jsstr)
         (bcrypt_compare : jsstr -> jsstr -> bool),
    (forall p r, bcrypt_compare p (bcrypt_hash p r) = true) ->
    (forall p r, bcrypt_hash p r <> []) ->
    forall (u : User.t) (now : Z) (db : Db.t),
      (forall pw row,
          Db.pool db = true -> In row (Db.users db) ->
          Db.id row = User.id u -> User.id u <> 0 ->
          User.isValidPassword pw = true ->
          exists db',
            User.updatePassword bcrypt_hash u (Some pw) now db
            = (Ok (User.mkUser (User.id u) (User.email u)
                     (Some (User.hashPassword bcrypt_hash pw))
                     (User.createdAt u) now),
               db')
            /\ User.verifyPassword bcrypt_compare
                 (User.mkUser (User.id u) (User.email u)
                    (Some (User.hashPassword bcrypt_hash pw))
                    (User.createdAt u) now)
                 (Some pw) = true
            /\ (exists found,
                  User.findById db' (User.id u) = Ok (Some found)
                  /\ User.passwordHash found
                     = Some (User.hashPassword bcrypt_hash pw)
                  /\ User.verifyPassword bcrypt_compare found (Some pw) = true)
            /\ (forall i, i <> User.id u ->
                          User.findById db' i = User.findById db i))
      /\ (forall pw,
            (pw = None \/ exists p, pw = Some p /\ len p < 6) ->
            User.updatePassword bcrypt_hash u pw now db
            = (Err (User.Message
                      (lit "Password must be at least 6 characters long")),
               db)).
Proof.
  intros bcrypt_hash bcrypt_compare Hcmp Hhash u now db. split.
  - intros pw row Hpool Hin Hrow Hid Hvalid.
    assert (Hpw : pw <> []).
    { intros ->. discriminate Hvalid. }
    assert (Hverify : forall x,
               User.passwordHash x = Some (User.hashPassword bcrypt_hash pw) ->
               User.verifyPassword bcrypt_compare x (Some pw) = true).
    { intros x Hx. unfold User.verifyPassword. rewrite Hx.
      unfold User.hashPassword.
      pose proof (Hhash pw 12) as Hne. pose proof (Hcmp pw 12) as Ht.
      destruct pw as [|p pw]; [congruence|].
      destruct (bcrypt_hash (p :: pw) 12); [congruence | exact Ht]. }
    set (set := fun r : Db.Row =>
                  if Db.id r =? User.id u
                  then Db.mkRow (Db.id r) (Db.email r)
                         (User.hashPassword bcrypt_hash pw) (Db.created_at r) now
                  else r).
    assert (Hset_id : forall r, Db.id (set r) = Db.id r).
    { intros r. unfold set. destruct (Db.id r =? User.id u); reflexivity. }
    assert (Hset_fix : forall r, Db.id r <> User.id u -> set r = r).
    { intros r Hr. unfold set. apply Z.eqb_neq in Hr. rewrite Hr.
      reflexivity. }
    assert (Hrows : exists y ys,
               List.filter (fun r => Db.id r =? User.id u) (Db.users db)
               = y :: ys /\ Db.id y = User.id u).
    { destruct (filter_In_cons (fun r => Db.id r =? User.id u) (Db.users db)
                  row Hin) as (y & ys & Hf); [apply Z.eqb_eq, Hrow|].
      exists y, ys. split; [exact Hf|].
      assert (Hy : In y (List.filter (fun r => Db.id r =? User.id u)
                           (Db.users db))) by (rewrite Hf; left; reflexivity).
      apply filter_In in Hy as [_ Hy]. apply Z.eqb_eq, Hy. }
    destruct Hrows as (y & ys & Hf & Hy).
    assert (Hupdated :
              List.filter (fun r => Db.id r =? User.id u)
                (map set (Db.users db))
              = set y :: map set ys).
    { rewrite (filter_map_invariant (fun r => Db.id r =? User.id u) set)
        by (intros r; rewrite Hset_id; reflexivity).
      rewrite Hf. reflexivity. }
    assert (Hsety : set y = Db.mkRow (Db.id y) (Db.email y)
                              (User.hashPassword bcrypt_hash pw)
                              (Db.created_at y) now).
    { unfold set. apply Z.eqb_eq in Hy. rewrite Hy. reflexivity. }
    exists (Db.mkDb (Db.pool db) (map set (Db.users db)) (Db.users_id_seq db)).
    split; [|split; [|split]].
    + unfold User.updatePassword, Db.updatePasswordHash.
      destruct pw as [|p pw]; [congruence|].
      rewrite Hvalid, Hpool. cbn [negb]. cbv zeta. fold set.
      rewrite Hupdated, Hsety. reflexivity.
    + apply Hverify. reflexivity.
    + exists (User.ofRow (set y)). split; [|split].
      * unfold User.findById, Db.selectById. cbn [Db.pool Db.users].
        apply Z.eqb_neq in Hid. rewrite Hid, Hpool, Hupdated. reflexivity.
      * rewrite Hsety. reflexivity.
      * apply Hverify. rewrite Hsety. reflexivity.
    + intros i Hi. unfold User.findById, Db.selectById.
      cbn [Db.pool Db.users].
      rewrite (filter_id_other set (User.id u) i _ Hset_id Hset_fix Hi).
      reflexivity.
  - intros pw [-> | (p & -> & Hp)]; [reflexivity|].
    unfold User.updatePassword. destruct p as [|c p]; [reflexivity|].
    unfold User.isValidPassword.
    destruct (Z.leb_spec 6 (len (c :: p))); [lia | reflexivity].
Qed.

(** X25 for Alice, who changes her password to secret9 at time 300. *)
Lemma updatePassword_then_verify_witness :
  exists found,
    User.findById
      (User.updatePassword exampleHash
         (User.mkUser 7 (lit "alice@example.com") (Some (lit "$2b$secret1"))
            100 100)
         (Some (lit "secret9")) 300 aliceDb).2 7
    = Ok (Some found)
    /\ User.verifyPassword exampleCompare found (Some (lit "secret9")) = true.
Proof.
  destruct (updatePassword_then_verify exampleHash exampleCompare
              (fun p r => streq_refl (lit "$2b$" ++ p))
              (fun p r => ltac:(discriminate))
              (User.mkUser 7 (lit "alice@example.com")
                 (Some (lit "$2b$secret1")) 100 100)
              300 aliceDb) as [H _].
  destruct (H (lit "secret9")
              (Db.mkRow 7 (lit "alice@example.com") (lit "$2b$secret1") 100 100))
    as (db' & Hup & _ & (found & Hf & _ & Hv) & _).
  - reflexivity.
  - left. reflexivity.
  - reflexivity.
  - discriminate.
  - reflexivity.
  - rewrite Hup. cbn [snd]. exists found. split; [exact Hf | exact Hv].
Defined.

Lemma filter_negb_none {A} (f : A -> bool) (l : list A) :
  List.filter f (List.filter (fun r => negb (f r)) l) = [].
Proof.
  induction l as [|x l IH]; simpl; [reflexivity|].
  destruct (f x) eqn:E; simpl; [exact IH|]. rewrite E. exact IH.
Qed.

Lemma filter_id_deleted (i j : Z) (l : list Db.Row) :
  j <> i ->
  List.filter (fun r => Db.id r =? j)
    (List.filter (fun r => negb (Db.id r =? i)) l)
  = List.filter (fun r => Db.id r =? j) l.
Proof.
  intros Hne. induction l as [|x l IH]; simpl; [reflexivity|].
  destruct (Z.eqb_spec (Db.id x) i) as [E|E]; simpl.
  - destruct (Z.eqb_spec (Db.id x) j); [congruence | exact IH].
  - destruct (Db.id x =? j); [f_equal|]; exact IH.
Qed.

(** X26.  Deleting a user.  An instance without an id is refused and the
    store is not touched.  Otherwise [delete] removes the rows of the id
    and no other: it returns [true] when there was such a row and throws
    the error of a user not found when there was none; afterwards
    [findById] finds no user of that id and answers for every other id as
    before, and a second [delete] throws the error of a user not found. *)
Theorem delete_then_find :
  forall (u : User.t) (db : Db.t),
    (User.id u = 0 ->
     User.delete u db
     = (Err (User.Message (lit "Cannot delete user without ID")), db))
    /\ (User.id u <> 0 -> Db.pool db = true ->
        exists db',
          (User.delete u db).2 = db'
          /\ ((exists row, In row (Db.users db) /\ Db.id row = User.id u) ->
              (User.delete u db).1 = Ok true)
          /\ ((forall row, In row (Db.users db) -> Db.id row <> User.id u) ->
              (User.delete u db).1 = Err (User.Message (lit "User not found")))
          /\ User.findById db' (User.id u) = Ok None
          /\ (forall i, i <> User.id u ->
                        User.findById db' i = User.findById db i)
          /\ (User.delete u db').1
             = Err (User.Message (lit "User not found"))).
Proof.
  intros u db. split.
  - intros E. unfold User.delete. rewrite E. reflexivity.
  - intros Hid Hpool.
    exists (Db.mkDb true
              (List.filter (fun r => negb (Db.id r =? User.id u)) (Db.users db))
              (Db.users_id_seq db)).
    apply Z.eqb_neq in Hid.
    unfold User.delete, Db.deleteById. rewrite Hid, Hpool.
    cbn [Db.pool Db.users].
    split; [|split; [|split; [|split; [|split]]]].
    + destruct (Z.of_nat (length _) =? 0); reflexivity.
    + intros (row & Hin & Hrow).
      destruct (filter_In_cons (fun r => Db.id r =? User.id u) (Db.users db)
                  row Hin) as (y & ys & Hf); [apply Z.eqb_eq, Hrow|].
      rewrite Hf. reflexivity.
    + intros Hnone.
      rewrite (filter_none (fun r => Db.id r =? User.id u) (Db.users db)).
      * reflexivity.
      * apply List.Forall_forall. intros r Hr. apply Z.eqb_neq.
        apply Hnone, Hr.
    + unfold User.findById, Db.selectById. cbn [Db.pool Db.users].
      rewrite Hid.
      rewrite (filter_negb_none (fun r => Db.id r =? User.id u)). reflexivity.
    + intros i Hi. unfold User.findById, Db.selectById.
      cbn [Db.pool Db.users]. rewrite Hpool.
      rewrite (filter_id_deleted (User.id u) i _ Hi). reflexivity.
    + rewrite (filter_negb_none (fun r => Db.id r =? User.id u)). reflexivity.
Qed.

(** X27.  Changing an address.  [update] with no address, or with one that
    is not well formed, is refused and the store is not touched; so it is
    when no row has the id of the instance, and when a row of another id
    has the new address exactly, which the store refuses.  Otherwise the
    instance and the row of its id get the address as it was passed, with
    no change of letter case, and the rows of the other ids are as
    before. *)
Theorem update_email :
  forall (u : User.t) (now : Z) (db : Db.t),
    User.update u None now db
    = (Err (User.Message (lit "No valid fields to update")), db)
    /\ (forall e,
          User.isValidEmail e = false ->
          User.update u (Some e) now db
          = (Err (User.Message (lit "Invalid email format")), db))
    /\ (forall e,
          User.isValidEmail e = true -> Db.pool db = true ->
          (forall r, In r (Db.users db) -> Db.id r <> User.id u) ->
          User.update u (Some e) now db
          = (Err (User.Message (lit "User not found")), db))
    /\ (forall e row other,
          User.isValidEmail e = true -> Db.pool db = true ->
          In row (Db.users db) -> Db.id row = User.id u ->
          In other (Db.users db) -> Db.id other <> User.id u ->
          Db.email other = e ->
          User.update u (Some e) now db
          = (Err (User.Store Db.UniqueViolation), db))
    /\ (forall e row,
          User.isValidEmail e = true -> Db.pool db = true ->
          In row (Db.users db) -> Db.id row = User.id u -> User.id u <> 0 ->
          (forall r, In r (Db.users db) -> Db.id r <> User.id u ->
                     Db.email r <> e) ->
          exists db',
            User.update u (Some e) now db
            = (Ok (User.mkUser (User.id u) e (User.passwordHash u)
                     (User.createdAt u) now),
               db')
            /\ (exists found,
                  User.findById db' (User.id u) = Ok (Some found)
                  /\ User.email found = e)
            /\ (forall i, i <> User.id u ->
                          User.findById db' i = User.findById db i)).
Proof.
  intros u now db.
  split; [reflexivity|]. split; [|split; [|split]].
  - intros e He. unfold User.update. rewrite He. reflexivity.
  - intros e He Hpool Hnone. unfold User.update, Db.updateEmail.
    rewrite He, Hpool. cbn [negb].
    rewrite (filter_none (fun r => Db.id r =? User.id u) (Db.users db)).
    + reflexivity.
    + apply List.Forall_forall. intros r Hr. apply Z.eqb_neq. apply Hnone, Hr.
  - intros e row other He Hpool Hin Hrow Hin' Hother Hemail.
    unfold User.update, Db.updateEmail. rewrite He, Hpool. cbn [negb].
    destruct (filter_In_cons (fun r => Db.id r =? User.id u) (Db.users db)
                row Hin) as (y & ys & Hf); [apply Z.eqb_eq, Hrow|].
    rewrite Hf.
    assert (Hex : existsb (fun r => negb (Db.id r =? User.id u)
                                    && streq (Db.email r) e) (Db.users db)
                  = true).
    { apply existsb_exists. exists other. split; [exact Hin'|].
      apply Z.eqb_neq in Hother. rewrite Hother. cbn [negb andb].
      apply streq_eq, Hemail. }
    rewrite Hex. reflexivity.
  - intros e row He Hpool Hin Hrow Hid Hfree.
    set (set := fun r : Db.Row =>
                  if Db.id r =? User.id u
                  then Db.mkRow (Db.id r) e (Db.password_hash r)
                         (Db.created_at r) now
                  else r).
    assert (Hset_id : forall r, Db.id (set r) = Db.id r).
    { intros r. unfold set. destruct (Db.id r =? User.id u); reflexivity. }
    assert (Hset_fix : forall r, Db.id r <> User.id u -> set r = r).
    { intros r Hr. unfold set. apply Z.eqb_neq in Hr. rewrite Hr.
      reflexivity. }
    destruct (filter_In_cons (fun r => Db.id r =? User.id u) (Db.users db)
                row Hin) as (y & ys & Hf); [apply Z.eqb_eq, Hrow|].
    assert (Hy : Db.id y = User.id u).
    { assert (H : In y (List.filter (fun r => Db.id r =? User.id u)
                          (Db.users db))) by (rewrite Hf; left; reflexivity).
      apply filter_In in H as [_ H]. apply Z.eqb_eq, H. }
    assert (Hupdated :
              List.filter (fun r => Db.id r =? User.id u)
                (map set (Db.users db))
              = set y :: map set ys).
    { rewrite (filter_map_invariant (fun r => Db.id r =? User.id u) set)
        by (intros r; rewrite Hset_id; reflexivity).
      rewrite Hf. reflexivity. }
    assert (Hsety : set y = Db.mkRow (Db.id y) e (Db.password_hash y)
                              (Db.created_at y) now).
    { unfold set. apply Z.eqb_eq in Hy. rewrite Hy. reflexivity. }
    assert (Hex : existsb (fun r => negb (Db.id r =? User.id u)
                                    && streq (Db.email r) e) (Db.users db)
                  = false).
    { destruct (existsb _ (Db.users db)) eqn:E; [|reflexivity].
      apply existsb_exists in E as (r & Hr & Hc).
      apply andb_prop in Hc as [Hc1 Hc2].
      apply negb_true_iff, Z.eqb_neq in Hc1. apply streq_eq in Hc2.
      exfalso. exact (Hfree r Hr Hc1 Hc2). }
    exists (Db.mkDb (Db.pool db) (map set (Db.users db)) (Db.users_id_seq db)).
    split; [|split].
    + unfold User.update, Db.updateEmail. rewrite He, Hpool. cbn [negb].
      rewrite Hf, Hex. fold set. rewrite Hupdated, Hsety. reflexivity.
    + exists (User.ofRow (set y)). split.
      * unfold User.findById, Db.selectById. cbn [Db.pool Db.users].
        apply Z.eqb_neq in Hid. rewrite Hid, Hpool, Hupdated. reflexivity.
      * rewrite Hsety. reflexivity.
    + intros i Hi. unfold User.findById, Db.selectById.
      cbn [Db.pool Db.users].
      rewrite (filter_id_other set (User.id u) i _ Hset_id Hset_fix Hi).
      reflexivity.
Qed.

(** ** The fields of a strength result *)

Lemma b2z_bounds (b : bool) : 0 <= b2z b <= 1.
Proof. destruct b; simpl; lia. Qed.

Lemma b2z_1 (b : bool) : b2z b = 1 <-> b = true.
Proof. destruct b; simpl; split; (reflexivity || discriminate). Qed.

Lemma b2z_0 (b : bool) : b2z b = 0 <-> b = false.
Proof. destruct b; simpl; split; (reflexivity || discriminate). Qed.

Lemma snd_check_nil (b : bool) (m : string) (st : Z * list jsstr) :
  snd (SecurityUtils.check b m st) = [] <-> snd st = [] /\ b = true.
Proof.
  destruct b; simpl.
  - tauto.
  - split; [intros H; apply app_eq_nil in H; destruct H as [_ [=]]
           | intros [_ [=]]].
Qed.

Lemma snd_penalty_nil (b : bool) (m : string) (st : Z * list jsstr) :
  snd (SecurityUtils.penalty b m st) = [] <-> snd st = [] /\ b = false.
Proof.
  destruct b; simpl.
  - split; [intros H; apply app_eq_nil in H; destruct H as [_ [=]]
           | intros [_ [=]]].
  - tauto.
Qed.

(** No advice is collected exactly when the five character tests pass and
    no penalty applies; the length of 12 gives a point and no advice. *)
Lemma tally_no_feedback (p : jsstr) :
  snd (SecurityUtils.tally p) = []
  <-> (8 <=? len p) = true
      /\ some_char isLower p = true /\ some_char isUpper p = true
      /\ some_char isDigit p = true
      /\ some_char SecurityUtils.isSpecial p = true
      /\ SecurityUtils.hasRepeatedChars p = false
      /\ SecurityUtils.hasCommonSequence p = false.
Proof.
  unfold SecurityUtils.tally. rewrite !snd_penalty_nil, !snd_check_nil.
  destruct (12 <=? len p); cbn [snd fst]; rewrite ?snd_check_nil;
    cbn [snd fst]; intuition auto.
Qed.

(** The advice collected by the tests never is the sentence that stands for
    an empty list of advice. *)
Lemma tally_feedback_not_good (p : jsstr) :
  ~ In (lit "Password strength is good") (snd (SecurityUtils.tally p)).
Proof.
  unfold SecurityUtils.tally. rewrite !snd_penalty.
  destruct (12 <=? len p); repeat (rewrite snd_check || cbn [snd fst In]).
  all: intros H.
  all: repeat match goal with
              | H : _ \/ _ |- _ => destruct H as [H|H]
              | H : _ /\ _ |- _ => destruct H as [? H]
              | H : False |- _ => destruct H
              | H : lit _ = lit _ |- _ => vm_compute in H; discriminate H
              end.
Qed.

(** On a string and on a body without password the handler is the one
    of the strings. *)
Lemma checkPasswordStrengthOf_string (password : option jsstr) :
  AuthRoutes.checkPasswordStrengthOf
    (match password with
     | Some s => Str s
     | None => NonString false
     end)
  = AuthRoutes.checkPasswordStrength password.
Proof. destruct password as [[|c p]|]; reflexivity. Qed.

(** X28.  The three fields of a strength result fit together.  The score
    lies between 0 and 6 and the feedback is never empty.  The strength is
    [very-strong] exactly when the score is 6, and then the only feedback
    is that the strength is good; that feedback is given only from a score
    of 5 on; [very-weak] is the strength of an empty password and of what
    is not a string, and of nothing else.  The route answers a falsy
    password with the error of a missing field and every other one with an
    analysis, in which the password is acceptable exactly when its
    strength is neither [weak] nor [very-weak]; a truthy value that is not
    a string gets the analysis of no password: [very-weak], not
    acceptable. *)
Theorem validatePasswordStrength_consistent :
  (forall password : option jsstr,
      0 <= SecurityUtils.score (SecurityUtils.validatePasswordStrength password)
        <= 6
      /\ SecurityUtils.feedback (SecurityUtils.validatePasswordStrength password)
         <> []
      /\ (SecurityUtils.strength
            (SecurityUtils.validatePasswordStrength password)
          = SecurityUtils.very_strong
          <-> SecurityUtils.score
                (SecurityUtils.validatePasswordStrength password) = 6)
      /\ (SecurityUtils.score
            (SecurityUtils.validatePasswordStrength password) = 6 ->
          SecurityUtils.feedback
            (SecurityUtils.validatePasswordStrength password)
          = [lit "Password strength is good"])
      /\ (SecurityUtils.feedback
            (SecurityUtils.validatePasswordStrength password)
          = [lit "Password strength is good"] ->
          5 <= SecurityUtils.score
                 (SecurityUtils.validatePasswordStrength password))
      /\ (SecurityUtils.strength
            (SecurityUtils.validatePasswordStrength password)
          = SecurityUtils.very_weak
          <-> password = None \/ password = Some []))
  /\ (forall v : value,
        truthy v = false ->
        AuthRoutes.checkPasswordStrengthOf v = Err MISSING_REQUIRED_FIELDS)
  /\ (forall v : value,
        truthy v = true ->
        exists d,
          AuthRoutes.checkPasswordStrengthOf v = Ok d
          /\ AuthRoutes.isAcceptable d = (3 <=? AuthRoutes.score d)
          /\ (AuthRoutes.isAcceptable d = true
              <-> AuthRoutes.strength d <> SecurityUtils.weak
                  /\ AuthRoutes.strength d <> SecurityUtils.very_weak))
  /\ AuthRoutes.checkPasswordStrengthOf (NonString true)
     = Ok (AuthRoutes.mkStrengthData SecurityUtils.very_weak 0
             [lit "Password is required"] false).
Proof.
  assert (Hb : forall s, s <= 6 ->
            (SecurityUtils.bucket s = SecurityUtils.very_strong <-> s = 6)
            /\ SecurityUtils.bucket s <> SecurityUtils.very_weak
            /\ (SecurityUtils.bucket s <> SecurityUtils.weak <-> 3 <= s)).
  { intros s Hs6. unfold SecurityUtils.bucket.
    destruct (Z.leb_spec s 2); [|destruct (Z.leb_spec s 4);
                                  [|destruct (Z.leb_spec s 5)]].
    all: repeat split; try discriminate; try lia; try congruence.
    all: intros; exfalso; lia. }
  assert (Hbounds : forall p : jsstr, fst (SecurityUtils.tally p) <= 6).
  { intros p. rewrite tally_score.
    pose proof (b2z_bounds (8 <=? len p)).
    pose proof (b2z_bounds (12 <=? len p)).
    pose proof (b2z_bounds (some_char isLower p)).
    pose proof (b2z_bounds (some_char isUpper p)).
    pose proof (b2z_bounds (some_char isDigit p)).
    pose proof (b2z_bounds (some_char SecurityUtils.isSpecial p)).
    pose proof (b2z_bounds (SecurityUtils.hasRepeatedChars p)).
    pose proof (b2z_bounds (SecurityUtils.hasCommonSequence p)).
    lia. }
  split; [|split; [|split]].
  - intros [[|c p]|].
    1, 3: repeat split; try (vm_compute; congruence); try discriminate; auto.
    rewrite validatePasswordStrength_cons.
    cbn [SecurityUtils.score SecurityUtils.strength SecurityUtils.feedback].
    pose proof (tally_score (c :: p)) as Hs.
    pose proof (tally_no_feedback (c :: p)) as Hn.
    pose proof (tally_feedback_not_good (c :: p)) as Hg.
    pose proof (b2z_bounds (8 <=? len (c :: p))) as B1.
    pose proof (b2z_bounds (12 <=? len (c :: p))) as B2.
    pose proof (b2z_bounds (some_char isLower (c :: p))) as B3.
    pose proof (b2z_bounds (some_char isUpper (c :: p))) as B4.
    pose proof (b2z_bounds (some_char isDigit (c :: p))) as B5.
    pose proof (b2z_bounds (some_char SecurityUtils.isSpecial (c :: p))) as B6.
    pose proof (b2z_bounds (SecurityUtils.hasRepeatedChars (c :: p))) as B7.
    pose proof (b2z_bounds (SecurityUtils.hasCommonSequence (c :: p))) as B8.
    set (s := fst (SecurityUtils.tally (c :: p))) in *.
    assert (Hs6 : s <= 6) by lia.
    destruct (Hb s Hs6) as (Hvs & Hvw & Hw).
    split; [lia|].
    split; [destruct (snd (SecurityUtils.tally (c :: p))); discriminate|].
    split; [rewrite Hvs; lia|].
    split.
    { intros H6.
      assert (Hnil : snd (SecurityUtils.tally (c :: p)) = []).
      { apply Hn. rewrite <- !b2z_1, <- !b2z_0. lia. }
      rewrite Hnil. reflexivity. }
    split.
    { intros Hfb.
      destruct (snd (SecurityUtils.tally (c :: p))) as [|x fb] eqn:Hsnd.
      - destruct Hn as [Hn _]. specialize (Hn eq_refl).
        rewrite <- !b2z_1, <- !b2z_0 in Hn. lia.
      - exfalso. apply Hg. rewrite Hfb. left. reflexivity. }
    split; [intros H; exfalso; exact (Hvw H) | intros [H|H]; discriminate H].
  - intros [[|c p]|[|]]; try discriminate; reflexivity.
  - intros [[|c p]|[|]]; try discriminate; intros _.
    + unfold AuthRoutes.checkPasswordStrengthOf.
      cbn [truthy negb asString]. cbv zeta.
      rewrite validatePasswordStrength_cons.
      eexists. split; [reflexivity|].
      cbn [AuthRoutes.isAcceptable AuthRoutes.score AuthRoutes.strength
           SecurityUtils.score SecurityUtils.strength].
      split; [reflexivity|].
      destruct (Hb _ (Hbounds (c :: p))) as (_ & Hvw & Hw).
      rewrite Z.leb_le, Hw. split; [intros H; split; [lia | exact Hvw] | lia].
    + eexists. split; [reflexivity|]. split; [reflexivity|].
      cbn. split; [discriminate | intros [_ H]; contradiction].
  - reflexivity.
Qed.

(** ** The route that validates a token *)

Section ValidateRoute.
Context {lib : JsonWebToken} {spec : JsonWebTokenSpec lib}.
Variable env : Env.

(** The route on a token the package signed for [ttl] seconds with the
    issuer and audience of the server. *)
Lemma validate_signed (c : Claims) (ttl now : Z) (tok : jsstr)
    (now' : Z) (db : Db.t) :
  jwt_sign c (secret (config_jwt env))
    (mkSignOptions ttl JWTUtils.ISSUER JWTUtils.AUDIENCE) now = Ok tok ->
  0 < now + ttl <= 8640000000000 ->
  AuthRoutes.validate env (Some tok) now' db
  = Ok (if now + ttl <=? now'
        then AuthRoutes.TokenInvalid (lit "Invalid token")
        else match User.findById db (userId c) with
             | Ok (Some _) =>
                 AuthRoutes.TokenValid (userId c) (email c)
                   ((now + ttl) * 1000)
             | Ok None => AuthRoutes.TokenInvalid (lit "User no longer exists")
             | Err e => AuthRoutes.TokenInvalid (Db.message e)
             end).
Proof.
  intros Hs Hrange.
  pose proof (verifyToken_signed env c ttl now tok now' Hs) as Hv.
  destruct (sign_compact _ _ _ _ _ Hs) as [Hdots _].
  destruct tok as [|t0 tok]; [discriminate Hdots|].
  unfold AuthRoutes.validate, JWTUtils.getUserFromToken. rewrite Hv.
  destruct (now + ttl <=? now'); [reflexivity|].
  cbn [signedPayload claims userId email exp expiresIn].
  destruct (User.findById db (userId c)) as [[u|]|e]; try reflexivity.
  unfold AuthRoutes.expiresAtOf.
  destruct (Z.eqb_spec (now + ttl) 0) as [E|_]; [lia|].
  destruct (Z.ltb_spec 8640000000000000 (Z.abs ((now + ttl) * 1000)))
    as [E|_]; [lia|].
  reflexivity.
Qed.

End ValidateRoute.

(** X29.  What [POST /validate] answers.  With a token in the body the
    route never throws: every failure inside it, one of the store
    included, becomes the reason of a response with [valid: false].  For
    the two tokens of a pair that [generateTokenPair] issued, it answers
    [valid: true] with the id, the address and the expiry of the token
    while the token has not expired and a user with its id is in the
    store, for the refresh token as for the access token; the reason is
    that the token is invalid once it has expired, that the user no longer
    exists when no row has the id, and the message of the store when the
    query fails. *)
Theorem validate_route_answers :
  forall (lib : JsonWebToken),
    JsonWebTokenSpec lib ->
    forall (env : Env) (u : JWTUtils.TokenUser) (now : Z)
           (access refresh : jsstr),
      JWTUtils.generateTokenPair env (Some u) now
      = Ok (JWTUtils.mkTokenPair access refresh) ->
      0 < now + configExpiresIn (config_jwt env) <= 8640000000000 ->
      0 < now + 604800 <= 8640000000000 ->
      (forall (c : N) (t : jsstr) (now' : Z) (db : Db.t),
          exists d, AuthRoutes.validate env (Some (c :: t)) now' db = Ok d)
      /\ (forall (now' : Z) (db : Db.t),
            AuthRoutes.validate env (Some access) now' db
            = Ok (if now + configExpiresIn (config_jwt env) <=? now'
                  then AuthRoutes.TokenInvalid (lit "Invalid token")
                  else match User.findById db (JWTUtils.id u) with
                       | Ok (Some _) =>
                           AuthRoutes.TokenValid (JWTUtils.id u)
                             (JWTUtils.userEmail u)
                             ((now + configExpiresIn (config_jwt env)) * 1000)
                       | Ok None =>
                           AuthRoutes.TokenInvalid
                             (lit "User no longer exists")
                       | Err e => AuthRoutes.TokenInvalid (Db.message e)
                       end))
      /\ (forall (now' : Z) (db : Db.t),
            AuthRoutes.validate env (Some refresh) now' db
            = Ok (if now + 604800 <=? now'
                  then AuthRoutes.TokenInvalid (lit "Invalid token")
                  else match User.findById db (JWTUtils.id u) with
                       | Ok (Some _) =>
                           AuthRoutes.TokenValid (JWTUtils.id u)
                             (JWTUtils.userEmail u)
                             ((now + 604800) * 1000)
                       | Ok None =>
                           AuthRoutes.TokenInvalid
                             (lit "User no longer exists")
                       | Err e => AuthRoutes.TokenInvalid (Db.message e)
                       end)).
Proof.
  intros lib spec env u now access refresh Hpair Ha Hr.
  split; [|split].
  - intros c t now' db. unfold AuthRoutes.validate.
    destruct (JWTUtils.getUserFromToken env (c :: t) now') as [d|];
      [|eexists; reflexivity].
    destruct (User.findById db (userId d)) as [[x|]|e];
      try (eexists; reflexivity).
    destruct (AuthRoutes.expiresAtOf (exp d)); eexists; reflexivity.
  - intros now' db. revert Hpair. unfold JWTUtils.generateTokenPair.
    destruct (JWTUtils.generateAuthToken env (Some u) now)
      as [a|m] eqn:Hga; [|discriminate].
    destruct (JWTUtils.generateRefreshToken env (Some u) now)
      as [r|m] eqn:Hgr; [|discriminate].
    intros [= -> ->].
    assert (Hu : JWTUtils.id u <> 0 /\ JWTUtils.userEmail u <> []).
    { revert Hgr. unfold JWTUtils.generateRefreshToken.
      destruct (Z.eqb_spec (JWTUtils.id u) 0) as [E|Hid]; [discriminate|].
      destruct (streq (JWTUtils.userEmail u) []) eqn:E; [discriminate|].
      intros _. split; [exact Hid | apply streq_neq, E]. }
    destruct Hu as [Hid Hem].
    destruct (generateAuthToken_signed env u now Hid Hem)
      as (tok & Hg & Hs).
    rewrite Hga in Hg. injection Hg as <-.
    apply (validate_signed env _ _ _ _ now' db Hs Ha).
  - intros now' db. revert Hpair. unfold JWTUtils.generateTokenPair.
    destruct (JWTUtils.generateAuthToken env (Some u) now)
      as [a|m] eqn:Hga; [|discriminate].
    destruct (JWTUtils.generateRefreshToken env (Some u) now)
      as [r|m] eqn:Hgr; [|discriminate].
    intros [= -> ->].
    assert (Hu : JWTUtils.id u <> 0 /\ JWTUtils.userEmail u <> []).
    { revert Hgr. unfold JWTUtils.generateRefreshToken.
      destruct (Z.eqb_spec (JWTUtils.id u) 0) as [E|Hid]; [discriminate|].
      destruct (streq (JWTUtils.userEmail u) []) eqn:E; [discriminate|].
      intros _. split; [exact Hid | apply streq_neq, E]. }
    destruct Hu as [Hid Hem].
    destruct (generateRefreshToken_signed env u now Hid Hem)
      as (tok & Hg & Hs).
    rewrite Hgr in Hg. injection Hg as <-.
    apply (validate_signed env _ _ _ _ now' db Hs Hr).
Qed.

(** X29 for Alice's refresh token of second 1000, validated at second 2000
    against the store that holds her row. *)
Lemma validate_route_answers_witness :
  AuthRoutes.validate (lib := Ideal.lib) defaultEnv (Some aliceRefreshToken)
    2000 aliceDb
  = Ok (AuthRoutes.TokenValid 7 (lit "alice@example.com") 605800000).
Proof.
  destruct (validate_route_answers Ideal.lib Ideal_meets_contract defaultEnv
              (JWTUtils.mkTokenUser 7 (lit "alice@example.com")) 1000
              aliceAccessToken aliceRefreshToken eq_refl)
    as (_ & _ & Hr); [cbn; lia | lia |].
  exact (Hr 2000 aliceDb).
Defined.
